(** * setup-gh-cli-action: the version resolver and installer, embedded in Rocq

    The action is one TypeScript file (three revisions of it are kept in the
    repository).  The latest revision is embedded at top level, the earlier
    revision, where it differs, in [Module Earlier], and the extension rule
    of the first revision in [Module First].

    Strings are [string]: sequences of code units below 256.  Everything the
    action gets from outside (the runner's inputs, the release registry, the
    tool cache, the file system, the spawned process) is answered by an
    [Oracle], whose answers may depend on the calls made so far; every call is
    recorded in a trace. *)

From Stdlib Require Import String Ascii List Bool ZArith NArith Lia.
From Stdlib Require Import DecimalString DecimalN DecimalFacts.
Import ListNotations.

Local Open Scope string_scope.
Local Open Scope Z_scope.

(* ================================================================== *)
(** * The [semver] package, strict mode

    [semver] is an npm dependency of the action, not part of its sources.
    The two functions the action imports, [clean] and [compare], are modelled
    here after the package (version 7, default options):
    - [clean] trims, drops leading [=] and [v], and parses;
    - the constructor [SemVer] refuses more than [MAX_LENGTH] characters,
      trims, and matches the regular expression [FULL], that is an optional
      [v], three numeric identifiers separated by dots, an optional
      pre-release part after [-] and an optional build part after [+];
    - a parsed version prints as the three numbers and the pre-release
      identifiers, without the build part;
    - precedence compares major, minor and patch as numbers, puts a version
      with pre-release identifiers before the same version without, and
      compares two lists of identifiers from the left, a numeric identifier
      before an alphanumeric one.

    Numbers: the package holds them in double-precision floating-point
    numbers.  Major, minor and patch are accepted only up to
    [MAX_SAFE_INTEGER], where a double is exact.  A numeric pre-release
    identifier may be larger: [compareIdentifiers] converts it with unary
    [+], which gives the nearest double (a tie goes to the even one), and
    [to_double] is the integer that this double holds.  A version has at
    most 256 characters, so no identifier reaches the numbers that a double
    takes for infinite. *)

Module Semver.

Definition in_range (lo hi : nat) (c : ascii) : bool :=
  let n := nat_of_ascii c in (Nat.leb lo n && Nat.leb n hi)%bool.

(** [\d] *)
Definition is_digit (c : ascii) : bool := in_range 48 57 c.

(** [[a-zA-Z-]] *)
Definition is_letter_or_dash (c : ascii) : bool :=
  (in_range 97 122 c || in_range 65 90 c || Ascii.eqb c "-")%bool.

(** [[a-zA-Z0-9-]] *)
Definition is_idchar (c : ascii) : bool :=
  (is_digit c || is_letter_or_dash c)%bool.

(** White space and line terminators removed by [String.prototype.trim],
    among the code units below 256: TAB, LF, VT, FF, CR, SPACE, NBSP. *)
Definition is_space (c : ascii) : bool :=
  let n := nat_of_ascii c in
  (in_range 9 13 c || Nat.eqb n 32 || Nat.eqb n 160)%bool.

Fixpoint all_chars (p : ascii -> bool) (s : string) : bool :=
  match s with
  | EmptyString => true
  | String c r => (p c && all_chars p r)%bool
  end.

Fixpoint any_char (p : ascii -> bool) (s : string) : bool :=
  match s with
  | EmptyString => false
  | String c r => (p c || any_char p r)%bool
  end.

Fixpoint drop_while (p : ascii -> bool) (s : string) : string :=
  match s with
  | EmptyString => EmptyString
  | String c r => if p c then drop_while p r else s
  end.

Fixpoint drop_while_end (p : ascii -> bool) (s : string) : string :=
  match s with
  | EmptyString => EmptyString
  | String c r =>
      match drop_while_end p r with
      | EmptyString => if p c then EmptyString else String c EmptyString
      | r' => String c r'
      end
  end.

(** [s.trim()] *)
Definition trim (s : string) : string :=
  drop_while_end is_space (drop_while is_space s).

(** [s.replace(/^[=v]+/, '')] *)
Definition strip_eq_v (s : string) : string :=
  drop_while (fun c => (Ascii.eqb c "=" || Ascii.eqb c "v")%bool) s.

(** The text before the first [c], and the text after it when there is one. *)
Fixpoint break_at (c : ascii) (s : string) : string * option string :=
  match s with
  | EmptyString => (EmptyString, None)
  | String a r =>
      if Ascii.eqb a c then (EmptyString, Some r)
      else let (x, y) := break_at c r in (String a x, y)
  end.

(** [s.split(c)] *)
Fixpoint split (c : ascii) (s : string) : list string :=
  match s with
  | EmptyString => [EmptyString]
  | String a r =>
      if Ascii.eqb a c then EmptyString :: split c r
      else match split c r with
           | x :: xs => String a x :: xs
           | [] => [String a EmptyString]
           end
  end.

(** [/^[0-9]+$/.test(s)] *)
Definition is_numeric (s : string) : bool :=
  (negb (s =? "")%string && all_chars is_digit s)%bool.

(** [0|[1-9]\d*] *)
Definition is_numeric_id (s : string) : bool :=
  match s with
  | EmptyString => false
  | String c r =>
      (all_chars is_digit s && (negb (Ascii.eqb c "0") || (r =? "")%string))%bool
  end.

(** [\d*[a-zA-Z-][a-zA-Z0-9-]*] *)
Definition is_nonnumeric_id (s : string) : bool :=
  (all_chars is_idchar s && any_char is_letter_or_dash s)%bool.

(** One identifier of the pre-release part. *)
Definition is_prerelease_id (s : string) : bool :=
  (is_numeric_id s || is_nonnumeric_id s)%bool.

(** One identifier of the build part: [[a-zA-Z0-9-]+]. *)
Definition is_build_id (s : string) : bool :=
  (negb (s =? "")%string && all_chars is_idchar s)%bool.

(** [+s] for a string of digits, and the printing of a number. *)
Definition to_number (s : string) : N :=
  match NilEmpty.uint_of_string s with
  | Some d => N.of_uint d
  | None => 0%N
  end.

Definition of_number (n : N) : string :=
  NilEmpty.string_of_uint (N.to_uint n).

Definition MAX_LENGTH : nat := 256.
Definition MAX_SAFE_INTEGER : N := 9007199254740991%N.

(** The parsed version: [major], [minor], [patch] are numbers, the
    pre-release identifiers are kept as written (a numeric identifier has no
    leading zero, so the number it is turned into prints back the same). *)
Record SemVer : Type := mkSemVer {
  major : N;
  minor : N;
  patch : N;
  prerelease : list string
}.

(** The version string after the optional [v] and before the build part:
    [MAJOR.MINOR.PATCH] and the optional [-PRERELEASE]. *)
Definition parse_body (body : string) : option SemVer :=
  let (main, pre) := break_at "-" body in
  match split "." main with
  | [a; b; c] =>
      if (is_numeric_id a && is_numeric_id b && is_numeric_id c)%bool then
        let ma := to_number a in
        let mi := to_number b in
        let pa := to_number c in
        if (N.leb ma MAX_SAFE_INTEGER && N.leb mi MAX_SAFE_INTEGER
            && N.leb pa MAX_SAFE_INTEGER)%bool then
          match pre with
          | None => Some (mkSemVer ma mi pa [])
          | Some p =>
              let ids := split "." p in
              if forallb is_prerelease_id ids
              then Some (mkSemVer ma mi pa ids) else None
          end
        else None
      else None
  | _ => None
  end.

Definition build_ok (build : option string) : bool :=
  match build with
  | None => true
  | Some b => forallb is_build_id (split "." b)
  end.

Definition drop_v (s : string) : string :=
  match s with
  | String "v" r => r
  | _ => s
  end.

(** [new SemVer(version)]: [None] where the constructor throws. *)
Definition SemVer_new (version : string) : option SemVer :=
  if Nat.ltb MAX_LENGTH (String.length version) then None
  else
    let (body, build) := break_at "+" (drop_v (trim version)) in
    if build_ok build then parse_body body else None.

(** [SemVer.prototype.format]: the [version] field. *)
Definition format (v : SemVer) : string :=
  of_number (major v) ++ "." ++ of_number (minor v) ++ "." ++ of_number (patch v)
  ++ match prerelease v with
     | [] => ""
     | ids => "-" ++ String.concat "." ids
     end.

(** [semver.clean(version)]: [None] for [null]. *)
Definition clean (version : string) : option string :=
  match SemVer_new (strip_eq_v (trim version)) with
  | Some s => Some (format s)
  | None => None
  end.

(** The double nearest to the integer [n], as an integer: [n] itself when
    it has at most 53 binary digits; otherwise its 53 leading binary digits,
    rounded to nearest with a tie going to the even one, followed by
    zeros. *)
Definition to_double (n : N) : N :=
  let size := N.size n in
  if (size <=? 53)%N then n
  else
    let e := (size - 53)%N in
    let q := N.shiftr n e in
    let r := N.land n (N.ones e) in
    let half := N.shiftl 1 (e - 1) in
    let q' := if (r <? half)%N then q
              else if (half <? r)%N then N.succ q
              else if N.even q then q else N.succ q in
    N.shiftl q' e.

(** [compareIdentifiers] on two numbers. *)
Definition compareNumbers (a b : N) : Z :=
  if N.eqb a b then 0 else if N.ltb a b then -1 else 1.

(** [compareIdentifiers] on two pre-release identifiers: two numeric ones
    are converted with [+a] and [+b] and compared as numbers. *)
Definition compareIdentifiers (a b : string) : Z :=
  let anum := is_numeric a in
  let bnum := is_numeric b in
  if (anum && bnum)%bool
  then compareNumbers (to_double (to_number a)) (to_double (to_number b))
  else if (a =? b)%string then 0
  else if (anum && negb bnum)%bool then -1
  else if (bnum && negb anum)%bool then 1
  else if String.ltb a b then -1
  else 1.

(** JavaScript's [x || y] on numbers. *)
Definition or_else (x y : Z) : Z := if Z.eqb x 0 then y else x.

Definition compareMain (a b : SemVer) : Z :=
  or_else (compareNumbers (major a) (major b))
    (or_else (compareNumbers (minor a) (minor b))
             (compareNumbers (patch a) (patch b))).

(** The [do ... while (++i)] loop of [comparePre]. *)
Fixpoint comparePre_loop (a b : list string) : Z :=
  match a, b with
  | [], [] => 0
  | _ :: _, [] => 1
  | [], _ :: _ => -1
  | x :: a', y :: b' =>
      if (x =? y)%string then comparePre_loop a' b' else compareIdentifiers x y
  end.

Definition comparePre (a b : SemVer) : Z :=
  match prerelease a, prerelease b with
  | _ :: _, [] => -1
  | [], _ :: _ => 1
  | [], [] => 0
  | pa, pb => comparePre_loop pa pb
  end.

(** [SemVer.prototype.compare] *)
Definition SemVer_compare (a b : SemVer) : Z :=
  if (format a =? format b)%string then 0
  else or_else (compareMain a b) (comparePre a b).

(** [semver.compare(a, b)]: [None] where a constructor throws. *)
Definition compare (a b : string) : option Z :=
  match SemVer_new a, SemVer_new b with
  | Some x, Some y => Some (SemVer_compare x y)
  | _, _ => None
  end.

End Semver.

(* ================================================================== *)
(** * Results, errors and the data model *)

(** Which outside service threw. *)
Inductive Service : Type :=
| SvcInput | SvcToolCache | SvcRegistry | SvcDownload | SvcExtract
| SvcFileSystem | SvcExec.

(** The failures of a run.  The source throws [Error] objects told apart by
    their message; the constructors carry what the message interpolates.
    [External] is an exception thrown by an outside call. *)
Inductive Error : Type :=
| InvalidVersion (version : string)
| NotAnExactVersion (inputVersion : string)
| UnsupportedPlatform (platform : string)
| UnsupportedExtension (extension : string)
| NoMatchingRelease
| AssetNotFound (assetName : string)
| NoExecutableFound
| VerificationFailed (version stdout : string)
| SemverTypeError
| External (svc : Service) (message : string).

Definition message (e : Error) : string :=
  match e with
  | InvalidVersion v => "Invalid version: " ++ v
  | NotAnExactVersion i => "'" ++ i ++ "' is not a valid semver version!"
  | UnsupportedPlatform p => "Unsupported platform: " ++ p
  | UnsupportedExtension x => "Unsupported extension: " ++ x
  | NoMatchingRelease => "Could not find a valid release!"
  | AssetNotFound a => "Could not find a release asset for '" ++ a ++ "'"
  | NoExecutableFound =>
      "Could not find a suitable binary folder in the extracted asset!"
  | VerificationFailed v out =>
      "gh version " ++ v ++ " not found in output: " ++ out
  | SemverTypeError => "Invalid Version"
  | External _ m => m
  end.

Inductive result (A : Type) : Type :=
| OK (a : A)
| Err (e : Error).
Arguments OK {A} a.
Arguments Err {A} e.

Definition rbind {A B : Type} (r : result A) (k : A -> result B) : result B :=
  match r with
  | OK a => k a
  | Err e => Err e
  end.

Record ICleanedVersion : Type := mkCleaned { versionString : string }.

Record IReleaseAsset : Type := mkAsset {
  asset_name : string;
  asset_url : string;
  browser_download_url : string
}.

Record IRelease : Type := mkRelease {
  release_version : ICleanedVersion;
  release_assets : list IReleaseAsset
}.

Record IInstalledVersion : Type := mkInstalled {
  installed_version : ICleanedVersion;
  installed_path : string
}.

(** What the registry answers for one release: [data.tag_name] and
    [data.assets]. *)
Record ReleaseData : Type := mkData {
  tag_name : string;
  data_assets : list IReleaseAsset
}.

(** [osPlat]: the three values the start-up switch can produce. *)
Inductive OsPlat : Type := linux | macOS | windows.

Definition OsPlat_eqb (a b : OsPlat) : bool :=
  match a, b with
  | linux, linux | macOS, macOS | windows, windows => true
  | _, _ => false
  end.

Definition OsPlat_string (p : OsPlat) : string :=
  match p with
  | linux => "linux"
  | macOS => "macOS"
  | windows => "windows"
  end.

Definition osPlat_of (platform : string) : result OsPlat :=
  if (platform =? "linux")%string then OK linux
  else if (platform =? "darwin")%string then OK macOS
  else if (platform =? "win32")%string then OK windows
  else Err (UnsupportedPlatform platform).

Definition osArch_of (arch : string) : string :=
  if (arch =? "x64")%string then "amd64" else arch.

Definition toolName : string := "gh-cli".

Definition execName_of (p : OsPlat) : string :=
  if OsPlat_eqb p windows then "gh.exe" else "gh".

(* ================================================================== *)
(** * Pure parts of the latest revision *)

Definition cleanedVersion (version : string) : result ICleanedVersion :=
  match Semver.clean version with
  | None => Err (InvalidVersion version)
  | Some semverVersion => OK (mkCleaned semverVersion)
  end.

Definition assetExtension (osPlat : OsPlat) (version : ICleanedVersion)
  : result string :=
  if OsPlat_eqb osPlat windows then OK "zip"
  else if negb (OsPlat_eqb osPlat macOS) then OK "tar.gz"
  else match Semver.compare (versionString version) "2.28.0" with
       | Some c => OK (if Z.eqb c (-1) then "tar.gz" else "zip")
       | None => Err SemverTypeError
       end.

(** [class RequestedVersion] *)
Record RequestedVersion : Type := mkRequested {
  inputVersion : string;
  semverVersion : option ICleanedVersion
}.

Definition static_isStable (version : string) : bool := (version =? "stable")%string.
Definition static_isLatest (version : string) : bool := (version =? "latest")%string.

(** The constructor. *)
Definition new_RequestedVersion (input : string) : result RequestedVersion :=
  if (static_isStable input || static_isLatest input)%bool
  then OK (mkRequested input None)
  else rbind (cleanedVersion input)
             (fun v => OK (mkRequested input (Some v))).

Definition isStable (r : RequestedVersion) : bool := static_isStable (inputVersion r).
Definition isLatest (r : RequestedVersion) : bool := static_isLatest (inputVersion r).

(** The getter [cleanedVersion] of the class. *)
Definition get_cleanedVersion (r : RequestedVersion) : result ICleanedVersion :=
  if (isStable r || isLatest r)%bool
  then Err (NotAnExactVersion (inputVersion r))
  else match semverVersion r with
       | None => Err (NotAnExactVersion (inputVersion r))
       | Some v => OK v
       end.

Definition tagName (r : RequestedVersion) : result string :=
  rbind (get_cleanedVersion r) (fun v => OK ("v" ++ versionString v)).

(** [Array.prototype.sort] with a comparator that may throw: a stable sort
    (insertion from the right), failing as soon as a comparison fails.  The
    language fixes the outcome of a sort only for a comparator that is
    consistent on the elements, where every stable sort gives the same
    list; for any other comparator the order is left to the engine, and the
    insertion below is one of the orders it may give. *)
Section Sort.
Context {A : Type} (cmp : A -> A -> result Z).

Fixpoint insert_by (x : A) (l : list A) : result (list A) :=
  match l with
  | [] => OK [x]
  | y :: l' =>
      rbind (cmp x y) (fun c =>
        if c <=? 0 then OK (x :: l)
        else rbind (insert_by x l') (fun r => OK (y :: r)))
  end.

Fixpoint sort_by (l : list A) : result (list A) :=
  match l with
  | [] => OK []
  | x :: l' => rbind (sort_by l') (insert_by x)
  end.
End Sort.

(** The comparator of the Latest branch:
    [(l, r) => semver_compare(r.version.versionString, l.version.versionString)] *)
Definition newest_first (l r : IRelease) : result Z :=
  match Semver.compare (versionString (release_version r))
                       (versionString (release_version l)) with
  | Some c => OK c
  | None => Err SemverTypeError
  end.

(** The [forEach] with its [try]/[catch]: a release whose tag does not clean
    is skipped. *)
Fixpoint valid_releases (data : list ReleaseData) : list IRelease :=
  match data with
  | [] => []
  | r :: rest =>
      match cleanedVersion (tag_name r) with
      | OK v => mkRelease v (data_assets r) :: valid_releases rest
      | Err _ => valid_releases rest
      end
  end.

(** The Latest branch of [findMatchingRelease], after the registry answered. *)
Definition pick_latest (data : list ReleaseData) : result IRelease :=
  match valid_releases data with
  | [] => Err NoMatchingRelease
  | r0 :: rest =>
      rbind (sort_by newest_first (r0 :: rest)) (fun sorted => OK (hd r0 sorted))
  end.

(** The Stable and Exact branches build the release the same way. *)
Definition release_of_data (d : ReleaseData) : result IRelease :=
  rbind (cleanedVersion (tag_name d))
        (fun v => OK (mkRelease v (data_assets d))).

(** The asset name built by [main]. *)
Definition assetName_of (osPlat : OsPlat) (osArch : string) (release : IRelease)
  : result string :=
  rbind (assetExtension osPlat (release_version release)) (fun ext =>
    OK ("gh_" ++ versionString (release_version release) ++ "_"
        ++ OsPlat_string osPlat ++ "_" ++ osArch ++ "." ++ ext)).

(** [release.assets.find(a => a.name === assetName)] and the check after it. *)
Definition find_asset (assetName : string) (assets : list IReleaseAsset)
  : result IReleaseAsset :=
  match List.find (fun a => (asset_name a =? assetName)%string) assets with
  | Some a => OK a
  | None => Err (AssetNotFound assetName)
  end.

(** [contents.includes(name)] *)
Definition includes (contents : list string) (name : string) : bool :=
  existsb (fun x => (x =? name)%string) contents.

(** [s.indexOf(pat)]: the first position where [pat] occurs, [-1] if none. *)
Fixpoint indexOf_from (i : Z) (s pat : string) : Z :=
  if String.prefix pat s then i
  else match s with
       | EmptyString => -1
       | String _ r => indexOf_from (i + 1) r pat
       end.

Definition indexOf (s pat : string) : Z := indexOf_from 0 s pat.

(* ================================================================== *)
(** * The outside world: events, oracle and the monad of the action *)

(** What an outside call does: it returns or it throws. *)
Inductive answer (A : Type) : Type :=
| Returned (a : A)
| Thrown (message : string).
Arguments Returned {A} a.
Arguments Thrown {A} message.

(** One call that leaves the process, with its answer where it has one.
    [EvCacheDir] carries the four arguments of [tools.cacheDir] in the order
    the action passes them. *)
Inductive Event : Type :=
| EvStartGroup (name : string)
| EvEndGroup
| EvInfo (msg : string)
| EvDebug (msg : string)
| EvGetInput (name : string) (value : answer string)
| EvFind (tool version : string) (found : answer string)
| EvGetLatestRelease (data : answer ReleaseData)
| EvListReleases (per_page : nat) (data : answer (list ReleaseData))
| EvGetReleaseByTag (tag : string) (data : answer ReleaseData)
| EvDownloadTool (url : string) (file : answer string)
| EvExtractZip (file : string) (dir : answer string)
| EvExtractTar (file : string) (dir : answer string)
| EvReaddir (dir : string) (contents : answer (list string))
| EvCacheDir (sourceDir second third fourth : string) (dir : answer string)
| EvAddPath (dir : string)
| EvExec (command : string) (args : list string) (stdout : answer string)
| EvSetOutput (name value : string)
| EvSetFailed (msg : string).

Definition Trace : Type := list Event.

(** The answers of the outside world.  Each is a function of the calls made
    before it, so that the same call may be answered differently the second
    time.  [tools_find] answers the empty string for a miss. *)
Record Oracle : Type := mkOracle {
  os_platform : string;
  os_arch : string;
  core_getInput : Trace -> string -> bool -> answer string;
  core_isDebug : Trace -> bool;
  tools_find : Trace -> string -> string -> answer string;
  tools_downloadTool : Trace -> string -> answer string;
  tools_extractZip : Trace -> string -> answer string;
  tools_extractTar : Trace -> string -> answer string;
  tools_cacheDir : Trace -> string -> string -> string -> string -> answer string;
  fs_readdirSync : Trace -> string -> answer (list string);
  path_join : string -> string -> string;
  path_basename : string -> string -> string;
  octokit_getLatestRelease : Trace -> option string -> answer ReleaseData;
  octokit_listReleases : Trace -> option string -> nat -> answer (list ReleaseData);
  octokit_getReleaseByTag : Trace -> option string -> string -> answer ReleaseData;
  getExecOutput : Trace -> string -> list string -> answer string
}.

(** A computation reads the history of the run and gives a result together
    with the events it added. *)
Definition M (A : Type) : Type := Trace -> result A * Trace.

Definition ret {A : Type} (a : A) : M A := fun _ => (OK a, []).

Definition throw {A : Type} (e : Error) : M A := fun _ => (Err e, []).

Definition bind {A B : Type} (m : M A) (k : A -> M B) : M B :=
  fun h =>
    match m h with
    | (OK a, t1) => let (r, t2) := k a (h ++ t1)%list in (r, (t1 ++ t2)%list)
    | (Err e, t1) => (Err e, t1)
    end.

Notation "x <- m ;; k" := (bind m (fun x => k))
  (at level 61, m at next level, right associativity).
Notation "m ;;; k" := (bind m (fun _ => k))
  (at level 61, right associativity).

Definition lift {A : Type} (r : result A) : M A := fun _ => (r, []).

Definition emit (e : Event) : M unit := fun _ => (OK tt, [e]).

(** An outside call: the oracle answers from the history before the call,
    and the call is recorded with its answer. *)
Definition call {A : Type} (svc : Service) (e : answer A -> Event)
  (f : Trace -> answer A) : M A :=
  fun h =>
    match f h with
    | Returned a => (OK a, [e (Returned a)])
    | Thrown msg => (Err (External svc msg), [e (Thrown msg)])
    end.

(** [core.group(name, fn)]: the group is closed whether [fn] returns or
    throws. *)
Definition group {A : Type} (name : string) (fn : M A) : M A :=
  fun h =>
    let (r, t) := fn (h ++ [EvStartGroup name])%list in
    (r, EvStartGroup name :: (t ++ [EvEndGroup])%list).

Definition newline : string := String (ascii_of_nat 10) EmptyString.

(* ================================================================== *)
(** * The latest revision *)

Section Action.
Variable O : Oracle.
Variable osPlat : OsPlat.

Definition osArch : string := osArch_of (os_arch O).
Definition execName : string := execName_of osPlat.

Definition setAndCheckOutput (installedVersion : IInstalledVersion) : M unit :=
  group "Checking installation" (
    let v := versionString (installed_version installedVersion) in
    (fun h =>
       if core_isDebug O h then
         (emit (EvDebug ("Installed version: " ++ v)) ;;;
          emit (EvDebug ("Installed path: " ++ installed_path installedVersion)) ;;;
          emit (EvDebug "Contents of path:") ;;;
          contents <- call SvcFileSystem
                        (EvReaddir (installed_path installedVersion))
                        (fun h => fs_readdirSync O h (installed_path installedVersion)) ;;
          emit (EvDebug (String.concat newline contents))) h
       else ret tt h) ;;;
    emit (EvAddPath (path_join O (installed_path installedVersion) "bin")) ;;;
    stdout <- call SvcExec (EvExec execName ["version"])
                (fun h => getExecOutput O h execName ["version"]) ;;
    if indexOf stdout v <? 0 then throw (VerificationFailed v stdout)
    else emit (EvSetOutput "installed-version" v)).

Definition findMatchingRelease (version : RequestedVersion) (token : option string)
  : M IRelease :=
  if isStable version then
    latestRelease <- call SvcRegistry EvGetLatestRelease
                       (fun h => octokit_getLatestRelease O h token) ;;
    lift (release_of_data latestRelease)
  else if isLatest version then
    releasesResp <- call SvcRegistry (EvListReleases 100)
                      (fun h => octokit_listReleases O h token 100) ;;
    lift (pick_latest releasesResp)
  else
    tag <- lift (tagName version) ;;
    release <- call SvcRegistry (EvGetReleaseByTag tag)
                 (fun h => octokit_getReleaseByTag O h token tag) ;;
    lift (release_of_data release).

(** The directory step of [install]: from the extraction root to the
    directory that holds [bin]. *)
Definition locate_bin (extractedPath assetNameWithoutExtension : string)
  : M string :=
  contents <- call SvcFileSystem (EvReaddir extractedPath)
                (fun h => fs_readdirSync O h extractedPath) ;;
  r <- (if (negb (includes contents "bin")
            && includes contents assetNameWithoutExtension)%bool
        then
          let nested := path_join O extractedPath assetNameWithoutExtension in
          contents' <- call SvcFileSystem (EvReaddir nested)
                         (fun h => fs_readdirSync O h nested) ;;
          ret (nested, contents')
        else ret (extractedPath, contents)) ;;
  let (extractedPath', contents') := r in
  if negb (includes contents' "bin") then
    emit (EvDebug ("Contents:" ++ newline ++ String.concat newline contents')) ;;;
    throw NoExecutableFound
  else ret extractedPath'.

Definition install (asset : IReleaseAsset) (version : ICleanedVersion)
  : M IInstalledVersion :=
  downloadedPath <- call SvcDownload (EvDownloadTool (browser_download_url asset))
                      (fun h => tools_downloadTool O h (browser_download_url asset)) ;;
  extension <- lift (assetExtension osPlat version) ;;
  extractedPath <-
    (if (extension =? "zip")%string then
       call SvcExtract (EvExtractZip downloadedPath)
            (fun h => tools_extractZip O h downloadedPath)
     else if (extension =? "tar.gz")%string then
       call SvcExtract (EvExtractTar downloadedPath)
            (fun h => tools_extractTar O h downloadedPath)
     else throw (UnsupportedExtension extension)) ;;
  let assetNameWithoutExtension :=
    path_basename O (asset_name asset) ("." ++ extension) in
  binRoot <- locate_bin extractedPath assetNameWithoutExtension ;;
  cachedPath <- call SvcToolCache
                  (EvCacheDir binRoot execName toolName (versionString version))
                  (fun h => tools_cacheDir O h binRoot execName toolName
                              (versionString version)) ;;
  ret (mkInstalled version cachedPath).

Definition checkCache (version : ICleanedVersion) : M (option IInstalledVersion) :=
  cachedVersion <- call SvcToolCache (EvFind toolName (versionString version))
                     (fun h => tools_find O h toolName (versionString version)) ;;
  if (cachedVersion =? "")%string then ret None
  else
    emit (EvInfo "Found cached version.") ;;;
    ret (Some (mkInstalled version cachedVersion)).

(** The first cache check of [main]. *)
Definition checking_cache (version : RequestedVersion)
  : M (option IInstalledVersion) :=
  group "Checking cache" (
    if (negb (isStable version) && negb (isLatest version))%bool then
      v <- lift (get_cleanedVersion version) ;;
      checkCache v
    else ret None).

(** The body of the group 'Installing release' of [main]. *)
Definition installing_release (release : IRelease) : M IInstalledVersion :=
  assetName <- lift (assetName_of osPlat osArch release) ;;
  asset <- lift (find_asset assetName (release_assets release)) ;;
  install asset (release_version release).

Definition main : M unit :=
  emit (EvStartGroup "Validate input") ;;;
  input <- call SvcInput (EvGetInput "version")
             (fun h => core_getInput O h "version" true) ;;
  version <- lift (new_RequestedVersion input) ;;
  tok <- call SvcInput (EvGetInput "github-token")
           (fun h => core_getInput O h "github-token" false) ;;
  let ghToken := if (tok =? "")%string then None else Some tok in
  emit EvEndGroup ;;;
  installedVersion <- checking_cache version ;;
  match installedVersion with
  | Some iv => setAndCheckOutput iv
  | None =>
      fetched <- group "Fetching release" (
                   release <- findMatchingRelease version ghToken ;;
                   cached <- checkCache (release_version release) ;;
                   ret (release, cached)) ;;
      let (release, installedVersion) := fetched in
      match installedVersion with
      | Some iv => setAndCheckOutput iv
      | None =>
          iv <- group "Installing release" (installing_release release) ;;
          setAndCheckOutput iv
      end
  end.
End Action.

(** The whole script: the platform is read when the module is loaded, where
    an unsupported one is an uncaught exception; a failure of [main] is
    reported with [core.setFailed]. *)
Definition run (O : Oracle) : result unit * Trace :=
  match osPlat_of (os_platform O) with
  | Err e => (Err e, [])
  | OK plat =>
      match main O plat [] with
      | (OK tt, t) => (OK tt, t)
      | (Err e, t) => (Err e, (t ++ [EvSetFailed (message e)])%list)
      end
  end.

(** The group 'Fetching release' of [main], by itself: the release and the
    second cache check. *)
Definition fetching_release (O : Oracle) (version : RequestedVersion)
    (ghToken : option string) : M (IRelease * option IInstalledVersion) :=
  group "Fetching release" (
    release <- findMatchingRelease O version ghToken ;;
    cached <- checkCache O (release_version release) ;;
    ret (release, cached)).

(* ================================================================== *)
(** * The earlier revision: version strings are plain strings *)

Module Earlier.

Definition cleanedVersion (version : string) : result string :=
  match Semver.clean version with
  | None => Err (InvalidVersion version)
  | Some semverVersion => OK semverVersion
  end.

Record RequestedVersion : Type := mkRequested {
  inputVersion : string;
  semverVersion : option string
}.

Definition new_RequestedVersion (input : string) : result RequestedVersion :=
  if (static_isStable input || static_isLatest input)%bool
  then OK (mkRequested input None)
  else rbind (cleanedVersion input)
             (fun v => OK (mkRequested input (Some v))).

Definition isStable (r : RequestedVersion) : bool := static_isStable (inputVersion r).
Definition isLatest (r : RequestedVersion) : bool := static_isLatest (inputVersion r).

(** [!this.semverVersion] is also true for the empty string. *)
Definition tagName (r : RequestedVersion) : result string :=
  if (isStable r || isLatest r)%bool
  then Err (NotAnExactVersion (inputVersion r))
  else match semverVersion r with
       | None => Err (NotAnExactVersion (inputVersion r))
       | Some v =>
           if (v =? "")%string then Err (NotAnExactVersion (inputVersion r))
           else OK ("v" ++ v)
       end.

Record IInstalledVersion : Type := mkInstalled {
  installed_version : string;
  installed_path : string
}.

Section Action.
Variable O : Oracle.

Definition checkCache (version : string) : M (option IInstalledVersion) :=
  semverVersion <- lift (cleanedVersion version) ;;
  cachedVersion <- call SvcToolCache (EvFind toolName semverVersion)
                     (fun h => tools_find O h toolName semverVersion) ;;
  if negb (cachedVersion =? "")%string then
    emit (EvInfo "Found cached version.") ;;;
    ret (Some (mkInstalled semverVersion cachedVersion))
  else ret None.

(** The first cache check of [main]. *)
Definition checking_cache (version : RequestedVersion)
  : M (option IInstalledVersion) :=
  group "Checking cache" (
    if (negb (isStable version) && negb (isLatest version))%bool then
      tag <- lift (tagName version) ;;
      checkCache tag
    else ret None).
End Action.


(** [assetExtension(version: string)]: the earlier revision cleans the version
    it is given before it compares. *)
Definition assetExtension (osPlat : OsPlat) (version : string) : result string :=
  if OsPlat_eqb osPlat windows then OK "zip"
  else if negb (OsPlat_eqb osPlat macOS) then OK "tar.gz"
  else rbind (cleanedVersion version) (fun v =>
         match Semver.compare v "2.28.0" with
         | Some c => OK (if Z.eqb c (-1) then "tar.gz" else "zip")
         | None => Err SemverTypeError
         end).

(** [!!semver_clean(r.tag_name)] *)
Definition has_version (r : ReleaseData) : bool :=
  match Semver.clean (tag_name r) with
  | Some x => negb (x =? "")%string
  | None => false
  end.

(** The comparator of the Latest branch:
    [(l, r) => semver_compare(semver_clean(r.tag_name)!, semver_clean(l.tag_name)!)];
    [semver_compare] throws on [null]. *)
Definition newest_first (l r : ReleaseData) : result Z :=
  match Semver.clean (tag_name r), Semver.clean (tag_name l) with
  | Some a, Some b =>
      match Semver.compare a b with
      | Some c => OK c
      | None => Err SemverTypeError
      end
  | _, _ => Err SemverTypeError
  end.

(** The Latest branch of [findMatchingRelease], after the registry answered:
    the releases are filtered and sorted as the registry gave them. *)
Definition pick_latest (data : list ReleaseData) : result ReleaseData :=
  match filter has_version data with
  | [] => Err NoMatchingRelease
  | r0 :: rest =>
      rbind (sort_by newest_first (r0 :: rest)) (fun sorted => OK (hd r0 sorted))
  end.

Section Installer.
Variable O : Oracle.
Variable osPlat : OsPlat.

(** The text that [`${assetExtension}`] interpolates in [main]: there
    [assetExtension] is the function, not a call of it, so the text is the
    source of that function as the engine prints it. *)
Variable assetExtension_text : string.

(** [token] is the input as read: the empty string stands for no token. *)
Definition findMatchingRelease (version : RequestedVersion) (token : string)
  : M ReleaseData :=
  let auth := if (token =? "")%string then None else Some token in
  if isStable version then
    call SvcRegistry EvGetLatestRelease
         (fun h => octokit_getLatestRelease O h auth)
  else if isLatest version then
    releasesResp <- call SvcRegistry (EvListReleases 100)
                      (fun h => octokit_listReleases O h auth 100) ;;
    lift (pick_latest releasesResp)
  else
    tag <- lift (tagName version) ;;
    call SvcRegistry (EvGetReleaseByTag tag)
         (fun h => octokit_getReleaseByTag O h auth tag).

(** [install]: for [tar.gz] the directory registered is the entry of the
    extraction root named like the asset, whatever the root holds. *)
Definition install (asset : IReleaseAsset) (version : string)
  : M IInstalledVersion :=
  downloadedPath <- call SvcDownload (EvDownloadTool (browser_download_url asset))
                      (fun h => tools_downloadTool O h (browser_download_url asset)) ;;
  extension <- lift (assetExtension osPlat version) ;;
  extractedPath <-
    (if (extension =? "zip")%string then
       call SvcExtract (EvExtractZip downloadedPath)
            (fun h => tools_extractZip O h downloadedPath)
     else if (extension =? "tar.gz")%string then
       root <- call SvcExtract (EvExtractTar downloadedPath)
                 (fun h => tools_extractTar O h downloadedPath) ;;
       ret (path_join O root (path_basename O (asset_name asset) ("." ++ extension)))
     else throw (UnsupportedExtension extension)) ;;
  cachedPath <- call SvcToolCache
                  (EvCacheDir extractedPath (execName_of osPlat) toolName version)
                  (fun h => tools_cacheDir O h extractedPath (execName_of osPlat)
                              toolName version) ;;
  ret (mkInstalled version cachedPath).

(** The body of the group 'Installing release' of [main]. *)
Definition installing_release (release : ReleaseData) : M IInstalledVersion :=
  version <- lift (cleanedVersion (tag_name release)) ;;
  let assetName := "gh_" ++ version ++ "_" ++ OsPlat_string osPlat ++ "_"
                   ++ osArch_of (os_arch O) ++ "." ++ assetExtension_text in
  asset <- lift (find_asset assetName (data_assets release)) ;;
  install asset version.

(** The group 'Fetching release' of [main]: the release and the second cache
    check. *)
Definition fetching_release (version : RequestedVersion) (ghToken : string)
  : M (ReleaseData * option IInstalledVersion) :=
  group "Fetching release" (
    release <- findMatchingRelease version ghToken ;;
    cached <- checkCache O (tag_name release) ;;
    ret (release, cached)).

Definition setAndCheckOutput (installedVersion : IInstalledVersion) : M unit :=
  group "Checking installation" (
    let v := installed_version installedVersion in
    (fun h =>
       if core_isDebug O h then
         (emit (EvDebug ("Installed version: " ++ v)) ;;;
          emit (EvDebug ("Installed path: " ++ installed_path installedVersion)) ;;;
          emit (EvDebug "Contents of path:") ;;;
          contents <- call SvcFileSystem
                        (EvReaddir (installed_path installedVersion))
                        (fun h => fs_readdirSync O h (installed_path installedVersion)) ;;
          emit (EvDebug (String.concat newline contents))) h
       else ret tt h) ;;;
    emit (EvAddPath (path_join O (installed_path installedVersion) "bin")) ;;;
    stdout <- call SvcExec (EvExec (execName_of osPlat) ["version"])
                (fun h => getExecOutput O h (execName_of osPlat) ["version"]) ;;
    if indexOf stdout v <? 0 then throw (VerificationFailed v stdout)
    else emit (EvSetOutput "installed-version" v)).

Definition main : M unit :=
  emit (EvStartGroup "Validate input") ;;;
  input <- call SvcInput (EvGetInput "version")
             (fun h => core_getInput O h "version" true) ;;
  version <- lift (new_RequestedVersion input) ;;
  ghToken <- call SvcInput (EvGetInput "github-token")
               (fun h => core_getInput O h "github-token" false) ;;
  emit EvEndGroup ;;;
  installedVersion <- checking_cache O version ;;
  match installedVersion with
  | Some iv => setAndCheckOutput iv
  | None =>
      fetched <- fetching_release version ghToken ;;
      let (release, installedVersion) := fetched in
      match installedVersion with
      | Some iv => setAndCheckOutput iv
      | None =>
          iv <- group "Installing release" (installing_release release) ;;
          setAndCheckOutput iv
      end
  end.
End Installer.

End Earlier.

(* ================================================================== *)
(** * The first revision ([src/main.ts]): one extension per platform *)

Module First.

(** [const assetExtension = osPlat === 'windows' ? 'zip' : 'tar.gz'] *)
Definition assetExtension (osPlat : OsPlat) : string :=
  if OsPlat_eqb osPlat windows then "zip" else "tar.gz".

End First.

(* ================================================================== *)
(** * Vocabulary of the proofs about versions *)

Module SemverOrder.
Import Semver.

(** A string without white space is its own trim. *)
Definition no_space (s : string) : bool := all_chars (fun c => negb (is_space c)) s.

Definition pre_suffix (ids : list string) : string :=
  match ids with
  | [] => ""
  | _ => "-" ++ String.concat "." ids
  end.

Definition is_body_char (c : ascii) : bool := (is_idchar c || Ascii.eqb c ".")%bool.

(** A three-valued comparison that behaves like the comparison of a strict
    total order on the elements satisfying [P]. *)
Record order_like {A : Type} (P : A -> Prop) (c : A -> A -> Z) : Prop := {
  ol_range : forall x y, c x y = -1 \/ c x y = 0 \/ c x y = 1;
  ol_eq : forall x y, P x -> P y -> (c x y = 0 <-> x = y);
  ol_anti : forall x y, P x -> P y -> c y x = - c x y;
  ol_trans : forall x y z, P x -> P y -> P z ->
             c x y = -1 -> c y z = -1 -> c x z = -1
}.

(** Lexicographic combination. *)
Definition lex {B C : Type} (c1 : B -> B -> Z) (c2 : C -> C -> Z) (x y : B * C) : Z :=
  or_else (c1 (fst x) (fst y)) (c2 (snd x) (snd y)).

Definition valid_id (a : string) : Prop := is_prerelease_id a = true.

Definition valid_ids (l : list string) : Prop := Forall valid_id l.

(** An identifier that [compareIdentifiers] reads exactly: not numeric, or a
    number that a double holds as it is. *)
Definition safe_id (a : string) : bool :=
  (negb (is_numeric a) || N.leb (to_number a) MAX_SAFE_INTEGER)%bool.

Definition exact_id (a : string) : Prop := valid_id a /\ safe_id a = true.

Definition exact_ids (l : list string) : Prop := Forall exact_id l.

(** [comparePre] on the two lists of identifiers. *)
Definition comparePre_ids (pa pb : list string) : Z :=
  match pa, pb with
  | _ :: _, [] => -1
  | [], _ :: _ => 1
  | [], [] => 0
  | _, _ => comparePre_loop pa pb
  end.

(** The key of a version: its four components in order of precedence. *)
Definition key (v : SemVer) : N * (N * (N * list string)) :=
  (major v, (minor v, (patch v, prerelease v))).

Definition key_compare : N * (N * (N * list string)) -> N * (N * (N * list string)) -> Z :=
  lex compareNumbers (lex compareNumbers (lex compareNumbers comparePre_ids)).

(** A version that came out of the parser. *)
Definition parsed (v : SemVer) : Prop := exists x, parse_body x = Some v.

Definition exact_key (k : N * (N * (N * list string))) : Prop :=
  True /\ True /\ True /\ exact_ids (snd (snd (snd k))).

(** A parsed version whose numeric pre-release identifiers are all at most
    [MAX_SAFE_INTEGER]. *)
Definition safe_pre (v : SemVer) : bool := forallb safe_id (prerelease v).

Definition exact_version (v : SemVer) : Prop := parsed v /\ safe_pre v = true.

(** The version [2.28.0] and what comes before it, component by component. *)
Definition v2_28_0 : SemVer := mkSemVer 2 28 0 [].

Definition before_2_28_0 (v : SemVer) : bool :=
  (N.ltb (major v) 2
   || (N.eqb (major v) 2 && N.ltb (minor v) 28)
   || (N.eqb (major v) 2 && N.eqb (minor v) 28 && N.eqb (patch v) 0
       && negb (match prerelease v with [] => true | _ => false end)))%bool.

(** Semantic-version precedence in words: major, then minor, then patch; with
    these equal, a version with pre-release identifiers comes before the one
    without, and two lists of identifiers are compared from the left. *)
Definition pre_precedes (pa pb : list string) : Prop :=
  match pa, pb with
  | _ :: _, [] => True
  | _ :: _, _ :: _ => comparePre_loop pa pb = -1
  | [], _ => False
  end.

Definition precedes (a b : SemVer) : Prop :=
  (major a < major b)%N \/
  (major a = major b /\
   ((minor a < minor b)%N \/
    (minor a = minor b /\
     ((patch a < patch b)%N \/
      (patch a = patch b /\ pre_precedes (prerelease a) (prerelease b)))))).

(** ** Precedence as the standard states it

    Semantic Versioning 2.0.0, item 11, in its own terms and with exact
    numbers, none of it taken from the package: major, minor and patch are
    compared as numbers, in this order; with these equal, a version with a
    pre-release part comes before the one without; two pre-release parts
    are compared identifier by identifier from the left until two differ:
    identifiers of digits only are compared as numbers, the others in the
    order of their characters, an identifier of digits only comes before
    any other, and when all the identifiers of the shorter part are equal
    to those of the longer one the shorter part comes first. *)
Definition digits_only (a : string) : bool :=
  match a with
  | EmptyString => false
  | _ => all_chars is_digit a
  end.

Definition identifier_before (a b : string) : bool :=
  match digits_only a, digits_only b with
  | true, true => N.ltb (to_number a) (to_number b)
  | true, false => true
  | false, true => false
  | false, false => String.ltb a b
  end.

Fixpoint identifiers_before (a b : list string) : bool :=
  match a, b with
  | _, [] => false
  | [], _ :: _ => true
  | x :: a', y :: b' =>
      if (x =? y)%string then identifiers_before a' b' else identifier_before x y
  end.

Definition prerelease_before (a b : list string) : bool :=
  match a, b with
  | [], _ => false
  | _ :: _, [] => true
  | _ :: _, _ :: _ => identifiers_before a b
  end.

Definition semver_before (a b : SemVer) : bool :=
  (N.ltb (major a) (major b)
   || (N.eqb (major a) (major b)
       && (N.ltb (minor a) (minor b)
           || (N.eqb (minor a) (minor b)
               && (N.ltb (patch a) (patch b)
                   || (N.eqb (patch a) (patch b)
                       && prerelease_before (prerelease a) (prerelease b)))))))%bool.

End SemverOrder.

(** A version string that [cleanedVersion] produced. *)
Definition cleaned (v : ICleanedVersion) : Prop :=
  exists s, cleanedVersion s = OK v.

(** A cleaned version whose numeric pre-release identifiers are all at most
    [MAX_SAFE_INTEGER], so that the package compares them exactly. *)
Definition safe (v : ICleanedVersion) : Prop :=
  match Semver.SemVer_new (versionString v) with
  | Some p => SemverOrder.safe_pre p = true
  | None => False
  end.

(** [a] is not newer than [b]: [semver.compare] answers, and not with [1]. *)
Definition version_le (a b : ICleanedVersion) : Prop :=
  exists c, Semver.compare (versionString a) (versionString b) = Some c /\ c <= 0.

(** [x] goes before [y] under the comparator [cmp]: the comparison answers,
    and not with a positive number. *)
Definition goes_before {A : Type} (cmp : A -> A -> result Z) (x y : A) : Prop :=
  exists c, cmp x y = OK c /\ c <= 0.

(** A list whose head goes before all its elements. *)
Definition head_first {A : Type} (cmp : A -> A -> result Z) (l : list A) : Prop :=
  match l with
  | [] => True
  | h :: _ => forall y, In y l -> goes_before cmp h y
  end.

(** [a] is a substring of [b]. *)
Definition substring_of (a b : string) : Prop :=
  exists pre post, b = pre ++ a ++ post.

(* ================================================================== *)
(** * Reading a trace *)

Definition is_registry (e : Event) : bool :=
  match e with
  | EvGetLatestRelease _ | EvListReleases _ _ | EvGetReleaseByTag _ _ => true
  | _ => false
  end.

Definition is_install (e : Event) : bool :=
  match e with
  | EvDownloadTool _ _ | EvExtractZip _ _ | EvExtractTar _ _
  | EvCacheDir _ _ _ _ _ => true
  | _ => false
  end.

(** Registry, download, extraction and cache registration. *)
Definition is_work (e : Event) : bool := (is_registry e || is_install e)%bool.

Definition is_find (e : Event) : bool :=
  match e with
  | EvFind _ _ _ => true
  | _ => false
  end.

(** A cache check that found an installation. *)
Definition is_hit (e : Event) : bool :=
  match e with
  | EvFind _ _ (Returned p) => negb (p =? "")%string
  | _ => false
  end.

Definition is_publish (e : Event) : bool :=
  match e with
  | EvSetOutput _ _ => true
  | _ => false
  end.

(** The events before the first one that satisfies [p]. *)
Fixpoint before (p : Event -> bool) (t : Trace) : Trace :=
  match t with
  | [] => []
  | e :: r => if p e then [] else e :: before p r
  end.

Definition none (p : Event -> bool) (t : Trace) : bool :=
  forallb (fun e => negb (p e)) t.

(** No work is done after a cache hit. *)
Fixpoint quiet_after_hit (t : Trace) : bool :=
  match t with
  | [] => true
  | e :: r => ((if is_hit e then none is_work r else true) && quiet_after_hit r)%bool
  end.

(** The value of the input [version], when it was read. *)
Fixpoint version_input (t : Trace) : option string :=
  match t with
  | [] => None
  | EvGetInput "version" (Returned s) :: _ => Some s
  | _ :: r => version_input r
  end.

Definition is_exec (e : Event) : bool :=
  match e with
  | EvExec _ _ _ => true
  | _ => false
  end.

Definition is_readdir (e : Event) : bool :=
  match e with
  | EvReaddir _ _ => true
  | _ => false
  end.

Definition is_extract (e : Event) : bool :=
  match e with
  | EvExtractZip _ _ | EvExtractTar _ _ => true
  | _ => false
  end.

Definition is_failed (e : Event) : bool :=
  match e with
  | EvSetFailed _ => true
  | _ => false
  end.

Definition is_download (e : Event) : bool :=
  match e with
  | EvDownloadTool _ _ => true
  | _ => false
  end.

Definition is_cacheDir (e : Event) : bool :=
  match e with
  | EvCacheDir _ _ _ _ _ => true
  | _ => false
  end.

Definition is_addPath (e : Event) : bool :=
  match e with
  | EvAddPath _ => true
  | _ => false
  end.

(** How many events of a trace satisfy [p]. *)
Definition count (p : Event -> bool) (t : Trace) : nat := length (filter p t).

(** The groups opened less the groups closed. *)
Fixpoint open_groups (t : Trace) : Z :=
  match t with
  | [] => 0
  | EvStartGroup _ :: r => 1 + open_groups r
  | EvEndGroup :: r => open_groups r - 1
  | _ :: r => open_groups r
  end.

Definition is_group (e : Event) : bool :=
  match e with
  | EvStartGroup _ | EvEndGroup => true
  | _ => false
  end.

Definition is_debug (e : Event) : bool :=
  match e with
  | EvDebug _ => true
  | _ => false
  end.

(** No run of [m] adds more than [n] events that satisfy [p]. *)
Definition at_most {A : Type} (p : Event -> bool) (n : nat) (m : M A) : Prop :=
  forall h, (count p (snd (m h)) <= n)%nat.

(** What a computation can end with: a value in [Q] or an error in [E]. *)
Definition ends {A : Type} (Q : A -> Prop) (E : Error -> Prop) (m : M A) : Prop :=
  forall h, match fst (m h) with OK a => Q a | Err e => E e end.

(** The failures the action is written to report. *)
Definition expected_failure (e : Error) : bool :=
  match e with
  | InvalidVersion _ | NoMatchingRelease | AssetNotFound _
  | NoExecutableFound | VerificationFailed _ _ | External _ _ => true
  | _ => false
  end.

Definition expected (e : Error) : Prop := expected_failure e = true.

(** A requested version as the constructor builds it. *)
Definition constructed (r : RequestedVersion) : Prop :=
  (isStable r || isLatest r)%bool = true \/ exists v, semverVersion r = Some v.

(** The registry request that belongs to the input [s]. *)
Definition request_of (s : string) (e : Event) : Prop :=
  match e with
  | EvGetLatestRelease _ => s = "stable"
  | EvListReleases per_page _ => s = "latest" /\ per_page = 100%nat
  | EvGetReleaseByTag tag _ =>
      s <> "stable" /\ s <> "latest" /\
      exists x, Semver.clean s = Some x /\ tag = "v" ++ x
  | _ => False
  end.

(** The registry answer [e] resolves to the version [x]: the cleaned tag of
    the release returned, or for a list the version of one of its valid
    releases, which none of them is newer than where the package compares
    their versions exactly. *)
Definition resolves (e : Event) (x : string) : Prop :=
  match e with
  | EvGetLatestRelease (Returned d) | EvGetReleaseByTag _ (Returned d) =>
      Semver.clean (tag_name d) = Some x
  | EvListReleases _ (Returned data) =>
      exists r, In r (valid_releases data) /\
                versionString (release_version r) = x /\
                (Forall (fun r' => safe (release_version r')) (valid_releases data) ->
                 forall r', In r' (valid_releases data) ->
                            version_le (release_version r') (release_version r))
  | _ => False
  end.

(** The keys the tool cache was asked for, in order. *)
Fixpoint cache_keys (t : Trace) : list (string * string) :=
  match t with
  | [] => []
  | EvFind tool version _ :: r => (tool, version) :: cache_keys r
  | _ :: r => cache_keys r
  end.

(** An installation of the latest revision, read as one of the earlier
    revision: the version is its string. *)
Definition forget (iv : IInstalledVersion) : Earlier.IInstalledVersion :=
  Earlier.mkInstalled (versionString (installed_version iv)) (installed_path iv).

Definition forget_result (r : result (option IInstalledVersion))
  : result (option Earlier.IInstalledVersion) :=
  match r with
  | OK o => OK (option_map forget o)
  | Err e => Err e
  end.

(** The release of the latest revision that a registry entry stands for in
    the earlier one: its tag cleaned, the empty string where it does not
    clean. *)
Definition upgrade (d : ReleaseData) : IRelease :=
  mkRelease (mkCleaned (match Semver.clean (tag_name d) with
                        | Some x => x
                        | None => ""
                        end))
            (data_assets d).





(** The release list of the specification's example, each release with an
    asset of its own. *)
Definition synthetic_releases : list ReleaseData :=
  [ mkData "v2.0.0" [mkAsset "a" "u1" "d1"];
    mkData "not-a-version" [mkAsset "b" "u2" "d2"];
    mkData "v1.9.9" [mkAsset "c" "u3" "d3"];
    mkData "v2.0.0-rc1" [mkAsset "d" "u4" "d4"] ].

(** Two releases whose versions differ in a numeric pre-release identifier
    above 2^53: both identifiers are the same double. *)
Definition rounded_releases : list ReleaseData :=
  [ mkData "v1.0.0-9007199254740992" [mkAsset "e" "u5" "d5"];
    mkData "v1.0.0-9007199254740993" [mkAsset "f" "u6" "d6"] ].

(* ================================================================== *)
(** * A sample runner

    A Linux host on x64 with an empty tool cache, asked for [stable]; the
    registry knows one release, whose archive nests its files one level
    deep. *)

Definition strip_suffix (s suffix : string) : string :=
  let n := (String.length s - String.length suffix)%nat in
  if (String.substring n (String.length suffix) s =? suffix)%string
  then String.substring 0 n s else s.

Definition sample_assets : list IReleaseAsset :=
  [ mkAsset "gh_2.40.0_windows_amd64.zip" "https://api.example/assets/1"
      "https://dl.example/gh_2.40.0_windows_amd64.zip";
    mkAsset "gh_2.40.0_linux_amd64.tar.gz" "https://api.example/assets/2"
      "https://dl.example/gh_2.40.0_linux_amd64.tar.gz" ].

Definition sample_release : ReleaseData := mkData "v2.40.0" sample_assets.

Definition sample_oracle : Oracle := {|
  os_platform := "linux";
  os_arch := "x64";
  core_getInput := fun _ name _ =>
    Returned (if (name =? "version")%string then "stable" else "");
  core_isDebug := fun _ => false;
  tools_find := fun _ _ _ => Returned "";
  tools_downloadTool := fun _ _ => Returned "/tmp/download";
  tools_extractZip := fun _ _ => Returned "/tmp/extract";
  tools_extractTar := fun _ _ => Returned "/tmp/extract";
  tools_cacheDir := fun _ _ _ third fourth =>
    Returned ("/opt/hostedtoolcache/" ++ third ++ "/" ++ fourth);
  fs_readdirSync := fun _ dir =>
    if (dir =? "/tmp/extract")%string
    then Returned ["gh_2.40.0_linux_amd64"]
    else Returned ["LICENSE"; "bin"; "share"];
  path_join := fun a b => a ++ "/" ++ b;
  path_basename := strip_suffix;
  octokit_getLatestRelease := fun _ _ => Returned sample_release;
  octokit_listReleases := fun _ _ _ => Returned [sample_release];
  octokit_getReleaseByTag := fun _ _ _ => Returned sample_release;
  getExecOutput := fun _ _ _ => Returned "gh version 2.40.0 (2023-12-07)"
|}.

(** The same runner asked for another version, with the tool cache answering
    [cached]. *)
Definition sample_oracle_with (version cached : string) : Oracle := {|
  os_platform := os_platform sample_oracle;
  os_arch := os_arch sample_oracle;
  core_getInput := fun _ name _ =>
    Returned (if (name =? "version")%string then version else "");
  core_isDebug := core_isDebug sample_oracle;
  tools_find := fun _ _ _ => Returned cached;
  tools_downloadTool := tools_downloadTool sample_oracle;
  tools_extractZip := tools_extractZip sample_oracle;
  tools_extractTar := tools_extractTar sample_oracle;
  tools_cacheDir := tools_cacheDir sample_oracle;
  fs_readdirSync := fs_readdirSync sample_oracle;
  path_join := path_join sample_oracle;
  path_basename := path_basename sample_oracle;
  octokit_getLatestRelease := octokit_getLatestRelease sample_oracle;
  octokit_listReleases := octokit_listReleases sample_oracle;
  octokit_getReleaseByTag := octokit_getReleaseByTag sample_oracle;
  getExecOutput := getExecOutput sample_oracle
|}.

(* ================================================================== *)
(** * Facts about strings *)

Module StringFacts.

Lemma append_assoc (a b c : string) : (a ++ b) ++ c = a ++ (b ++ c).
Proof. induction a as [|x a IH]; simpl; [reflexivity | now rewrite IH]. Qed.

Lemma append_nil_r (a : string) : a ++ "" = a.
Proof. induction a as [|x a IH]; simpl; [reflexivity | now rewrite IH]. Qed.

Lemma prefix_app (p s : string) :
  String.prefix p s = true <-> exists r, s = p ++ r.
Proof.
  revert s; induction p as [|c p IH]; intros s.
  - split; [intros _; exists s; reflexivity | intros _; now destruct s].
  - destruct s as [|d s]; simpl.
    + split; [discriminate | intros [r Hr]; discriminate].
    + destruct (Ascii.ascii_dec c d) as [->|Hne].
      * rewrite IH. split; intros [r Hr]; exists r; [now rewrite Hr | now inversion Hr].
      * split; [discriminate | intros [r Hr]; inversion Hr; subst; contradiction].
Qed.

Lemma append_inj_l (p a b : string) : p ++ a = p ++ b -> a = b.
Proof. induction p as [|c p IH]; simpl; [auto | intros [= H]; auto]. Qed.

End StringFacts.

(* ================================================================== *)
(** * Facts about the version parser and precedence *)

Module SemverFacts.
Import Semver SemverOrder StringFacts.

Lemma all_chars_app p a b : all_chars p (a ++ b) = (all_chars p a && all_chars p b)%bool.
Proof. induction a as [|x a IH]; simpl; [reflexivity | now rewrite IH, andb_assoc]. Qed.

Lemma all_chars_impl (p q : ascii -> bool) s :
  (forall c, p c = true -> q c = true) -> all_chars p s = true -> all_chars q s = true.
Proof.
  intros Hpq; induction s as [|c s IH]; simpl; [reflexivity|].
  rewrite !andb_true_iff; intros [H1 H2]; auto.
Qed.

(** ** Splitting and joining *)

Lemma split_nonempty c s : split c s <> [].
Proof.
  induction s as [|a s IH]; simpl; [discriminate|].
  destruct (Ascii.eqb a c); [discriminate|].
  destruct (split c s); [contradiction | discriminate].
Qed.

Lemma concat_split c s : String.concat (String c "") (split c s) = s.
Proof.
  induction s as [|a s IH]; simpl; [reflexivity|].
  destruct (Ascii.eqb_spec a c) as [->|Hne].
  - pose proof (split_nonempty c s) as Hn.
    destruct (split c s) as [|x xs]; [contradiction|].
    simpl in *. now rewrite IH.
  - pose proof (split_nonempty c s) as Hn.
    destruct (split c s) as [|x xs]; [contradiction|].
    simpl in *. destruct xs; simpl in *; now rewrite <- IH.
Qed.

Lemma break_at_None c s x : break_at c s = (x, None) -> s = x.
Proof.
  revert x; induction s as [|a s IH]; simpl; intros x H.
  - now inversion H.
  - destruct (Ascii.eqb a c); [discriminate|].
    destruct (break_at c s) as [x' y'] eqn:E. inversion H; subst.
    now rewrite (IH x' eq_refl).
Qed.

Lemma break_at_Some c s x y : break_at c s = (x, Some y) -> s = x ++ String c y.
Proof.
  revert x; induction s as [|a s IH]; simpl; intros x H.
  - discriminate.
  - destruct (Ascii.eqb_spec a c) as [->|Hne].
    + now inversion H.
    + destruct (break_at c s) as [x' y'] eqn:E. inversion H; subst.
      now rewrite (IH x' eq_refl).
Qed.

Lemma break_at_length c s : (String.length (fst (break_at c s)) <= String.length s)%nat.
Proof.
  induction s as [|a s IH]; simpl; [lia|].
  destruct (Ascii.eqb a c); simpl; [lia|].
  destruct (break_at c s); simpl in *; lia.
Qed.

Lemma drop_while_length p s : (String.length (drop_while p s) <= String.length s)%nat.
Proof.
  induction s as [|a s IH]; simpl; [lia|]. destruct (p a); simpl; lia.
Qed.

Lemma drop_while_end_length p s :
  (String.length (drop_while_end p s) <= String.length s)%nat.
Proof.
  induction s as [|a s IH]; simpl; [lia|].
  destruct (drop_while_end p s); [destruct (p a)|]; simpl in *; lia.
Qed.

Lemma trim_length s : (String.length (trim s) <= String.length s)%nat.
Proof.
  unfold trim. pose proof (drop_while_end_length is_space (drop_while is_space s)).
  pose proof (drop_while_length is_space s). lia.
Qed.

Lemma drop_v_length s : (String.length (drop_v s) <= String.length s)%nat.
Proof.
  destruct s as [|a s]; simpl; [lia|].
  destruct a as [[] [] [] [] [] [] [] []]; simpl; lia.
Qed.

Lemma drop_while_end_id p s :
  all_chars (fun c => negb (p c)) s = true -> drop_while_end p s = s.
Proof.
  induction s as [|a s IH]; simpl; [reflexivity|].
  rewrite andb_true_iff, negb_true_iff; intros [Ha Hs].
  rewrite (IH Hs). destruct s; [now rewrite Ha | reflexivity].
Qed.

Lemma trim_id s : no_space s = true -> trim s = s.
Proof.
  intros H. unfold trim.
  assert (E : drop_while is_space s = s).
  { destruct s as [|a s]; simpl in *; [reflexivity|].
    apply andb_true_iff in H as [Ha _]. apply negb_true_iff in Ha. now rewrite Ha. }
  rewrite E. now apply drop_while_end_id.
Qed.

(** ** Numbers and their digits *)

Lemma digit_cases c :
  is_digit c = true ->
  (c = "0" \/ c = "1" \/ c = "2" \/ c = "3" \/ c = "4" \/
   c = "5" \/ c = "6" \/ c = "7" \/ c = "8" \/ c = "9")%char.
Proof.
  destruct c as [[] [] [] [] [] [] [] []]; vm_compute; intros H;
    try discriminate H; tauto.
Qed.

Lemma uint_of_digits s :
  all_chars is_digit s = true -> exists d, NilEmpty.uint_of_string s = Some d.
Proof.
  induction s as [|c s IH]; simpl; [now exists Decimal.Nil|].
  rewrite andb_true_iff; intros [Hc Hs]. destruct (IH Hs) as [d Hd]. rewrite Hd.
  destruct (digit_cases c Hc) as [->|[->|[->|[->|[->|[->|[->|[->|[->| ->]]]]]]]]];
    simpl; eauto.
Qed.

Lemma of_to_number s : is_numeric_id s = true -> of_number (to_number s) = s.
Proof.
  destruct s as [|c r]; [discriminate|].
  unfold is_numeric_id. rewrite andb_true_iff; intros [Hd Hz].
  destruct (uint_of_digits _ Hd) as [d Ed].
  unfold of_number, to_number. rewrite Ed, DecimalN.Unsigned.to_of.
  assert (Hn : Decimal.unorm d = d).
  { simpl in Ed, Hd. apply andb_true_iff in Hd as [Hc Hr].
    destruct (uint_of_digits _ Hr) as [d' Ed']. rewrite Ed' in Ed.
    apply orb_true_iff in Hz as [Hz|Hz].
    - destruct (digit_cases c Hc) as [->|[->|[->|[->|[->|[->|[->|[->|[->| ->]]]]]]]]];
        simpl in Ed, Hz; try discriminate Hz; inversion Ed; reflexivity.
    - apply String.eqb_eq in Hz; subst r. simpl in Ed'. inversion Ed'; subst d'.
      destruct (digit_cases c Hc) as [->|[->|[->|[->|[->|[->|[->|[->|[->| ->]]]]]]]]];
        simpl in Ed; inversion Ed; reflexivity. }
  rewrite Hn. now apply NilEmpty.sus.
Qed.

Lemma to_number_inj a b :
  is_numeric_id a = true -> is_numeric_id b = true ->
  to_number a = to_number b -> a = b.
Proof.
  intros Ha Hb E. rewrite <- (of_to_number a Ha), <- (of_to_number b Hb).
  now rewrite E.
Qed.

(** ** The shape of a version that parses *)

Lemma format_unfold v :
  format v = of_number (major v) ++ "." ++ of_number (minor v) ++ "."
             ++ of_number (patch v) ++ pre_suffix (prerelease v).
Proof. destruct v as [ma mi pa [|i ids]]; reflexivity. Qed.

Lemma parse_body_shape body v :
  parse_body body = Some v ->
  exists a b c,
    is_numeric_id a = true /\ is_numeric_id b = true /\ is_numeric_id c = true /\
    major v = to_number a /\ minor v = to_number b /\ patch v = to_number c /\
    forallb is_prerelease_id (prerelease v) = true /\
    body = a ++ "." ++ b ++ "." ++ c ++ pre_suffix (prerelease v).
Proof.
  unfold parse_body. destruct (break_at "-" body) as [main pre] eqn:Eb.
  pose proof (concat_split "." main) as Ej.
  destruct (split "." main) as [|a [|b [|c [|? ?]]]]; try discriminate.
  destruct (is_numeric_id a && is_numeric_id b && is_numeric_id c)%bool eqn:En;
    [|discriminate].
  apply andb_true_iff in En as [En Hc]. apply andb_true_iff in En as [Ha Hb].
  destruct (_ && _ && _)%bool; [|discriminate].
  simpl in Ej.
  destruct pre as [p|].
  - pose proof (concat_split "." p) as Ep. pose proof (split_nonempty "." p) as Hn.
    destruct (forallb is_prerelease_id (split "." p)) eqn:Ef; [|discriminate].
    intros H; inversion H; subst v; clear H. exists a, b, c. simpl.
    repeat split; auto.
    apply break_at_Some in Eb. rewrite Eb, <- Ej.
    unfold pre_suffix. destruct (split "." p) as [|i ids]; [contradiction|].
    rewrite Ep. simpl. rewrite !append_assoc. simpl. rewrite !append_assoc. reflexivity.
  - intros H; inversion H; subst v; clear H. exists a, b, c. simpl.
    repeat split; auto.
    apply break_at_None in Eb. rewrite Eb, <- Ej. simpl.
    now rewrite append_nil_r.
Qed.

(** Formatting a parsed version gives back the text that was parsed. *)
Lemma parse_body_format body v : parse_body body = Some v -> format v = body.
Proof.
  intros H. destruct (parse_body_shape _ _ H)
    as (a & b & c & Ha & Hb & Hc & Ea & Eb & Ec & _ & E).
  rewrite format_unfold, Ea, Eb, Ec, !of_to_number by assumption. now symmetry.
Qed.

(** ** The characters of a cleaned version *)

Lemma body_char_plain c :
  is_body_char c = true ->
  is_space c = false /\ Ascii.eqb c "+" = false.
Proof.
  destruct c as [[] [] [] [] [] [] [] []]; vm_compute; intros H;
    try discriminate H; split; reflexivity.
Qed.

Lemma digit_plain c :
  is_digit c = true ->
  is_body_char c = true /\ Ascii.eqb c "=" = false /\ Ascii.eqb c "v" = false.
Proof.
  destruct c as [[] [] [] [] [] [] [] []]; vm_compute; intros H;
    try discriminate H; repeat split; reflexivity.
Qed.

Lemma numeric_id_chars a :
  is_numeric_id a = true ->
  all_chars is_body_char a = true /\
  exists d r, a = String d r /\ is_digit d = true.
Proof.
  destruct a as [|d r]; [discriminate|]. unfold is_numeric_id.
  rewrite andb_true_iff; intros [Hd _]. split.
  - revert Hd; apply all_chars_impl. intros c Hc. now apply digit_plain.
  - exists d, r. split; [reflexivity|]. simpl in Hd.
    now apply andb_true_iff in Hd as [Hd _].
Qed.

Lemma prerelease_id_chars i :
  is_prerelease_id i = true -> all_chars is_body_char i = true.
Proof.
  unfold is_prerelease_id. rewrite orb_true_iff; intros [H|H].
  - now apply numeric_id_chars.
  - unfold is_nonnumeric_id in H. apply andb_true_iff in H as [H _].
    revert H; apply all_chars_impl. intros c Hc. unfold is_body_char.
    now rewrite Hc.
Qed.

Lemma concat_chars ids :
  forallb is_prerelease_id ids = true ->
  all_chars is_body_char (String.concat "." ids) = true.
Proof.
  induction ids as [|i ids IH]; simpl; [reflexivity|].
  rewrite andb_true_iff; intros [Hi Hs].
  destruct ids as [|j ids]; [now apply prerelease_id_chars|].
  rewrite all_chars_app, (prerelease_id_chars i Hi). simpl.
  exact (IH Hs).
Qed.

Lemma pre_suffix_chars ids :
  forallb is_prerelease_id ids = true ->
  all_chars is_body_char (pre_suffix ids) = true.
Proof.
  destruct ids as [|i ids]; [reflexivity|]. intros H.
  change (all_chars is_body_char (String.concat "." (i :: ids)) = true).
  now apply concat_chars.
Qed.

Lemma parse_body_chars body v :
  parse_body body = Some v ->
  all_chars is_body_char body = true /\
  exists d r, body = String d r /\ is_digit d = true.
Proof.
  intros H. destruct (parse_body_shape _ _ H)
    as (a & b & c & Ha & Hb & Hc & _ & _ & _ & Hp & E).
  destruct (numeric_id_chars a Ha) as [Ca (d & r & Ea & Hd)].
  destruct (numeric_id_chars b Hb) as [Cb _].
  destruct (numeric_id_chars c Hc) as [Cc _].
  split.
  - rewrite E, !all_chars_app, Ca, Cb, Cc, (pre_suffix_chars _ Hp). reflexivity.
  - exists d, (r ++ "." ++ b ++ "." ++ c ++ pre_suffix (prerelease v)).
    split; [now rewrite E, Ea | exact Hd].
Qed.

Lemma break_at_absent c s :
  all_chars (fun a => negb (Ascii.eqb a c)) s = true -> break_at c s = (s, None).
Proof.
  induction s as [|a s IH]; simpl; [reflexivity|].
  rewrite andb_true_iff, negb_true_iff; intros [Ha Hs]. now rewrite Ha, (IH Hs).
Qed.

(** ** Cleaning is idempotent *)

(** The constructor on a text that is already in formatted form. *)
Lemma SemVer_new_body body v :
  parse_body body = Some v ->
  (String.length body <= MAX_LENGTH)%nat ->
  SemVer_new body = Some v.
Proof.
  intros H Hlen. destruct (parse_body_chars _ _ H) as [Hc (d & r & E & Hd)].
  unfold SemVer_new.
  destruct (Nat.ltb_spec MAX_LENGTH (String.length body)) as [Hlt|_]; [lia|].
  assert (Ht : trim body = body).
  { apply trim_id. revert Hc; apply all_chars_impl.
    intros c Hb. now destruct (body_char_plain c Hb) as [-> _]. }
  assert (Hv : drop_v body = body).
  { rewrite E. destruct (digit_plain d Hd) as (_ & _ & Hv).
    simpl. destruct d as [[] [] [] [] [] [] [] []]; try reflexivity; discriminate Hv. }
  rewrite Ht, Hv.
  rewrite (break_at_absent "+" body).
  - simpl. exact H.
  - revert Hc; apply all_chars_impl.
    intros c Hb. now destruct (body_char_plain c Hb) as [_ ->].
Qed.

(** What [clean] returns is the formatted form of a version that parses. *)
Lemma clean_Some s x :
  clean s = Some x ->
  exists v, parse_body x = Some v /\ format v = x /\
            (String.length x <= MAX_LENGTH)%nat.
Proof.
  unfold clean, SemVer_new. set (s2 := strip_eq_v (trim s)).
  destruct (Nat.ltb_spec MAX_LENGTH (String.length s2)) as [|Hlen]; [discriminate|].
  pose proof (break_at_length "+" (drop_v (trim s2))) as Hb.
  destruct (break_at "+" (drop_v (trim s2))) as [body build].
  destruct (build_ok build); [|discriminate].
  destruct (parse_body body) as [v|] eqn:Ep; [|discriminate].
  intros E; inversion E; subst x; clear E.
  pose proof (parse_body_format _ _ Ep) as Ef. rewrite Ef.
  exists v. split; [exact Ep | split; [exact Ef |]].
  simpl in Hb. pose proof (drop_v_length (trim s2)). pose proof (trim_length s2).
  unfold MAX_LENGTH in *. lia.
Qed.

(** Prefixing a cleaned version with [v] and cleaning again changes nothing. *)
Lemma clean_v_idempotent s x : clean s = Some x -> clean ("v" ++ x) = Some x.
Proof.
  intros H. destruct (clean_Some _ _ H) as (v & Hp & Hf & Hl).
  destruct (parse_body_chars _ _ Hp) as [Hc (d & r & E & Hd)].
  unfold clean.
  assert (Ht : trim ("v" ++ x) = "v" ++ x).
  { apply trim_id.
    change (all_chars (fun c => negb (is_space c)) x = true).
    revert Hc; apply all_chars_impl.
    intros c Hb. now destruct (body_char_plain c Hb) as [-> _]. }
  rewrite Ht.
  assert (Hs : strip_eq_v ("v" ++ x) = x).
  { rewrite E. destruct (digit_plain d Hd) as (_ & He & Hv).
    unfold strip_eq_v. simpl. now rewrite He, Hv. }
  rewrite Hs, (SemVer_new_body _ _ Hp Hl). now rewrite Hf.
Qed.

(** ** Precedence is a total order on parsed versions *)

Lemma order_like_le_trans {A} (P : A -> Prop) c :
  order_like P c ->
  forall x y z, P x -> P y -> P z -> c x y <= 0 -> c y z <= 0 -> c x z <= 0.
Proof.
  intros [Hr He Ha Ht] x y z Px Py Pz Hxy Hyz.
  destruct (Hr x y) as [E1|[E1|E1]]; [| |lia].
  - destruct (Hr y z) as [E2|[E2|E2]]; [| |lia].
    + rewrite (Ht x y z); auto; lia.
    + apply He in E2; auto. subst z. lia.
  - apply He in E1; auto. now subst y.
Qed.

Lemma order_like_total {A} (P : A -> Prop) c :
  order_like P c -> forall x y, P x -> P y -> c x y <= 0 \/ c y x <= 0.
Proof.
  intros [Hr He Ha Ht] x y Px Py. rewrite (Ha x y Px Py).
  destruct (Hr x y) as [E|[E|E]]; lia.
Qed.

Lemma compareNumbers_order : order_like (fun _ => True) compareNumbers.
Proof.
  split; unfold compareNumbers.
  - intros x y. destruct (N.eqb x y), (N.ltb x y); auto.
  - intros x y _ _. destruct (N.eqb_spec x y), (N.ltb_spec x y); split; intros; try lia; auto.
  - intros x y _ _.
    destruct (N.eqb_spec x y), (N.eqb_spec y x), (N.ltb_spec x y), (N.ltb_spec y x); lia.
  - intros x y z _ _ _.
    destruct (N.eqb_spec x y), (N.eqb_spec y z), (N.eqb_spec x z),
             (N.ltb_spec x y), (N.ltb_spec y z), (N.ltb_spec x z); lia.
Qed.

Lemma lex_order {B C} (P1 : B -> Prop) (P2 : C -> Prop) c1 c2 :
  order_like P1 c1 -> order_like P2 c2 ->
  order_like (fun p => P1 (fst p) /\ P2 (snd p)) (lex c1 c2).
Proof.
  intros [Hr1 He1 Ha1 Ht1] [Hr2 He2 Ha2 Ht2]. split; unfold lex, or_else.
  - intros [x1 x2] [y1 y2]; simpl.
    destruct (Z.eqb_spec (c1 x1 y1) 0); [apply Hr2|].
    destruct (Hr1 x1 y1) as [E|[E|E]]; auto.
  - intros [x1 x2] [y1 y2] [Px1 Px2] [Py1 Py2]; simpl in *.
    destruct (Z.eqb_spec (c1 x1 y1) 0) as [E|E].
    + apply He1 in E; auto. subst y1. rewrite He2 by auto.
      split; [now intros -> | now intros [= ->]].
    + split; [contradiction | intros [= -> ->]]. exfalso. apply E, He1; auto.
  - intros [x1 x2] [y1 y2] [Px1 Px2] [Py1 Py2]; simpl in *.
    rewrite (Ha1 x1 y1), (Ha2 x2 y2) by auto.
    destruct (Z.eqb_spec (c1 x1 y1) 0), (Z.eqb_spec (- c1 x1 y1) 0); lia.
  - intros [x1 x2] [y1 y2] [z1 z2] [Px1 Px2] [Py1 Py2] [Pz1 Pz2]; simpl in *.
    destruct (Z.eqb_spec (c1 x1 y1) 0) as [E1|E1];
      destruct (Z.eqb_spec (c1 y1 z1) 0) as [E2|E2].
    + apply He1 in E1, E2; auto. subst y1 z1.
      destruct (Z.eqb_spec (c1 x1 x1) 0) as [_|E]; [eauto|].
      exfalso; apply E, He1; auto.
    + apply He1 in E1; auto. subst y1.
      destruct (Z.eqb_spec (c1 x1 z1) 0); [contradiction | auto].
    + apply He1 in E2; auto. subst z1.
      destruct (Z.eqb_spec (c1 x1 y1) 0); [contradiction | auto].
    + intros H1 H2. pose proof (Ht1 x1 y1 z1 Px1 Py1 Pz1 H1 H2) as H3.
      rewrite H3. reflexivity.
Qed.

(** The order pulled back along an injective key. *)
Lemma order_like_map {A B} (f : A -> B) (P : A -> Prop) (Q : B -> Prop) c :
  order_like Q c ->
  (forall x, P x -> Q (f x)) ->
  (forall x y, P x -> P y -> f x = f y -> x = y) ->
  order_like P (fun x y => c (f x) (f y)).
Proof.
  intros [Hr He Ha Ht] HP Hinj. split; intros.
  - apply Hr.
  - rewrite He by auto. split; [now apply Hinj | now intros ->].
  - apply Ha; auto.
  - eapply Ht with (y := f y); auto.
Qed.

(** Strings under the code-unit order. *)
Lemma ascii_compare_refl a : Ascii.compare a a = Eq.
Proof. unfold Ascii.compare. apply N.compare_refl. Qed.

Lemma ascii_compare_lt_trans a b c :
  Ascii.compare a b = Lt -> Ascii.compare b c = Lt -> Ascii.compare a c = Lt.
Proof.
  unfold Ascii.compare. rewrite !N.compare_lt_iff. apply N.lt_trans.
Qed.

Lemma string_compare_lt_trans s1 s2 s3 :
  String.compare s1 s2 = Lt -> String.compare s2 s3 = Lt -> String.compare s1 s3 = Lt.
Proof.
  revert s2 s3; induction s1 as [|a s1 IH]; intros [|b s2] [|c s3]; simpl;
    try discriminate; auto.
  destruct (Ascii.compare a b) eqn:Eab; try discriminate;
    destruct (Ascii.compare b c) eqn:Ebc; try discriminate; intros H1 H2.
  - apply Ascii.compare_eq_iff in Eab, Ebc. subst b c.
    rewrite ascii_compare_refl. eauto.
  - apply Ascii.compare_eq_iff in Eab. subst b. now rewrite Ebc.
  - apply Ascii.compare_eq_iff in Ebc. subst c. now rewrite Eab.
  - now rewrite (ascii_compare_lt_trans _ _ _ Eab Ebc).
Qed.

Lemma digit_not_letter c : is_digit c = true -> is_letter_or_dash c = false.
Proof.
  destruct c as [[] [] [] [] [] [] [] []]; vm_compute; intros H;
    try discriminate H; reflexivity.
Qed.

Lemma digits_no_letter s :
  all_chars is_digit s = true -> any_char is_letter_or_dash s = false.
Proof.
  induction s as [|c s IH]; simpl; [reflexivity|].
  rewrite andb_true_iff; intros [Hc Hs]. now rewrite (digit_not_letter c Hc), (IH Hs).
Qed.

(** Among valid identifiers, the all-digit ones are the numeric ones. *)
Lemma numeric_is_numeric_id a :
  is_prerelease_id a = true -> is_numeric a = true -> is_numeric_id a = true.
Proof.
  unfold is_prerelease_id, is_numeric, is_nonnumeric_id.
  rewrite orb_true_iff, !andb_true_iff. intros [H|[_ H]] [_ Hd]; [exact H|].
  now rewrite (digits_no_letter a Hd) in H.
Qed.

(** ** Numbers that a double holds as they are *)

Lemma to_double_exact n : (n <= MAX_SAFE_INTEGER)%N -> to_double n = n.
Proof.
  intros H. unfold to_double. cbv zeta.
  destruct (N.leb_spec (N.size n) 53) as [_|Hs]; [reflexivity|].
  exfalso. destruct (N.eq_dec n 0) as [->|Hn]; [discriminate Hs|].
  rewrite (N.size_log2 n Hn) in Hs.
  assert (Hl : (N.log2 n < 53)%N).
  { apply N.log2_lt_pow2; [lia|]. unfold MAX_SAFE_INTEGER in H.
    change (2 ^ 53)%N with 9007199254740992%N. lia. }
  lia.
Qed.

Lemma exact_numeric a :
  exact_id a -> is_numeric a = true -> to_double (to_number a) = to_number a.
Proof.
  intros [_ Hs] Hn. unfold safe_id in Hs. rewrite Hn in Hs. cbn [negb orb] in Hs.
  apply to_double_exact. now apply N.leb_le.
Qed.

(** ** The comparisons are those of a strict total order where numbers are
    read exactly *)

Lemma compareIdentifiers_order : order_like exact_id compareIdentifiers.
Proof.
  split; unfold compareIdentifiers.
  - intros x y.
    destruct (is_numeric x), (is_numeric y); simpl;
      try apply (ol_range _ _ compareNumbers_order);
      destruct (String.eqb x y); auto; destruct (String.ltb x y); auto.
  - intros x y Px Py.
    destruct (is_numeric x) eqn:Nx, (is_numeric y) eqn:Ny; simpl.
    + rewrite (exact_numeric x Px Nx), (exact_numeric y Py Ny).
      rewrite (ol_eq _ _ compareNumbers_order) by exact I.
      split; [|now intros ->].
      apply to_number_inj; apply numeric_is_numeric_id;
        first [exact (proj1 Px) | exact (proj1 Py) | assumption].
    + destruct (String.eqb_spec x y) as [->|Hne]; [congruence|].
      split; intros; [lia | contradiction].
    + destruct (String.eqb_spec x y) as [->|Hne]; [congruence|].
      split; intros; [lia | contradiction].
    + destruct (String.eqb_spec x y) as [->|Hne]; [tauto|].
      split; intros; [|contradiction]. destruct (String.ltb x y); lia.
  - intros x y Px Py.
    destruct (is_numeric x) eqn:Nx, (is_numeric y) eqn:Ny; simpl.
    + now apply (ol_anti _ _ compareNumbers_order).
    + rewrite String.eqb_sym. destruct (String.eqb_spec x y); [congruence | reflexivity].
    + rewrite String.eqb_sym. destruct (String.eqb_spec x y); [congruence | reflexivity].
    + rewrite String.eqb_sym. destruct (String.eqb_spec x y) as [->|Hne]; [reflexivity|].
      unfold String.ltb. rewrite (String.compare_antisym x y).
      destruct (String.compare y x) eqn:E; simpl; try reflexivity.
      apply String.compare_eq_iff in E. congruence.
  - intros x y z Px Py Pz.
    destruct (is_numeric x) eqn:Nx, (is_numeric y) eqn:Ny, (is_numeric z) eqn:Nz; simpl;
      try (now apply (ol_trans _ _ compareNumbers_order));
      destruct (String.eqb_spec x y), (String.eqb_spec y z), (String.eqb_spec x z);
      try lia; try congruence; intros H1 H2;
      try (subst; rewrite ?Nx, ?Ny, ?Nz in *; discriminate).
    all: unfold String.ltb in *;
      destruct (String.compare x y) eqn:E1; try discriminate;
      destruct (String.compare y z) eqn:E2; try discriminate.
    + subst z. rewrite String.compare_antisym, E1 in E2. discriminate.
    + now rewrite (string_compare_lt_trans _ _ _ E1 E2).
Qed.

Lemma comparePre_loop_refl x : comparePre_loop x x = 0.
Proof. induction x as [|a x IH]; simpl; [reflexivity|]. now rewrite String.eqb_refl. Qed.

Lemma comparePre_loop_order : order_like exact_ids comparePre_loop.
Proof.
  pose proof compareIdentifiers_order as [Hr He Ha Ht].
  unfold exact_ids. split.
  - induction x as [|a x IH]; intros [|b y]; simpl; auto.
    destruct (String.eqb a b); auto.
  - induction x as [|a x IH]; intros [|b y] Px Py; simpl;
      try (split; [lia | discriminate]); [tauto|].
    apply Forall_cons_iff in Px as [Pa Px], Py as [Pb Py].
    destruct (String.eqb_spec a b) as [->|Hne].
    + rewrite IH by assumption. split; [now intros -> | now intros [= ->]].
    + rewrite He by assumption. split; [contradiction | now intros [= -> _]].
  - induction x as [|a x IH]; intros [|b y] Px Py; simpl; try reflexivity.
    apply Forall_cons_iff in Px as [Pa Px], Py as [Pb Py]. rewrite String.eqb_sym.
    destruct (String.eqb a b); auto.
  - induction x as [|a x IH]; intros [|b y] [|c z] Px Py Pz; simpl;
      try discriminate; auto.
    apply Forall_cons_iff in Px as [Pa Px], Py as [Pb Py], Pz as [Pc Pz].
    destruct (String.eqb_spec a b) as [->|Hab];
      destruct (String.eqb_spec b c) as [->|Hbc].
    + eauto.
    + auto.
    + destruct (String.eqb_spec a c); [contradiction | auto].
    + intros H1 H2. pose proof (Ht a b c Pa Pb Pc H1 H2) as H3.
      destruct (String.eqb_spec a c) as [->|Hac]; [|exact H3].
      assert (compareIdentifiers c c = 0) by (apply He; auto). lia.
Qed.

Lemma comparePre_ids_order : order_like exact_ids comparePre_ids.
Proof.
  pose proof comparePre_loop_order as [Hr He Ha Ht].
  split.
  - intros [|a x] [|b y]; simpl; auto. apply (Hr (a :: x) (b :: y)).
  - intros [|a x] [|b y] Px Py; simpl; try (split; [lia | discriminate]); [tauto|].
    now apply (He (a :: x) (b :: y)).
  - intros [|a x] [|b y] Px Py; simpl; try reflexivity.
    now apply (Ha (a :: x) (b :: y)).
  - intros [|a x] [|b y] [|c z] Px Py Pz; simpl; try discriminate; auto.
    now apply (Ht (a :: x) (b :: y) (c :: z)).
Qed.

Lemma or_else_assoc x y z : or_else (or_else x y) z = or_else x (or_else y z).
Proof.
  unfold or_else. destruct (Z.eqb_spec x 0) as [->|Hx]; [reflexivity|].
  destruct (Z.eqb_spec x 0); [contradiction | reflexivity].
Qed.

Lemma precedence_key a b :
  or_else (compareMain a b) (comparePre a b) = key_compare (key a) (key b).
Proof.
  unfold compareMain, key_compare, lex, key; simpl.
  rewrite !or_else_assoc. do 3 f_equal.
  unfold comparePre, comparePre_ids.
  destruct (prerelease a), (prerelease b); reflexivity.
Qed.

Lemma parsed_valid_ids v : parsed v -> valid_ids (prerelease v).
Proof.
  intros [x Hx]. destruct (parse_body_shape _ _ Hx)
    as (a & b & c & _ & _ & _ & _ & _ & _ & Hp & _).
  apply Forall_forall. intros i Hi. unfold valid_id.
  rewrite forallb_forall in Hp. auto.
Qed.

Lemma parsed_format_inj a b : parsed a -> parsed b -> format a = format b -> a = b.
Proof.
  intros [x Hx] [y Hy] E.
  rewrite (parse_body_format _ _ Hx), (parse_body_format _ _ Hy) in E. subst y.
  congruence.
Qed.

Lemma key_compare_order : order_like exact_key key_compare.
Proof.
  exact (lex_order _ _ _ _ compareNumbers_order
           (lex_order _ _ _ _ compareNumbers_order
              (lex_order _ _ _ _ compareNumbers_order comparePre_ids_order))).
Qed.

Lemma key_compare_refl k : key_compare k k = 0.
Proof.
  destruct k as (a & b & c & l). unfold key_compare, lex, or_else, compareNumbers.
  cbn [fst snd]. rewrite !N.eqb_refl. cbn [Z.eqb].
  destruct l as [|x l]; [reflexivity|]. apply (comparePre_loop_refl (x :: l)).
Qed.

Lemma exact_version_key v : exact_version v -> exact_key (key v).
Proof.
  intros [Hp Hs]. repeat split. cbn [key snd]. apply Forall_forall. intros i Hi.
  split.
  - pose proof (parsed_valid_ids v Hp) as Hv. unfold valid_ids in Hv.
    rewrite Forall_forall in Hv. auto.
  - unfold safe_pre in Hs. rewrite forallb_forall in Hs. auto.
Qed.

Lemma key_inj a b : key a = key b -> a = b.
Proof. destruct a, b; unfold key; simpl. now intros [= -> -> -> ->]. Qed.

Lemma SemVer_compare_key a b :
  parsed a -> parsed b -> SemVer_compare a b = key_compare (key a) (key b).
Proof.
  intros Pa Pb. unfold SemVer_compare.
  destruct (String.eqb_spec (format a) (format b)) as [E|_];
    [|apply precedence_key].
  apply (parsed_format_inj a b Pa Pb) in E. subst b.
  symmetry. apply key_compare_refl.
Qed.

(** Precedence, as [SemVer.compare] computes it, orders the parsed versions
    whose numeric pre-release identifiers a double holds as they are. *)
Lemma SemVer_compare_order : order_like exact_version SemVer_compare.
Proof.
  pose proof (order_like_map key exact_version exact_key key_compare key_compare_order
                exact_version_key (fun x y _ _ => key_inj x y)) as [Hr He Ha Ht].
  split.
  - intros x y. unfold SemVer_compare.
    destruct (String.eqb (format x) (format y)); [auto|].
    rewrite precedence_key. apply Hr.
  - intros x y Px Py. rewrite SemVer_compare_key by (apply Px || apply Py).
    now apply He.
  - intros x y Px Py. rewrite !SemVer_compare_key by (apply Px || apply Py).
    now apply Ha.
  - intros x y z Px Py Pz.
    rewrite !SemVer_compare_key by (apply Px || apply Py || apply Pz).
    now apply Ht.
Qed.

(** ** [compare] on cleaned version strings *)

(** The version a cleaned string stands for. *)
Lemma cleaned_parsed s x :
  clean s = Some x ->
  exists v, SemVer_new x = Some v /\ parsed v /\ format v = x.
Proof.
  intros H. destruct (clean_Some _ _ H) as (v & Hp & Hf & Hl).
  exists v. repeat split; [now apply SemVer_new_body | now exists x | exact Hf].
Qed.

End SemverFacts.

(* ================================================================== *)
(** * Facts about the resolver *)

Module ResolverFacts.
Import Semver SemverOrder SemverFacts.

Lemma cleanedVersion_OK s v :
  cleanedVersion s = OK v <-> clean s = Some (versionString v).
Proof.
  unfold cleanedVersion. destruct (clean s) as [x|]; destruct v as [y]; simpl.
  - split; [now intros [= ->] | now intros [= ->]].
  - split; discriminate.
Qed.

Lemma cleaned_parsed_version v :
  cleaned v ->
  exists p, SemVer_new (versionString v) = Some p /\ parsed p /\
            format p = versionString v.
Proof.
  intros [s Hs]. apply cleanedVersion_OK in Hs. now apply cleaned_parsed in Hs.
Qed.

Lemma compare_cleaned a b :
  cleaned a -> cleaned b ->
  exists pa pb,
    SemVer_new (versionString a) = Some pa /\ parsed pa /\
    SemVer_new (versionString b) = Some pb /\ parsed pb /\
    Semver.compare (versionString a) (versionString b) = Some (SemVer_compare pa pb).
Proof.
  intros Ha Hb.
  destruct (cleaned_parsed_version a Ha) as (pa & Ea & Pa & _).
  destruct (cleaned_parsed_version b Hb) as (pb & Eb & Pb & _).
  exists pa, pb. unfold Semver.compare. rewrite Ea, Eb. auto.
Qed.

Lemma version_le_refl a : cleaned a -> version_le a a.
Proof.
  intros Ha. destruct (compare_cleaned a a Ha Ha) as (pa & pb & Ea & Pa & Eb & Pb & E).
  exists (SemVer_compare pa pb). split; [exact E|].
  assert (pa = pb) by congruence. subst pb.
  unfold SemVer_compare. rewrite String.eqb_refl. lia.
Qed.

(** Two cleaned versions that the package reads exactly. *)
Lemma compare_exact a b :
  cleaned a -> cleaned b -> safe a -> safe b ->
  exists pa pb,
    SemVer_new (versionString a) = Some pa /\ exact_version pa /\
    SemVer_new (versionString b) = Some pb /\ exact_version pb /\
    Semver.compare (versionString a) (versionString b) = Some (SemVer_compare pa pb).
Proof.
  intros Ha Hb Sa Sb.
  destruct (compare_cleaned a b Ha Hb) as (pa & pb & Ea & Pa & Eb & Pb & E).
  unfold safe in Sa, Sb. rewrite Ea in Sa. rewrite Eb in Sb.
  exists pa, pb. repeat split; assumption.
Qed.

Lemma version_le_trans a b c :
  cleaned a -> cleaned b -> cleaned c -> safe a -> safe b -> safe c ->
  version_le a b -> version_le b c -> version_le a c.
Proof.
  intros Ha Hb Hc Sa Sb Sc (c1 & E1 & L1) (c2 & E2 & L2).
  destruct (compare_exact a b Ha Hb Sa Sb) as (pa & pb & Ea & Pa & Eb & Pb & Eab).
  destruct (compare_exact b c Hb Hc Sb Sc) as (pb' & pc & Eb' & _ & Ec & Pc & Ebc).
  assert (pb' = pb) by congruence. subst pb'.
  exists (SemVer_compare pa pc). split.
  - unfold Semver.compare. now rewrite Ea, Ec.
  - apply (order_like_le_trans _ _ SemVer_compare_order pa pb pc); auto; congruence.
Qed.

Lemma version_le_total a b :
  cleaned a -> cleaned b -> safe a -> safe b ->
  exists c, Semver.compare (versionString a) (versionString b) = Some c /\
            (c <= 0 \/ version_le b a).
Proof.
  intros Ha Hb Sa Sb.
  destruct (compare_exact a b Ha Hb Sa Sb) as (pa & pb & Ea & Pa & Eb & Pb & Eab).
  exists (SemVer_compare pa pb). split; [exact Eab|].
  destruct (order_like_total _ _ SemVer_compare_order pa pb Pa Pb) as [H|H]; [now left|].
  right. exists (SemVer_compare pb pa). split; [|exact H].
  unfold Semver.compare. now rewrite Ea, Eb.
Qed.

(** Two cleaned versions that the package reads exactly and does not tell
    apart are the same version. *)
Lemma version_le_antisym a b :
  cleaned a -> cleaned b -> safe a -> safe b ->
  version_le a b -> version_le b a -> a = b.
Proof.
  intros Ha Hb Sa Sb (c1 & E1 & L1) (c2 & E2 & L2).
  destruct (compare_exact a b Ha Hb Sa Sb) as (pa & pb & Ea & Pa & Eb & Pb & Eab).
  destruct (cleaned_parsed_version a Ha) as (pa' & Ea' & _ & Fa).
  destruct (cleaned_parsed_version b Hb) as (pb' & Eb' & _ & Fb).
  assert (pa' = pa) by congruence. assert (pb' = pb) by congruence. subst pa' pb'.
  assert (Eba : Semver.compare (versionString b) (versionString a)
                = Some (SemVer_compare pb pa)).
  { unfold Semver.compare. now rewrite Ea, Eb. }
  pose proof (ol_anti _ _ SemVer_compare_order pa pb Pa Pb) as An.
  assert (Z0 : SemVer_compare pa pb = 0).
  { assert (c1 = SemVer_compare pa pb) by congruence.
    assert (c2 = SemVer_compare pb pa) by congruence. lia. }
  apply (ol_eq _ _ SemVer_compare_order pa pb Pa Pb) in Z0. subst pb.
  destruct a as [x], b as [y]. simpl in *. congruence.
Qed.

(** ** Sorting keeps the elements

    A comparator that answers on the elements is all the sort needs to
    succeed and to return the elements it was given. *)

Section SortAnswers.
Context {A : Type} (cmp : A -> A -> result Z) (P : A -> Prop).

Hypothesis cmp_answers : forall x y, P x -> P y -> exists c, cmp x y = OK c.

Lemma insert_by_answers x l :
  P x -> Forall P l ->
  exists l', insert_by cmp x l = OK l' /\ (forall y, In y l' <-> y = x \/ In y l).
Proof.
  intros Px. induction l as [|h l IH]; intros Pl; simpl.
  - exists [x]. split; [reflexivity|]. intros y; simpl. intuition congruence.
  - apply Forall_cons_iff in Pl as [Ph Pl].
    destruct (cmp_answers x h Px Ph) as (c & ->). simpl.
    destruct (c <=? 0).
    + exists (x :: h :: l). split; [reflexivity|]. intros y; simpl. intuition congruence.
    + destruct (IH Pl) as (l' & -> & Hin). simpl.
      exists (h :: l'). split; [reflexivity|]. intros y; simpl. rewrite Hin. tauto.
Qed.

Lemma sort_by_answers l :
  Forall P l ->
  exists l', sort_by cmp l = OK l' /\ (forall y, In y l' <-> In y l).
Proof.
  induction l as [|x l IH]; intros Pl; simpl.
  - exists []. split; [reflexivity | tauto].
  - apply Forall_cons_iff in Pl as [Px Pl].
    destruct (IH Pl) as (s & -> & Hin). simpl.
    assert (Ps : Forall P s).
    { rewrite Forall_forall in *. intros y Hy. apply Pl, Hin, Hy. }
    destruct (insert_by_answers x s Px Ps) as (l' & -> & Hin').
    exists l'. split; [reflexivity|].
    intros y. rewrite Hin', Hin. simpl. intuition congruence.
Qed.
End SortAnswers.

(** ** Sorting puts a greatest element first *)

Section SortHead.
Context {A : Type} (cmp : A -> A -> result Z) (P : A -> Prop).

Hypothesis cmp_refl : forall x, P x -> goes_before cmp x x.
Hypothesis cmp_trans : forall x y z, P x -> P y -> P z ->
  goes_before cmp x y -> goes_before cmp y z -> goes_before cmp x z.
Hypothesis cmp_total : forall x y, P x -> P y ->
  exists c, cmp x y = OK c /\ (c <= 0 \/ goes_before cmp y x).

Lemma insert_by_total x l :
  P x -> Forall P l ->
  exists l', insert_by cmp x l = OK l' /\ (forall y, In y l' <-> y = x \/ In y l).
Proof.
  intros Px. induction l as [|h l IH]; intros Pl; simpl.
  - exists [x]. split; [reflexivity|]. intros y; simpl. intuition congruence.
  - apply Forall_cons_iff in Pl as [Ph Pl].
    destruct (cmp_total x h Px Ph) as (c & -> & _). simpl.
    destruct (c <=? 0).
    + exists (x :: h :: l). split; [reflexivity|]. intros y; simpl. intuition congruence.
    + destruct (IH Pl) as (l' & -> & Hin). simpl.
      exists (h :: l'). split; [reflexivity|]. intros y; simpl. rewrite Hin. tauto.
Qed.

Lemma insert_by_head x l :
  P x -> Forall P l -> head_first cmp l ->
  exists l', insert_by cmp x l = OK l' /\
             (forall y, In y l' <-> y = x \/ In y l) /\ head_first cmp l'.
Proof.
  intros Px Pl Hh. destruct l as [|h l]; simpl.
  - exists [x]. split; [reflexivity|]. split; [intros y; simpl; intuition congruence|].
    intros y [<-|[]]. now apply cmp_refl.
  - apply Forall_cons_iff in Pl as [Ph Pl].
    destruct (cmp_total x h Px Ph) as (c & Ec & Hc). rewrite Ec. simpl.
    destruct (Z.leb_spec c 0) as [Hle|Hgt].
    + exists (x :: h :: l). split; [reflexivity|].
      split; [intros y; simpl; intuition congruence|].
      intros y [<-|Hy]; [now apply cmp_refl|].
      assert (Py : P y).
      { destruct Hy as [<-|Hy]; [exact Ph|]. rewrite Forall_forall in Pl. auto. }
      apply (cmp_trans x h y); auto. now exists c.
    + destruct Hc as [Hc|Hc]; [lia|].
      destruct (insert_by_total x l Px Pl) as (l' & -> & Hin). simpl.
      exists (h :: l'). split; [reflexivity|].
      split; [intros y; simpl; rewrite Hin; tauto|].
      intros y [<-|Hy]; [now apply cmp_refl|].
      apply Hin in Hy as [->|Hy]; [exact Hc|]. apply Hh. now right.
Qed.

Lemma sort_by_head l :
  Forall P l ->
  exists l', sort_by cmp l = OK l' /\
             (forall y, In y l' <-> In y l) /\ head_first cmp l'.
Proof.
  induction l as [|x l IH]; intros Pl; simpl.
  - exists []. split; [reflexivity|]. split; [tauto | exact I].
  - apply Forall_cons_iff in Pl as [Px Pl].
    destruct (IH Pl) as (s & -> & Hin & Hh). simpl.
    assert (Ps : Forall P s).
    { rewrite Forall_forall in *. intros y Hy. apply Pl, Hin, Hy. }
    destruct (insert_by_head x s Px Ps Hh) as (l' & -> & Hin' & Hh').
    exists l'. split; [reflexivity|]. split; [|exact Hh'].
    intros y. rewrite Hin', Hin. simpl. intuition congruence.
Qed.
End SortHead.

(** ** The Latest branch *)

Lemma valid_releases_In data r :
  In r (valid_releases data) <->
  exists d, In d data /\ cleanedVersion (tag_name d) = OK (release_version r) /\
            data_assets d = release_assets r.
Proof.
  induction data as [|d data IH]; simpl.
  - split; [contradiction | intros (d & [] & _)].
  - destruct (cleanedVersion (tag_name d)) as [v|e] eqn:E; simpl; rewrite IH.
    + split.
      * intros [<-|(d' & Hd & H)]; [exists d; simpl; auto | exists d'; tauto].
      * intros (d' & [<-|Hd] & Hv & Ha); [left | right; exists d'; auto].
        destruct r as [rv ra]; simpl in *. congruence.
    + split.
      * intros (d' & Hd & H). exists d'; tauto.
      * intros (d' & [<-|Hd] & Hv & Ha); [congruence | exists d'; auto].
Qed.

Lemma valid_releases_cleaned data :
  Forall (fun r => cleaned (release_version r)) (valid_releases data).
Proof.
  apply Forall_forall. intros r Hr. apply valid_releases_In in Hr as (d & _ & H & _).
  now exists (tag_name d).
Qed.

Lemma newest_first_before l r :
  goes_before newest_first l r <-> version_le (release_version r) (release_version l).
Proof.
  unfold goes_before, newest_first, version_le.
  destruct (Semver.compare _ _) as [c|]; split; intros (c' & E & H);
    try discriminate; exists c'; split; auto; congruence.
Qed.

Lemma newest_first_answers l r :
  cleaned (release_version l) -> cleaned (release_version r) ->
  exists c, newest_first l r = OK c.
Proof.
  intros Hl Hr. unfold newest_first.
  destruct (compare_cleaned _ _ Hr Hl) as (pa & pb & _ & _ & _ & _ & ->). eauto.
Qed.

(** The valid releases that the package compares exactly. *)
Lemma safe_releases data :
  Forall (fun r => safe (release_version r)) (valid_releases data) ->
  Forall (fun r => cleaned (release_version r) /\ safe (release_version r))
         (valid_releases data).
Proof.
  intros Hs. pose proof (valid_releases_cleaned data) as Hc.
  rewrite Forall_forall in *. auto.
Qed.

Lemma newest_first_refl x :
  cleaned (release_version x) /\ safe (release_version x) ->
  goes_before newest_first x x.
Proof. intros [Hc _]. apply newest_first_before. now apply version_le_refl. Qed.

Lemma newest_first_trans x y z :
  cleaned (release_version x) /\ safe (release_version x) ->
  cleaned (release_version y) /\ safe (release_version y) ->
  cleaned (release_version z) /\ safe (release_version z) ->
  goes_before newest_first x y -> goes_before newest_first y z ->
  goes_before newest_first x z.
Proof.
  intros [Cx Sx] [Cy Sy] [Cz Sz]. rewrite !newest_first_before. intros H1 H2.
  now apply (version_le_trans _ (release_version y)).
Qed.

Lemma newest_first_total x y :
  cleaned (release_version x) /\ safe (release_version x) ->
  cleaned (release_version y) /\ safe (release_version y) ->
  exists c, newest_first x y = OK c /\ (c <= 0 \/ goes_before newest_first y x).
Proof.
  intros [Cx Sx] [Cy Sy]. unfold newest_first.
  destruct (version_le_total _ _ Cy Cx Sy Sx) as (c & -> & H).
  exists c. split; [reflexivity|]. destruct H as [H|H]; [now left | right].
  now apply newest_first_before.
Qed.

(** [pick_latest] answers with one of the valid releases whenever there is
    one; where the package compares the versions of the list exactly, no
    valid release is newer than its answer. *)
Lemma pick_latest_greatest data :
  match valid_releases data with
  | [] => pick_latest data = Err NoMatchingRelease
  | _ :: _ =>
      exists r, pick_latest data = OK r /\ In r (valid_releases data) /\
                (Forall (fun r => safe (release_version r)) (valid_releases data) ->
                 forall r', In r' (valid_releases data) ->
                            version_le (release_version r') (release_version r))
  end.
Proof.
  unfold pick_latest. pose proof (valid_releases_cleaned data) as Hc.
  pose proof (safe_releases data) as Hs.
  destruct (valid_releases data) as [|r0 rest]; [reflexivity|].
  destruct (sort_by_answers newest_first (fun r => cleaned (release_version r))
              newest_first_answers (r0 :: rest) Hc) as (s & Es & Hin).
  rewrite Es. cbn [rbind]. destruct s as [|h s].
  { exfalso. apply (proj2 (Hin r0)). now left. }
  exists h. split; [reflexivity|]. split; [apply Hin; now left|].
  intros Hsafe r' Hr'.
  destruct (sort_by_head newest_first _ newest_first_refl newest_first_trans
              newest_first_total (r0 :: rest) (Hs Hsafe)) as (s' & Es' & Hin' & Hh).
  assert (s' = h :: s) by congruence. subst s'.
  apply newest_first_before, Hh, Hin, Hr'.
Qed.

(** ** Precedence in words *)

Lemma or_else_numbers n m rest (R : Prop) :
  (rest = -1 <-> R) ->
  (or_else (compareNumbers n m) rest = -1 <-> (n < m)%N \/ (n = m /\ R)).
Proof.
  intros HR. unfold or_else, compareNumbers.
  destruct (N.eqb_spec n m), (N.ltb_spec n m); simpl; rewrite ?HR;
    intuition (try lia).
Qed.

(** ** The package and the standard

    Where the package reads the numbers exactly, its comparison answers
    [-1] on the pairs that the standard puts in this order. *)

Lemma digits_only_numeric a : digits_only a = is_numeric a.
Proof. now destruct a. Qed.

Lemma compareIdentifiers_before x y :
  exact_id x -> exact_id y -> x <> y ->
  (compareIdentifiers x y = -1 <-> identifier_before x y = true).
Proof.
  intros Px Py Hne. unfold compareIdentifiers, identifier_before.
  rewrite !digits_only_numeric.
  destruct (is_numeric x) eqn:Nx, (is_numeric y) eqn:Ny; cbn [andb negb].
  - rewrite (exact_numeric x Px Nx), (exact_numeric y Py Ny).
    unfold compareNumbers.
    destruct (N.eqb_spec (to_number x) (to_number y)),
             (N.ltb_spec (to_number x) (to_number y)); split; intros; try lia;
      try discriminate; reflexivity.
  - destruct (String.eqb_spec x y); [contradiction|]. tauto.
  - destruct (String.eqb_spec x y); [contradiction|]. split; [lia | discriminate].
  - destruct (String.eqb_spec x y); [contradiction|].
    destruct (String.ltb x y); split; intros; try lia; try discriminate; reflexivity.
Qed.

Lemma comparePre_loop_before a b :
  exact_ids a -> exact_ids b ->
  (comparePre_loop a b = -1 <-> identifiers_before a b = true).
Proof.
  unfold exact_ids. revert b. induction a as [|x a IH]; intros [|y b] Pa Pb; simpl;
    try (split; [lia | discriminate]); [tauto|].
  apply Forall_cons_iff in Pa as [Px Pa], Pb as [Py Pb].
  destruct (String.eqb_spec x y) as [->|Hne]; [now apply IH|].
  now apply compareIdentifiers_before.
Qed.

Lemma comparePre_ids_before a b :
  exact_ids a -> exact_ids b ->
  (comparePre_ids a b = -1 <-> prerelease_before a b = true).
Proof.
  intros Pa Pb. destruct a as [|x a], b as [|y b]; simpl;
    try (split; [lia | discriminate]); [tauto|].
  apply (comparePre_loop_before (x :: a) (y :: b) Pa Pb).
Qed.

Lemma or_else_numbers_before n m rest (R : bool) :
  (rest = -1 <-> R = true) ->
  (or_else (compareNumbers n m) rest = -1
   <-> (N.ltb n m || (N.eqb n m && R))%bool = true).
Proof.
  intros HR. unfold or_else, compareNumbers.
  destruct (N.eqb_spec n m), (N.ltb_spec n m); simpl; rewrite ?HR;
    try lia; try tauto; split; intros; try lia; try discriminate; reflexivity.
Qed.

Lemma SemVer_compare_before a b :
  exact_version a -> exact_version b ->
  (SemVer_compare a b = -1 <-> semver_before a b = true).
Proof.
  intros Pa Pb. rewrite SemVer_compare_key by (apply Pa || apply Pb).
  pose proof (exact_version_key a Pa) as (_ & _ & _ & Ka).
  pose proof (exact_version_key b Pb) as (_ & _ & _ & Kb).
  unfold key_compare, lex, key, semver_before; cbn [fst snd] in *.
  repeat apply or_else_numbers_before. now apply comparePre_ids_before.
Qed.

Lemma comparePre_ids_precedes pa pb : comparePre_ids pa pb = -1 <-> pre_precedes pa pb.
Proof.
  destruct pa, pb; simpl; intuition (try lia).
Qed.

Lemma key_compare_precedes a b : key_compare (key a) (key b) = -1 <-> precedes a b.
Proof.
  unfold key_compare, lex, key, precedes; simpl.
  repeat apply or_else_numbers. apply comparePre_ids_precedes.
Qed.

Lemma SemVer_compare_precedes a b :
  parsed a -> parsed b -> (SemVer_compare a b = -1 <-> precedes a b).
Proof.
  intros Pa Pb. rewrite SemVer_compare_key by assumption.
  apply key_compare_precedes.
Qed.

Lemma v2_28_0_parsed : SemVer_new "2.28.0" = Some v2_28_0 /\ parsed v2_28_0.
Proof. split; [reflexivity | now exists "2.28.0"]. Qed.

Lemma before_2_28_0_precedes p : before_2_28_0 p = true <-> precedes p v2_28_0.
Proof.
  unfold before_2_28_0, precedes, pre_precedes, v2_28_0; simpl.
  rewrite !orb_true_iff, !andb_true_iff, negb_true_iff,
    !N.eqb_eq, !N.ltb_lt.
  destruct (prerelease p); intuition (try lia; try discriminate).
Qed.

(** On macOS the extension follows the position of the version relative to
    [2.28.0]. *)
Lemma assetExtension_macOS v :
  cleaned v ->
  exists p, SemVer_new (versionString v) = Some p /\ parsed p /\
            assetExtension macOS v
            = OK (if before_2_28_0 p then "tar.gz" else "zip").
Proof.
  intros Hv. destruct (cleaned_parsed_version v Hv) as (p & Ep & Pp & _).
  exists p. split; [exact Ep|]. split; [exact Pp|].
  destruct v2_28_0_parsed as [E0 P0].
  unfold assetExtension, Semver.compare. cbn [OsPlat_eqb negb].
  rewrite Ep, E0. f_equal.
  destruct (before_2_28_0 p) eqn:Eb.
  - apply before_2_28_0_precedes, SemVer_compare_precedes in Eb; auto.
    now rewrite Eb.
  - destruct (Z.eqb_spec (SemVer_compare p v2_28_0) (-1)) as [E|_]; [|reflexivity].
    apply SemVer_compare_precedes, before_2_28_0_precedes in E; auto. congruence.
Qed.

End ResolverFacts.

(* ================================================================== *)
(** * Facts about traces and about the steps of the action *)

Module TraceFacts.
Import StringFacts.

Lemma none_app p t1 t2 : none p (t1 ++ t2)%list = (none p t1 && none p t2)%bool.
Proof. unfold none. apply forallb_app. Qed.

Lemma none_cons p e t : none p (e :: t) = (negb (p e) && none p t)%bool.
Proof. reflexivity. Qed.

Lemma none_hit_of_find t : none is_find t = true -> none is_hit t = true.
Proof.
  unfold none. rewrite !forallb_forall. intros H e He. specialize (H e He).
  destruct e; try reflexivity; discriminate.
Qed.

Lemma quiet_app_no_hit t1 t2 :
  none is_hit t1 = true -> quiet_after_hit (t1 ++ t2)%list = quiet_after_hit t2.
Proof.
  induction t1 as [|e t1 IH]; simpl; [reflexivity|].
  rewrite andb_true_iff, negb_true_iff. intros [-> Ht]. now apply IH.
Qed.

Lemma before_none p q t : none q t = true -> none q (before p t) = true.
Proof.
  induction t as [|e t IH]; simpl; [reflexivity|].
  rewrite andb_true_iff. intros [He Ht]. destruct (p e); simpl; [reflexivity|].
  now rewrite He, IH.
Qed.

(** ** [indexOf] finds a substring exactly when there is one *)

Lemma substring_of_tail c s pat :
  String.prefix pat (String c s) = false ->
  (substring_of pat (String c s) <-> substring_of pat s).
Proof.
  intros Hp. split; intros (pre & post & E).
  - destruct pre as [|d pre]; simpl in E.
    + assert (H : String.prefix pat (String c s) = true)
        by (apply prefix_app; now exists post).
      congruence.
    + inversion E. now exists pre, post.
  - exists (String c pre), post. simpl. now rewrite E.
Qed.

Lemma indexOf_from_spec s pat : forall i,
  0 <= i ->
  (substring_of pat s /\ i <= indexOf_from i s pat) \/
  (~ substring_of pat s /\ indexOf_from i s pat = -1).
Proof.
  induction s as [|c s IH]; intros i Hi; cbn [indexOf_from].
  - destruct (String.prefix pat "") eqn:Hp.
    + left. split; [|lia]. apply prefix_app in Hp as [r Hr]. now exists "", r.
    + right. split; [|reflexivity]. intros (pre & post & E).
      destruct pre; [|discriminate]. simpl in E.
      assert (String.prefix pat "" = true) by (apply prefix_app; now exists post).
      congruence.
  - destruct (String.prefix pat (String c s)) eqn:Hp.
    + left. split; [|lia]. apply prefix_app in Hp as [r Hr]. exists "", r. exact Hr.
    + rewrite (substring_of_tail c s pat Hp).
      destruct (IH (i + 1)) as [[H1 H2]|[H1 H2]]; [lia| |].
      * left. split; [exact H1 | lia].
      * right. split; [exact H1 | exact H2].
Qed.

Lemma indexOf_negative s pat : (indexOf s pat <? 0) = true <-> ~ substring_of pat s.
Proof.
  unfold indexOf. rewrite Z.ltb_lt.
  destruct (indexOf_from_spec s pat 0) as [[H1 H2]|[H1 H2]]; [lia| |].
  - split; [lia | contradiction].
  - rewrite H2. split; [auto | lia].
Qed.

Lemma indexOf_found s pat : (indexOf s pat <? 0) = false <-> substring_of pat s.
Proof.
  unfold indexOf. rewrite Z.ltb_ge.
  destruct (indexOf_from_spec s pat 0) as [[H1 H2]|[H1 H2]]; [lia| |].
  - split; [auto | lia].
  - rewrite H2. split; [lia | contradiction].
Qed.

End TraceFacts.

Module ActionFacts.
Import StringFacts TraceFacts.

(** One case analysis on the innermost scrutinee of the goal. *)
Ltac run_step :=
  match goal with
  | |- context [match ?x with _ => _ end] =>
      lazymatch x with
      | context [match _ with _ => _ end] => fail
      | _ => let E := fresh "E" in destruct x eqn:E
      end
  end.

Ltac unfold_monad :=
  cbv beta iota delta [bind call emit lift ret throw group fst snd].

Ltac norm_hist :=
  repeat rewrite <- List.app_assoc in *; repeat rewrite List.app_nil_r in *;
  cbn [app] in *.

Lemma includes_In contents name : includes contents name = true <-> In name contents.
Proof.
  unfold includes. rewrite existsb_exists. split.
  - intros (x & Hx & E). apply String.eqb_eq in E. now subst.
  - intros H. exists name. split; [exact H | apply String.eqb_refl].
Qed.

Lemma includes_not_In contents name : includes contents name = false <-> ~ In name contents.
Proof.
  rewrite <- includes_In. destruct (includes contents name); split; congruence.
Qed.

Lemma locate_bin_cases O root base h :
  match fs_readdirSync O h root with
  | Thrown m =>
      locate_bin O root base h
      = (Err (External SvcFileSystem m), [EvReaddir root (Thrown m)])
  | Returned contents =>
      if includes contents "bin" then
        locate_bin O root base h = (OK root, [EvReaddir root (Returned contents)])
      else if includes contents base then
        let nested := path_join O root base in
        match fs_readdirSync O (h ++ [EvReaddir root (Returned contents)])%list nested with
        | Thrown m =>
            locate_bin O root base h
            = (Err (External SvcFileSystem m),
               [EvReaddir root (Returned contents); EvReaddir nested (Thrown m)])
        | Returned contents' =>
            if includes contents' "bin" then
              locate_bin O root base h
              = (OK nested, [EvReaddir root (Returned contents);
                             EvReaddir nested (Returned contents')])
            else
              locate_bin O root base h
              = (Err NoExecutableFound,
                 [EvReaddir root (Returned contents);
                  EvReaddir nested (Returned contents');
                  EvDebug ("Contents:" ++ newline ++ String.concat newline contents')])
        end
      else
        locate_bin O root base h
        = (Err NoExecutableFound,
           [EvReaddir root (Returned contents);
            EvDebug ("Contents:" ++ newline ++ String.concat newline contents)])
  end.
Proof.
  unfold locate_bin. unfold_monad.
  destruct (fs_readdirSync O h root) as [contents|m]; [|reflexivity].
  destruct (includes contents "bin") eqn:Eb; cbn [negb andb].
  - unfold_monad. rewrite Eb. reflexivity.
  - destruct (includes contents base) eqn:En; unfold_monad.
    + destruct (fs_readdirSync O _ _) as [contents'|m]; [|reflexivity].
      destruct (includes contents' "bin"); reflexivity.
    + rewrite Eb. reflexivity.
Qed.

Lemma locate_bin_errors O root base h e :
  fst (locate_bin O root base h) = Err e ->
  e = NoExecutableFound \/ exists m, e = External SvcFileSystem m.
Proof.
  pose proof (locate_bin_cases O root base h) as H. cbv zeta in H.
  repeat (match type of H with
          | context [match ?x with _ => _ end] => destruct x
          end);
    cbv zeta in H; rewrite H; simpl; intros E; inversion E; eauto.
Qed.

Lemma locate_bin_events O root base h :
  none is_work (snd (locate_bin O root base h)) = true /\
  none is_find (snd (locate_bin O root base h)) = true /\
  none is_publish (snd (locate_bin O root base h)) = true.
Proof.
  pose proof (locate_bin_cases O root base h) as H. cbv zeta in H.
  repeat (match type of H with
          | context [match ?x with _ => _ end] => destruct x
          end);
    cbv zeta in H; rewrite H; repeat split; reflexivity.
Qed.

Lemma assetExtension_values plat v ext :
  assetExtension plat v = OK ext -> ext = "zip" \/ ext = "tar.gz".
Proof.
  unfold assetExtension. destruct plat; cbn [OsPlat_eqb negb].
  - intros [= <-]; auto.
  - destruct (Semver.compare _ _) as [c|]; [|discriminate].
    destruct (c =? -1); intros [= <-]; auto.
  - intros [= <-]; auto.
Qed.

Lemma assetExtension_errors plat v e :
  assetExtension plat v = Err e -> e = SemverTypeError.
Proof.
  unfold assetExtension. destruct plat; cbn [OsPlat_eqb negb]; try discriminate.
  destruct (Semver.compare _ _) as [c|]; [discriminate | now intros [= <-]].
Qed.

(** [install], step by step. *)
Lemma install_run O plat asset v h :
  let url := browser_download_url asset in
  match tools_downloadTool O h url with
  | Thrown m =>
      install O plat asset v h
      = (Err (External SvcDownload m), [EvDownloadTool url (Thrown m)])
  | Returned file =>
      let dl := EvDownloadTool url (Returned file) in
      match assetExtension plat v with
      | Err e => install O plat asset v h = (Err e, [dl])
      | OK ext =>
          let extracted :=
            if (ext =? "zip")%string
            then (EvExtractZip file, tools_extractZip O (h ++ [dl])%list file)
            else (EvExtractTar file, tools_extractTar O (h ++ [dl])%list file) in
          match snd extracted with
          | Thrown m =>
              install O plat asset v h
              = (Err (External SvcExtract m), [dl; fst extracted (Thrown m)])
          | Returned root =>
              let ex := fst extracted (Returned root) in
              let base := path_basename O (asset_name asset) ("." ++ ext) in
              match locate_bin O root base (h ++ [dl; ex])%list with
              | (Err e, t) => install O plat asset v h = (Err e, dl :: ex :: t)
              | (OK dir, t) =>
                  let reg := EvCacheDir dir (execName plat) toolName (versionString v) in
                  match tools_cacheDir O (h ++ dl :: ex :: t)%list dir (execName plat)
                          toolName (versionString v) with
                  | Thrown m =>
                      install O plat asset v h
                      = (Err (External SvcToolCache m),
                         (dl :: ex :: t ++ [reg (Thrown m)])%list)
                  | Returned cachedPath =>
                      install O plat asset v h
                      = (OK (mkInstalled v cachedPath),
                         (dl :: ex :: t ++ [reg (Returned cachedPath)])%list)
                  end
              end
          end
      end
  end.
Proof.
  cbv zeta. unfold install. unfold_monad.
  destruct (tools_downloadTool O h (browser_download_url asset)) as [file|m];
    [|reflexivity].
  destruct (assetExtension plat v) as [ext|e] eqn:Ex; [|reflexivity].
  norm_hist.
  destruct (assetExtension_values _ _ _ Ex) as [-> | ->]; cbn [String.eqb Ascii.eqb Bool.eqb fst snd].
  - destruct (tools_extractZip O _ file) as [root|m]; [|reflexivity].
    norm_hist.
    destruct (locate_bin O root _ _) as [[dir|e] t]; [|reflexivity].
    norm_hist.
    destruct (tools_cacheDir O _ dir _ _ _) as [c|m]; norm_hist; reflexivity.
  - destruct (tools_extractTar O _ file) as [root|m]; [|reflexivity].
    norm_hist.
    destruct (locate_bin O root _ _) as [[dir|e] t]; [|reflexivity].
    norm_hist.
    destruct (tools_cacheDir O _ dir _ _ _) as [c|m]; norm_hist; reflexivity.
Qed.

(** Case analysis along [install_run]. *)
Ltac install_cases O plat asset v h :=
  let H := fresh "Hrun" in
  pose proof (install_run O plat asset v h) as H; cbv zeta in H;
  repeat (match type of H with
          | context [match ?x with _ => _ end] =>
              let E := fresh "E" in destruct x eqn:E
          end);
  rewrite H; clear H.

Lemma install_errors O plat asset v h e :
  fst (install O plat asset v h) = Err e ->
  e = SemverTypeError \/ e = NoExecutableFound \/ exists svc m, e = External svc m.
Proof.
  install_cases O plat asset v h; cbn [fst]; intros Er; inversion Er; subst; eauto;
    try match goal with
        | E : assetExtension _ _ = Err _ |- _ =>
            apply assetExtension_errors in E; subst; now auto
        end;
    match goal with
    | E : locate_bin ?O ?r ?b ?h' = (Err ?e', _) |- _ =>
        pose proof (locate_bin_errors O r b h' e') as Hl; rewrite E in Hl;
        destruct (Hl eq_refl) as [->|[m ->]]; eauto
    end.
Qed.

Lemma install_events O plat asset v h :
  none is_find (snd (install O plat asset v h)) = true /\
  none is_registry (snd (install O plat asset v h)) = true /\
  none is_publish (snd (install O plat asset v h)) = true.
Proof.
  install_cases O plat asset v h; cbn [snd];
    try (repeat split; reflexivity);
    match goal with
    | E : locate_bin ?O ?r ?b ?h' = (_, ?t) |- _ =>
        destruct (locate_bin_events O r b h') as (Hw & Hf & Hp);
        rewrite E in Hw, Hf, Hp; cbn [snd] in Hw, Hf, Hp;
        assert (Hr : none is_registry t = true)
          by (revert Hw; unfold none; rewrite !forallb_forall; intros Hw x Hx;
              specialize (Hw x Hx); unfold is_work in Hw;
              now destruct (is_registry x))
    end;
    rewrite ?none_cons, ?none_app, ?Hf, ?Hr, ?Hp; repeat split; reflexivity.
Qed.

(** A successful [install] registered the version it returns. *)
Lemma install_registers O plat asset v h iv :
  fst (install O plat asset v h) = OK iv ->
  installed_version iv = v /\
  exists dir, In (EvCacheDir dir (execName plat) toolName (versionString v)
                    (Returned (installed_path iv)))
                 (snd (install O plat asset v h)).
Proof.
  install_cases O plat asset v h; cbn [fst snd]; intros Er; inversion Er; subst.
  all: split; [reflexivity|]; eexists; cbn [installed_path];
    right; right; apply in_or_app; right; left; reflexivity.
Qed.

Lemma checkCache_cases O v h :
  match tools_find O h toolName (versionString v) with
  | Thrown m =>
      checkCache O v h
      = (Err (External SvcToolCache m),
         [EvFind toolName (versionString v) (Thrown m)])
  | Returned p =>
      if (p =? "")%string then
        checkCache O v h = (OK None, [EvFind toolName (versionString v) (Returned p)])
      else
        checkCache O v h
        = (OK (Some (mkInstalled v p)),
           [EvFind toolName (versionString v) (Returned p);
            EvInfo "Found cached version."])
  end.
Proof.
  unfold checkCache. unfold_monad.
  destruct (tools_find O h toolName (versionString v)) as [p|m]; [|reflexivity].
  destruct (p =? "")%string; reflexivity.
Qed.

(** The four ways [setAndCheckOutput] can end. *)
Lemma setAndCheckOutput_cases O plat iv h :
  let v := versionString (installed_version iv) in
  let add := EvAddPath (path_join O (installed_path iv) "bin") in
  let exec := EvExec (execName plat) ["version"] in
  exists pre,
    ((exists m, setAndCheckOutput O plat iv h
                = (Err (External SvcFileSystem m), pre ++ [EvEndGroup])%list) \/
     (exists m, setAndCheckOutput O plat iv h
                = (Err (External SvcExec m),
                   pre ++ [add; exec (Thrown m); EvEndGroup])%list) \/
     (exists out, ~ substring_of v out /\
                  setAndCheckOutput O plat iv h
                  = (Err (VerificationFailed v out),
                     pre ++ [add; exec (Returned out); EvEndGroup])%list) \/
     (exists out, substring_of v out /\
                  setAndCheckOutput O plat iv h
                  = (OK tt,
                     pre ++ [add; exec (Returned out);
                             EvSetOutput "installed-version" v; EvEndGroup])%list)) /\
    none is_work pre = true /\ none is_find pre = true /\
    none is_publish pre = true /\ none is_exec pre = true.
Proof.
  cbv zeta. unfold setAndCheckOutput. unfold_monad.
  destruct (core_isDebug O _).
  - unfold_monad.
    destruct (fs_readdirSync O _ _) as [contents|m].
    + norm_hist.
      destruct (getExecOutput O _ _ _) as [out|m].
      * destruct (indexOf out _ <? 0) eqn:Ei; unfold_monad; norm_hist;
          eexists (_ :: _ :: _ :: _ :: _ :: [_]).
        -- split; [right; right; left; exists out;
                   split; [now apply indexOf_negative | reflexivity]
                  | repeat split].
        -- split; [right; right; right; exists out;
                   split; [now apply indexOf_found | reflexivity]
                  | repeat split].
      * eexists (_ :: _ :: _ :: _ :: _ :: [_]).
        split; [right; left; exists m; reflexivity | repeat split].
    + eexists (_ :: _ :: _ :: _ :: [_]).
      split; [left; exists m; reflexivity | repeat split].
  - unfold_monad. norm_hist.
    destruct (getExecOutput O _ _ _) as [out|m].
    + destruct (indexOf out _ <? 0) eqn:Ei; unfold_monad; norm_hist; eexists [_].
      * split; [right; right; left; exists out;
                split; [now apply indexOf_negative | reflexivity]
               | repeat split].
      * split; [right; right; right; exists out;
                split; [now apply indexOf_found | reflexivity]
               | repeat split].
    + eexists [_].
      split; [right; left; exists m; reflexivity | repeat split].
Qed.



Import ResolverFacts.

Lemma release_of_data_cleaned d rel :
  release_of_data d = OK rel -> cleaned (release_version rel).
Proof.
  unfold release_of_data, rbind.
  destruct (cleanedVersion (tag_name d)) as [v|e] eqn:E; [|discriminate].
  intros [= <-]. now exists (tag_name d).
Qed.

Lemma pick_latest_cleaned data rel :
  pick_latest data = OK rel -> cleaned (release_version rel).
Proof.
  intros H. pose proof (pick_latest_greatest data) as G.
  pose proof (valid_releases_cleaned data) as C.
  destruct (valid_releases data) as [|r0 rest]; [congruence|].
  destruct G as (r & Er & Hin & _). assert (r = rel) by congruence. subst r.
  rewrite Forall_forall in C. now apply C.
Qed.

Lemma findMatchingRelease_events O version token h :
  let (r, t) := findMatchingRelease O version token h in
  none is_find t = true /\ none is_install t = true /\
  none is_publish t = true /\
  ((isStable version || isLatest version)%bool = true ->
   existsb is_registry t = true) /\
  match r with
  | OK rel =>
      cleaned (release_version rel) /\
      forall rest, before is_registry (t ++ rest)%list = []
  | Err _ => True
  end.
Proof.
  unfold findMatchingRelease.
  destruct (isStable version); [|destruct (isLatest version)]; unfold_monad.
  - destruct (octokit_getLatestRelease O h token) as [d|m]; [|repeat split].
    destruct (release_of_data d) as [rel|e] eqn:E; repeat split.
    now apply (release_of_data_cleaned d).
  - destruct (octokit_listReleases O h token 100) as [d|m]; [|repeat split].
    destruct (pick_latest d) as [rel|e] eqn:E; repeat split.
    now apply (pick_latest_cleaned d).
  - destruct (tagName version) as [tag|e];
      [|repeat split; cbn [orb]; discriminate].
    norm_hist.
    destruct (octokit_getReleaseByTag O h token tag) as [d|m]; [|repeat split].
    destruct (release_of_data d) as [rel|e] eqn:E; repeat split.
    now apply (release_of_data_cleaned d).
Qed.

Lemma installing_release_cases O plat release h :
  match assetName_of plat (osArch O) release with
  | Err e => installing_release O plat release h = (Err e, [])
  | OK name =>
      match find_asset name (release_assets release) with
      | Err e => installing_release O plat release h = (Err e, [])
      | OK asset =>
          installing_release O plat release h
          = install O plat asset (release_version release) h
      end
  end.
Proof.
  unfold installing_release. unfold_monad.
  destruct (assetName_of plat (osArch O) release) as [name|e]; [|reflexivity].
  destruct (find_asset name (release_assets release)) as [asset|e]; [|reflexivity].
  norm_hist. now destruct (install O plat asset (release_version release) h).
Qed.

Lemma installing_release_events O plat release h :
  let (r, t) := installing_release O plat release h in
  none is_find t = true /\ none is_registry t = true /\ none is_publish t = true /\
  match r with
  | OK iv =>
      installed_version iv = release_version release /\
      exists dir, In (EvCacheDir dir (execName plat) toolName
                        (versionString (release_version release))
                        (Returned (installed_path iv))) t
  | Err _ => True
  end.
Proof.
  pose proof (installing_release_cases O plat release h) as H.
  destruct (assetName_of plat (osArch O) release) as [name|e];
    [|rewrite H; repeat split].
  destruct (find_asset name (release_assets release)) as [asset|e];
    [|rewrite H; repeat split].
  rewrite H.
  pose proof (install_events O plat asset (release_version release) h) as (Hf & Hr & Hp).
  pose proof (install_registers O plat asset (release_version release) h) as Hreg.
  destruct (install O plat asset (release_version release) h) as [[iv|e] t];
    cbn [fst snd] in *; repeat split; auto; now apply Hreg.
Qed.

Lemma new_RequestedVersion_cases s :
  match new_RequestedVersion s with
  | OK r =>
      inputVersion r = s /\
      ((s = "stable" /\ isStable r = true /\ isLatest r = false /\
        semverVersion r = None) \/
       (s = "latest" /\ isStable r = false /\ isLatest r = true /\
        semverVersion r = None) \/
       (s <> "stable" /\ s <> "latest" /\ isStable r = false /\ isLatest r = false /\
        exists x, Semver.clean s = Some x /\ semverVersion r = Some (mkCleaned x)))
  | Err e =>
      s <> "stable" /\ s <> "latest" /\ Semver.clean s = None /\ e = InvalidVersion s
  end.
Proof.
  unfold new_RequestedVersion, isStable, isLatest, static_isStable, static_isLatest,
    cleanedVersion.
  destruct (String.eqb_spec s "stable") as [->|Hs]; cbn [orb].
  - split; [reflexivity|]. left. repeat split.
  - destruct (String.eqb_spec s "latest") as [->|Hl]; cbn [orb].
    + split; [reflexivity|]. right; left. repeat split.
    + destruct (Semver.clean s) as [x|] eqn:E; simpl.
      * split; [reflexivity|]. right; right.
        destruct (String.eqb_spec s "stable"), (String.eqb_spec s "latest");
          try contradiction. repeat split; auto. now exists x.
      * repeat split; auto.
Qed.

(** ** The runs of [main] *)

(** One step of [main]: a call of a sub-procedure is replaced by one of its
    outcomes, any other scrutinee is split. *)
Ltac main_step :=
  match goal with
  | |- context [checkCache ?O ?v ?h] =>
      let Hc := fresh "Hc" in
      pose proof (checkCache_cases O v h) as Hc;
      let p := fresh "p" in let m := fresh "m" in
      let Ef := fresh "Efind" in let Ep := fresh "Ehit" in
      destruct (tools_find O h toolName (versionString v)) as [p|m] eqn:Ef;
      [destruct (p =? "")%string eqn:Ep|]; rewrite Hc; clear Hc
  | |- context [setAndCheckOutput ?O ?plat ?iv ?h] =>
      let pre := fresh "pre" in let m := fresh "m" in let out := fresh "out" in
      let Hs := fresh "Hsub" in
      let Hw := fresh "Hw" in let Hf := fresh "Hf" in
      let Hp := fresh "Hp" in let He := fresh "He" in
      destruct (setAndCheckOutput_cases O plat iv h)
        as (pre & [(m & ->)|[(m & ->)|[(out & Hs & ->)|(out & Hs & ->)]]]
            & Hw & Hf & Hp & He)
  | |- context [findMatchingRelease ?O ?v ?tok ?h] =>
      let H := fresh "Hfetch" in
      pose proof (findMatchingRelease_events O v tok h) as H;
      let rel := fresh "rel" in let e := fresh "e" in let t := fresh "t" in
      let Hreg := fresh "Hreg" in let Hfl := fresh "Hfloat" in
      destruct (findMatchingRelease O v tok h) as [[rel|e] t];
      [destruct H as (? & ? & ? & Hfl & ? & Hreg) | destruct H as (? & ? & ? & Hfl & _)]
  | |- context [installing_release ?O ?plat ?rel ?h] =>
      let H := fresh "Hinst" in
      pose proof (installing_release_events O plat rel h) as H;
      let iv := fresh "iv" in let e := fresh "e" in let t := fresh "t" in
      destruct (installing_release O plat rel h) as [[iv|e] t];
      destruct H as (? & ? & ? & ?)
  | |- context [new_RequestedVersion ?s] =>
      let H := fresh "Hnew" in
      pose proof (new_RequestedVersion_cases s) as H;
      let r := fresh "req" in let e := fresh "e" in
      let E := fresh "Enew" in
      destruct (new_RequestedVersion s) as [r|e] eqn:E
  | _ => run_step
  end; unfold_monad; norm_hist.

Lemma none_nil p : none p [] = true.
Proof. reflexivity. Qed.

(** Evaluation of a trace predicate on a trace with unknown segments. *)
Ltac trace_eval :=
  repeat match goal with
    | H : (_ =? "")%string = _ |- _ => rewrite H
    | |- context [quiet_after_hit (?t ++ _)%list] =>
        rewrite (quiet_app_no_hit t) by (apply none_hit_of_find; assumption)
    | H : forall rest, before ?p (?t ++ rest)%list = [] |- context [before ?p (?t ++ _)%list] =>
        rewrite H
    | |- context [none _ (_ ++ _)%list] => rewrite none_app
    | |- context [none _ (_ :: _)] => rewrite none_cons
    | |- context [none _ []] => rewrite none_nil
    | H : none ?p ?t = true |- context [none ?p ?t] => rewrite H
    | _ => progress cbn [quiet_after_hit before is_hit is_work is_registry
                         is_install is_find is_publish negb andb orb]
    end.

Lemma none_publish_In t n x :
  none is_publish t = true -> In (EvSetOutput n x) t -> False.
Proof.
  unfold none. rewrite forallb_forall. intros H Hin. specialize (H _ Hin).
  discriminate.
Qed.

Lemma exact_cleaned s req v :
  new_RequestedVersion s = OK req -> get_cleanedVersion req = OK v ->
  Semver.clean s = Some (versionString v).
Proof.
  intros Hn Hg. pose proof (new_RequestedVersion_cases s) as H. rewrite Hn in H.
  unfold get_cleanedVersion in Hg.
  destruct H as (_ & [(_ & H1 & H2 & H3)|[(_ & H1 & H2 & H3)
                     |(_ & _ & H1 & H2 & x & Hx & H3)]]);
    rewrite H1, H2, H3 in Hg; cbn [orb] in Hg; try discriminate.
  injection Hg as <-. exact Hx.
Qed.

Ltac in_solve :=
  solve [ repeat first
            [ left; reflexivity
            | assumption
            | apply in_or_app; left; assumption
            | right
            | apply in_or_app; right ] ].

(** Splitting a membership in a trace with unknown segments. *)
Ltac in_cases H :=
  repeat (cbn [In] in H; rewrite ?in_app_iff in H);
  repeat match type of H with
    | _ \/ _ => destruct H as [H|H]
    end;
  try discriminate H; try contradiction H;
  try (exfalso; eapply none_publish_In; [|exact H]; assumption).

Lemma main_quiet O plat : quiet_after_hit (snd (main O plat [])) = true.
Proof.
  unfold main, checking_cache. unfold_monad.
  repeat main_step; trace_eval; reflexivity.
Qed.

Lemma isStable_input req : isStable req = static_isStable (inputVersion req).
Proof. reflexivity. Qed.

Lemma isLatest_input req : isLatest req = static_isLatest (inputVersion req).
Proof. reflexivity. Qed.

(** With [stable] or [latest], no cache check comes before the registry, and
    the registry is asked as soon as both inputs were read. *)
Lemma main_floating O plat s :
  version_input (snd (main O plat [])) = Some s ->
  (static_isStable s || static_isLatest s)%bool = true ->
  none is_find (before is_registry (snd (main O plat []))) = true /\
  (forall tok, In (EvGetInput "github-token" (Returned tok)) (snd (main O plat [])) ->
               existsb is_registry (snd (main O plat [])) = true).
Proof.
  unfold main, checking_cache. unfold_monad.
  repeat main_step; cbn [version_input]; intros Hin Hmode; try discriminate Hin;
    injection Hin as <-;
    try (destruct Hnew as [Hi _]; rewrite isStable_input, isLatest_input, Hi in *;
         rewrite <- negb_orb, Hmode in *; discriminate).
  all: split;
    [ trace_eval; try reflexivity; apply before_none; trace_eval; reflexivity |].
  all: intros tok Htok; in_cases Htok.
  all: destruct Hnew as [Hi _];
    rewrite isStable_input, isLatest_input, Hi in Hfloat;
    specialize (Hfloat Hmode).
  all: cbn [existsb is_registry orb]; rewrite existsb_app, Hfloat; reflexivity.
Qed.

Lemma get_cleanedVersion_exact req s x :
  inputVersion req = s ->
  (static_isStable s || static_isLatest s)%bool = false ->
  semverVersion req = Some (mkCleaned x) ->
  get_cleanedVersion req = OK (mkCleaned x).
Proof.
  intros Hi Hm Hs. unfold get_cleanedVersion.
  now rewrite isStable_input, isLatest_input, Hi, Hm, Hs.
Qed.

(** With an exact version, nothing is fetched or installed before the first
    cache check, which asks for the cleaned input; when it hits, nothing is
    fetched or installed at all. *)
Lemma main_exact O plat s :
  version_input (snd (main O plat [])) = Some s ->
  (static_isStable s || static_isLatest s)%bool = false ->
  none is_work (before is_find (snd (main O plat []))) = true /\
  forall e, List.find is_find (snd (main O plat [])) = Some e ->
    (exists x p, Semver.clean s = Some x /\ e = EvFind toolName x p) /\
    (is_hit e = true -> none is_work (snd (main O plat [])) = true).
Proof.
  unfold main, checking_cache. unfold_monad.
  repeat main_step; cbn [version_input]; intros Hin Hmode; try discriminate Hin;
    injection Hin as <-;
    try (destruct Hnew as [Hi _]; rewrite isStable_input, isLatest_input, Hi in *;
         rewrite <- negb_orb, Hmode in *; discriminate).
  all: try (destruct Hnew as (Hi & [(-> & _)|[(-> & _)|(_ & _ & _ & _ & x & Hx & Hsem)]]);
            try discriminate Hmode;
            rewrite (get_cleanedVersion_exact _ _ _ Hi Hmode Hsem) in *;
            try discriminate;
            match goal with H : OK _ = OK _ |- _ => injection H as <- end).
  all: (split; [cbn [before is_find]; trace_eval; reflexivity|]).
  all: cbn [List.find is_find]; intros ev Hev; try discriminate Hev.
  all: try (injection Hev as <-;
            split; [eexists; eexists; split; [eassumption | reflexivity]|];
            cbn [is_hit]; rewrite ?Ehit; cbn [negb]; intros Hh; try discriminate Hh;
            trace_eval; reflexivity).
Qed.




End ActionFacts.

(* ================================================================== *)
(** * The properties of the specification *)

Import Semver SemverOrder StringFacts SemverFacts ResolverFacts TraceFacts ActionFacts.

Lemma version_le_not_before a b pa pb :
  cleaned a -> cleaned b -> safe a -> safe b ->
  SemVer_new (versionString a) = Some pa ->
  SemVer_new (versionString b) = Some pb ->
  version_le a b -> semver_before pb pa = false.
Proof.
  intros Ha Hb Sa Sb Ea Eb (c & Ec & Hc).
  destruct (compare_exact a b Ha Hb Sa Sb) as (pa' & pb' & Ea' & Pa & Eb' & Pb & E).
  assert (pa' = pa) by congruence. assert (pb' = pb) by congruence. subst pa' pb'.
  destruct (semver_before pb pa) eqn:Hp; [|reflexivity].
  apply SemVer_compare_before in Hp; auto.
  rewrite (ol_anti _ _ SemVer_compare_order pa pb Pa Pb) in Hp.
  assert (c = SemVer_compare pa pb) by congruence. lia.
Qed.

(** C1: Latest-mode resolution keeps exactly the releases whose tag cleans
    to a version (the others are skipped, never an error), fails with
    [NoMatchingRelease] when none is left, and otherwise returns one of the
    kept releases.  Where every numeric pre-release identifier of the kept
    releases is at most 2^53 - 1, no kept release is newer than the one
    returned, under the comparison of the package and under the precedence
    of the standard (major, minor, patch, a pre-release before its
    release); over the tags v2.0.0, not-a-version, v1.9.9, v2.0.0-rc1,
    which are of that kind, it returns the release 2.0.0.  In the Latest
    branch [findMatchingRelease] is one call of the registry for a page of
    100 releases followed by this choice. *)
Theorem latest_resolution (data : list ReleaseData) :
  (forall r, In r (valid_releases data) <->
             exists d, In d data /\
                       cleanedVersion (tag_name d) = OK (release_version r) /\
                       data_assets d = release_assets r) /\
  (valid_releases data = [] -> pick_latest data = Err NoMatchingRelease) /\
  (valid_releases data <> [] ->
   exists r, pick_latest data = OK r /\ In r (valid_releases data) /\
     (Forall (fun r' => safe (release_version r')) (valid_releases data) ->
      forall r', In r' (valid_releases data) ->
        version_le (release_version r') (release_version r) /\
        forall p p',
          SemVer_new (versionString (release_version r)) = Some p ->
          SemVer_new (versionString (release_version r')) = Some p' ->
          semver_before p p' = false)) /\
  (Forall (fun r' => safe (release_version r')) (valid_releases synthetic_releases) /\
   pick_latest synthetic_releases
   = OK (mkRelease (mkCleaned "2.0.0") [mkAsset "a" "u1" "d1"])) /\
  (forall O token h version,
     isStable version = false -> isLatest version = true ->
     findMatchingRelease O version token h
     = match octokit_listReleases O h token 100 with
       | Returned d => (pick_latest d, [EvListReleases 100 (Returned d)])
       | Thrown m => (Err (External SvcRegistry m), [EvListReleases 100 (Thrown m)])
       end).
Proof.
  split; [intros r; apply valid_releases_In|].
  pose proof (pick_latest_greatest data) as G.
  pose proof (valid_releases_cleaned data) as C. rewrite Forall_forall in C.
  split; [|split; [|split]].
  - intros E. now rewrite E in G.
  - intros N. destruct (valid_releases data) as [|r0 rest] eqn:E; [contradiction|].
    destruct G as (r & Hr & Hin & Hmax). exists r. split; [exact Hr|].
    split; [exact Hin|]. intros Hsafe r' Hr'.
    pose proof (Hmax Hsafe r' Hr') as Hle. split; [exact Hle|].
    intros p p' Ep Ep'. rewrite Forall_forall in Hsafe.
    apply (version_le_not_before (release_version r') (release_version r)); auto.
  - split; [|reflexivity].
    let l := eval vm_compute in (valid_releases synthetic_releases) in
    change (valid_releases synthetic_releases) with l.
    repeat (constructor; [vm_compute; reflexivity|]). constructor.
  - intros O token h version Hs Hl. unfold findMatchingRelease.
    rewrite Hs, Hl. unfold_monad.
    destruct (octokit_listReleases O h token 100) as [d|m]; [|reflexivity].
    now rewrite List.app_nil_r.
Qed.

(** On two releases whose versions differ in a numeric pre-release
    identifier above 2^53, the first listed is returned although the
    standard puts the second after it: the package compares the two
    identifiers as the same double. *)
Lemma latest_resolution_counterexample :
  exists r r' p p',
    pick_latest rounded_releases = OK r /\
    In r' (valid_releases rounded_releases) /\
    SemVer_new (versionString (release_version r)) = Some p /\
    SemVer_new (versionString (release_version r')) = Some p' /\
    semver_before p p' = true.
Proof.
  exists (mkRelease (mkCleaned "1.0.0-9007199254740992") [mkAsset "e" "u5" "d5"]),
         (mkRelease (mkCleaned "1.0.0-9007199254740993") [mkAsset "f" "u6" "d6"]),
         (mkSemVer 1 0 0 ["9007199254740992"]), (mkSemVer 1 0 0 ["9007199254740993"]).
  split; [vm_compute; reflexivity|]. split; [right; left; reflexivity|].
  split; [vm_compute; reflexivity|]. split; vm_compute; reflexivity.
Qed.

(** C2: for a cleaned version, [assetExtension] is [zip] on windows and
    [tar.gz] on linux; on macOS it is [tar.gz] when the version precedes
    2.28.0 and [zip] otherwise, so 2.27.9 gives [tar.gz] and 2.28.0 and
    2.30.0 give [zip]. *)
Theorem assetExtension_rule (s : string) (v : ICleanedVersion) :
  cleanedVersion s = OK v ->
  assetExtension windows v = OK "zip" /\
  assetExtension linux v = OK "tar.gz" /\
  (exists p, SemVer_new (versionString v) = Some p /\
             (precedes p v2_28_0 -> assetExtension macOS v = OK "tar.gz") /\
             (~ precedes p v2_28_0 -> assetExtension macOS v = OK "zip") /\
             (before_2_28_0 p = true <-> precedes p v2_28_0)) /\
  assetExtension macOS (mkCleaned "2.27.9") = OK "tar.gz" /\
  assetExtension macOS (mkCleaned "2.28.0") = OK "zip" /\
  assetExtension macOS (mkCleaned "2.30.0") = OK "zip".
Proof.
  intros Hv. split; [reflexivity|]. split; [reflexivity|].
  split; [|repeat split].
  destruct (assetExtension_macOS v (ex_intro _ s Hv)) as (p & Ep & Pp & Ex).
  exists p. split; [exact Ep|]. rewrite Ex.
  pose proof (before_2_28_0_precedes p) as Hb.
  destruct (before_2_28_0 p).
  - split; [reflexivity|]. split; [|exact Hb].
    intros N. exfalso. apply N. now apply Hb.
  - split; [|split; [reflexivity | exact Hb]].
    intros H. apply Hb in H. discriminate.
Qed.

Lemma assetExtension_rule_witness :
  cleanedVersion "v2.27.9" = OK (mkCleaned "2.27.9") /\
  assetExtension windows (mkCleaned "2.27.9") = OK "zip".
Proof.
  split; [reflexivity|].
  exact (proj1 (assetExtension_rule "v2.27.9" (mkCleaned "2.27.9") eq_refl)).
Defined.

Lemma find_asset_OK name assets a :
  find_asset name assets = OK a <->
  List.find (fun a => (asset_name a =? name)%string) assets = Some a.
Proof.
  unfold find_asset. destruct (List.find _ assets).
  - split; intros [= ->]; reflexivity.
  - split; discriminate.
Qed.

Lemma find_asset_missing name assets :
  (exists e, find_asset name assets = Err e) <->
  forall a, In a assets -> asset_name a <> name.
Proof.
  unfold find_asset.
  destruct (List.find _ assets) as [a|] eqn:E.
  - apply find_some in E as [Hin Hn]. apply String.eqb_eq in Hn. split.
    + intros [e He]. discriminate.
    + intros H. exfalso. now apply (H a).
  - split; [|eauto]. intros _ a Hin Hn.
    apply (find_none _ _ E) in Hin. apply String.eqb_neq in Hin. contradiction.
Qed.

(** C3: the earlier revision builds the asset name with
    [`${assetExtension}`], the function itself where the latest revision
    calls it: the name it looks for is "gh_" + version + "_" + osPlat + "_"
    + osArch + "." + the text of the function, which differs from the name
    with any other extension.  So the installing step fails with
    [AssetNotFound], before any outside call, whenever no asset is named
    after that text, also when the asset with the extension of the version
    is listed. *)
Theorem earlier_asset_lookup (O : Oracle) (plat : OsPlat) (text : string)
    (release : ReleaseData) (h : Trace) (version : string) :
  Earlier.cleanedVersion (tag_name release) = OK version ->
  let name ext := "gh_" ++ version ++ "_" ++ OsPlat_string plat ++ "_"
                  ++ osArch O ++ "." ++ ext in
  (forall a, In a (data_assets release) -> asset_name a <> name text) ->
  Earlier.installing_release O plat text release h
  = (Err (AssetNotFound (name text)), []) /\
  (forall ext, ext <> text -> name ext <> name text).
Proof.
  intros Hv name Hall. split.
  - unfold Earlier.installing_release. unfold_monad. rewrite Hv.
    destruct (proj2 (find_asset_missing (name text) _) Hall) as [e He].
    assert (e = AssetNotFound (name text)) as ->.
    { unfold find_asset in He. destruct (List.find _ _); [discriminate|].
      now injection He as <-. }
    fold (osArch O). fold (name text). rewrite He. reflexivity.
  - intros ext Hne E. apply Hne. unfold name in E.
    repeat (apply append_inj_l in E). exact E.
Qed.

Lemma earlier_asset_lookup_witness :
  Earlier.assetExtension linux "2.40.0" = OK "tar.gz" /\
  (exists a, In a (data_assets sample_release) /\
             asset_name a = "gh_2.40.0_linux_amd64.tar.gz") /\
  Earlier.installing_release sample_oracle linux
    "function assetExtension(version) { ... }" sample_release []
  = (Err (AssetNotFound
            "gh_2.40.0_linux_amd64.function assetExtension(version) { ... }"),
     []).
Proof.
  split; [reflexivity|]. split.
  - eexists. split; [right; left; reflexivity | reflexivity].
  - refine (proj1 (earlier_asset_lookup sample_oracle linux
                     "function assetExtension(version) { ... }"
                     sample_release [] "2.40.0" eq_refl _)).
    intros a [<-|[<-|[]]]; discriminate.
Defined.

(** C4: the constructor puts every input in exactly one of three classes:
    "stable" and "latest" give a specifier without a version; any other
    input is cleaned, and the constructor fails with [InvalidVersion] when
    cleaning fails and otherwise holds the cleaned version. *)
Theorem specifier_classification (s : string) :
  match new_RequestedVersion s with
  | OK r =>
      inputVersion r = s /\
      ((s = "stable" /\ isStable r = true /\ isLatest r = false /\
        semverVersion r = None) \/
       (s = "latest" /\ isStable r = false /\ isLatest r = true /\
        semverVersion r = None) \/
       (s <> "stable" /\ s <> "latest" /\ isStable r = false /\ isLatest r = false /\
        exists x, Semver.clean s = Some x /\ semverVersion r = Some (mkCleaned x) /\
                  get_cleanedVersion r = OK (mkCleaned x)))
  | Err e =>
      s <> "stable" /\ s <> "latest" /\ Semver.clean s = None /\ e = InvalidVersion s
  end.
Proof.
  pose proof (new_RequestedVersion_cases s) as H.
  destruct (new_RequestedVersion s) as [r|e]; [|exact H].
  destruct H as (Hi & [H|[H|(H1 & H2 & H3 & H4 & x & Hx & Hs)]]); split; auto.
  right; right. repeat split; auto. exists x. repeat split; auto.
  unfold get_cleanedVersion. now rewrite H3, H4, Hs.
Qed.

(** C6: on a specifier built from "stable" or "latest" both [cleanedVersion]
    and [tagName] fail with [NotAnExactVersion]; on a specifier built from
    any other accepted input [tagName] is "v" followed by the cleaned
    version, so that 1.2.3 gives v1.2.3. *)
Theorem tagName_rule :
  (forall r, (isStable r || isLatest r)%bool = true ->
     get_cleanedVersion r = Err (NotAnExactVersion (inputVersion r)) /\
     tagName r = Err (NotAnExactVersion (inputVersion r))) /\
  (forall s r, new_RequestedVersion s = OK r ->
     (isStable r || isLatest r)%bool = false ->
     exists x, Semver.clean s = Some x /\
               get_cleanedVersion r = OK (mkCleaned x) /\
               tagName r = OK ("v" ++ x)) /\
  rbind (new_RequestedVersion "1.2.3") tagName = OK "v1.2.3" /\
  rbind (new_RequestedVersion "stable") tagName = Err (NotAnExactVersion "stable") /\
  rbind (new_RequestedVersion "latest") tagName = Err (NotAnExactVersion "latest").
Proof.
  split; [|split; [|repeat split]].
  - intros r H. unfold tagName, get_cleanedVersion. now rewrite H.
  - intros s r Hn Hm. pose proof (new_RequestedVersion_cases s) as H. rewrite Hn in H.
    apply orb_false_iff in Hm as [Hs Hl].
    destruct H as (_ & [(_ & H & _)|[(_ & _ & H & _)|(_ & _ & _ & _ & x & Hx & Hv)]]);
      try congruence.
    exists x. split; [exact Hx|].
    unfold tagName, get_cleanedVersion. now rewrite Hs, Hl, Hv.
Qed.

(** C5: the executable directory is the extraction root when the root lists
    [bin]; otherwise, when the root lists the asset's base name, it is that
    entry if the entry lists [bin]; in every other case the step fails with
    [NoExecutableFound], and the root is then the only directory listed
    unless the descent was made.  [install] takes the step on what the
    extraction returned, with the asset name less "." and the extension as
    base name, and registers the directory it gives. *)
Theorem bin_directory (O : Oracle) (root base : string) (h : Trace) :
  let nested := path_join O root base in
  (forall contents,
     fs_readdirSync O h root = Returned contents ->
     let listed := EvReaddir root (Returned contents) in
     (In "bin" contents -> locate_bin O root base h = (OK root, [listed])) /\
     (~ In "bin" contents -> ~ In base contents ->
      fst (locate_bin O root base h) = Err NoExecutableFound /\
      filter is_readdir (snd (locate_bin O root base h)) = [listed]) /\
     (~ In "bin" contents -> In base contents ->
      forall contents',
        fs_readdirSync O (h ++ [listed])%list nested = Returned contents' ->
        let listed' := EvReaddir nested (Returned contents') in
        (In "bin" contents' ->
         locate_bin O root base h = (OK nested, [listed; listed'])) /\
        (~ In "bin" contents' ->
         fst (locate_bin O root base h) = Err NoExecutableFound /\
         filter is_readdir (snd (locate_bin O root base h)) = [listed; listed']))) /\
  (forall plat asset v ext file dir,
     tools_downloadTool O h (browser_download_url asset) = Returned file ->
     assetExtension plat v = OK ext ->
     (if (ext =? "zip")%string
      then tools_extractZip O (h ++ [EvDownloadTool (browser_download_url asset)
                                       (Returned file)])%list file
      else tools_extractTar O (h ++ [EvDownloadTool (browser_download_url asset)
                                       (Returned file)])%list file)
     = Returned dir ->
     dir = root -> path_basename O (asset_name asset) ("." ++ ext) = base ->
     let dl := EvDownloadTool (browser_download_url asset) (Returned file) in
     let ex := (if (ext =? "zip")%string then EvExtractZip file else EvExtractTar file)
                 (Returned root) in
     match locate_bin O root base (h ++ [dl; ex])%list with
     | (Err e, t) => install O plat asset v h = (Err e, dl :: ex :: t)
     | (OK bin_root, t) =>
         exists answer,
           snd (install O plat asset v h)
           = (dl :: ex :: t ++ [EvCacheDir bin_root (execName plat) toolName
                                  (versionString v) answer])%list
     end).
Proof.
  cbv zeta. split.
  - intros contents Hc. pose proof (locate_bin_cases O root base h) as H.
    rewrite Hc in H. cbv zeta in H.
    split; [|split].
    + intros Hb. apply includes_In in Hb. now rewrite Hb in H.
    + intros Hb Hn. apply includes_not_In in Hb, Hn. rewrite Hb, Hn in H.
      now rewrite H.
    + intros Hb Hn contents' Hc'. apply includes_not_In in Hb.
      apply includes_In in Hn. rewrite Hb, Hn, Hc' in H.
      split.
      * intros Hb'. apply includes_In in Hb'. now rewrite Hb' in H.
      * intros Hb'. apply includes_not_In in Hb'. rewrite Hb' in H. now rewrite H.
  - intros plat asset v ext file dir Hd Hx He -> <-.
    pose proof (install_run O plat asset v h) as H. cbv zeta in H.
    rewrite Hd, Hx in H.
    destruct (assetExtension_values _ _ _ Hx) as [-> | ->];
      cbn [String.eqb Ascii.eqb Bool.eqb fst snd] in H, He |- *;
      rewrite He in H;
      destruct (locate_bin O root _ _) as [[bin_root|e] t]; try exact H;
      destruct (tools_cacheDir O _ _ _ _ _) as [c|m]; rewrite H; eexists; reflexivity.
Qed.

Lemma bin_directory_witness :
  fs_readdirSync sample_oracle [] "/tmp/extract"
  = Returned ["gh_2.40.0_linux_amd64"] /\
  locate_bin sample_oracle "/tmp/extract" "gh_2.40.0_linux_amd64" []
  = (OK "/tmp/extract/gh_2.40.0_linux_amd64",
     [EvReaddir "/tmp/extract" (Returned ["gh_2.40.0_linux_amd64"]);
      EvReaddir "/tmp/extract/gh_2.40.0_linux_amd64"
        (Returned ["LICENSE"; "bin"; "share"])]).
Proof.
  split; [reflexivity|].
  destruct (bin_directory sample_oracle "/tmp/extract" "gh_2.40.0_linux_amd64" [])
    as [H _].
  destruct (H ["gh_2.40.0_linux_amd64"] eq_refl) as (_ & _ & Hnested).
  refine (proj1 (Hnested _ _ ["LICENSE"; "bin"; "share"] eq_refl) _).
  - intros [E|[]]. discriminate E.
  - left. reflexivity.
  - right. left. reflexivity.
Defined.

(** C7: in every run of [main], no registry, download, extraction or
    cache-registration call follows a cache check that found an
    installation; with "stable" or "latest" no cache check is made before
    the registry is asked, and the registry is asked once both inputs were
    read; with any other accepted input nothing is fetched or installed
    before the first cache check, which asks for the cleaned input, and when
    that check hits nothing is fetched or installed at all. *)
Theorem cache_hit_short_circuit (O : Oracle) (plat : OsPlat) :
  let t := snd (main O plat []) in
  quiet_after_hit t = true /\
  (forall s, version_input t = Some s ->
     (static_isStable s || static_isLatest s)%bool = true ->
     none is_find (before is_registry t) = true /\
     (forall tok, In (EvGetInput "github-token" (Returned tok)) t ->
                  existsb is_registry t = true)) /\
  (forall s, version_input t = Some s ->
     (static_isStable s || static_isLatest s)%bool = false ->
     none is_work (before is_find t) = true /\
     forall e, List.find is_find t = Some e ->
       (exists x p, Semver.clean s = Some x /\ e = EvFind toolName x p) /\
       (is_hit e = true -> none is_work t = true)).
Proof.
  cbv zeta. split; [apply main_quiet|]. split.
  - intros s. apply main_floating.
  - intros s. apply main_exact.
Qed.

Lemma cache_hit_short_circuit_witness :
  version_input
    (snd (main (sample_oracle_with "v2.40.0" "/opt/hostedtoolcache/gh-cli/2.40.0")
            linux []))
  = Some "v2.40.0" /\
  none is_work
    (snd (main (sample_oracle_with "v2.40.0" "/opt/hostedtoolcache/gh-cli/2.40.0")
            linux []))
  = true.
Proof.
  split; [reflexivity|].
  destruct (cache_hit_short_circuit
              (sample_oracle_with "v2.40.0" "/opt/hostedtoolcache/gh-cli/2.40.0")
              linux) as (_ & _ & H).
  destruct (H "v2.40.0" eq_refl eq_refl) as [_ Hfirst].
  exact (proj2 (Hfirst _ eq_refl) eq_refl).
Defined.

Lemma none_work_extract t : none is_work t = true -> none is_extract t = true.
Proof.
  unfold none. rewrite !forallb_forall. intros H e He. specialize (H e He).
  destruct e; try reflexivity; discriminate.
Qed.

(** C8: [assetExtension] only ever answers [zip] or [tar.gz], and does
    answer for every cleaned version; after the download [install] extracts
    with the zip extractor for [zip] and with the tar extractor for
    [tar.gz], once; and [install] never fails with [UnsupportedExtension]. *)
Theorem extension_dispatch (O : Oracle) (plat : OsPlat) (asset : IReleaseAsset)
    (v : ICleanedVersion) (h : Trace) :
  (forall ext, assetExtension plat v = OK ext -> ext = "zip" \/ ext = "tar.gz") /\
  (cleaned v ->
   assetExtension plat v = OK "zip" \/ assetExtension plat v = OK "tar.gz") /\
  (forall file,
     tools_downloadTool O h (browser_download_url asset) = Returned file ->
     let dl := EvDownloadTool (browser_download_url asset) (Returned file) in
     (assetExtension plat v = OK "zip" ->
      filter is_extract (snd (install O plat asset v h))
      = [EvExtractZip file (tools_extractZip O (h ++ [dl])%list file)]) /\
     (assetExtension plat v = OK "tar.gz" ->
      filter is_extract (snd (install O plat asset v h))
      = [EvExtractTar file (tools_extractTar O (h ++ [dl])%list file)])) /\
  (forall ext, fst (install O plat asset v h) <> Err (UnsupportedExtension ext)).
Proof.
  split; [intros ext; apply assetExtension_values|]. split; [|split].
  - intros Hv. destruct plat; [now right| |now left].
    destruct (assetExtension_macOS v Hv) as (p & _ & _ & ->).
    destruct (before_2_28_0 p); auto.
  - intros file Hd. cbv zeta.
    pose proof (install_run O plat asset v h) as H. cbv zeta in H. rewrite Hd in H.
    assert (Hl : forall r b h', filter is_extract (snd (locate_bin O r b h')) = []).
    { intros r b h'. destruct (locate_bin_events O r b h') as (Hw & _).
      apply none_work_extract in Hw. revert Hw. unfold none.
      generalize (snd (locate_bin O r b h')). intros l.
      induction l as [|e l IH]; [reflexivity|].
      cbn [forallb filter]. destruct (is_extract e); [discriminate|]. exact IH. }
    split; intros Hx; rewrite Hx in H;
      cbn [String.eqb Ascii.eqb Bool.eqb fst snd] in H.
    + destruct (tools_extractZip O _ file) as [root|m]; [|now rewrite H].
      match type of H with
      | context [locate_bin ?O' ?r ?b ?h'] =>
          specialize (Hl r b h'); destruct (locate_bin O' r b h') as [[d|e] t]
      end; cbn [snd] in Hl.
      * destruct (tools_cacheDir O _ _ _ _ _); rewrite H; cbn [snd filter is_extract];
          rewrite filter_app, Hl; reflexivity.
      * rewrite H. cbn [snd filter is_extract]. now rewrite Hl.
    + destruct (tools_extractTar O _ file) as [root|m]; [|now rewrite H].
      match type of H with
      | context [locate_bin ?O' ?r ?b ?h'] =>
          specialize (Hl r b h'); destruct (locate_bin O' r b h') as [[d|e] t]
      end; cbn [snd] in Hl.
      * destruct (tools_cacheDir O _ _ _ _ _); rewrite H; cbn [snd filter is_extract];
          rewrite filter_app, Hl; reflexivity.
      * rewrite H. cbn [snd filter is_extract]. now rewrite Hl.
  - intros ext He. apply install_errors in He.
    destruct He as [He|[He|(svc & m & He)]]; discriminate.
Qed.

Lemma extension_dispatch_witness :
  assetExtension linux (mkCleaned "2.40.0") = OK "tar.gz" /\
  filter is_extract
    (snd (install sample_oracle linux
            (mkAsset "gh_2.40.0_linux_amd64.tar.gz" "https://api.example/assets/2"
               "https://dl.example/gh_2.40.0_linux_amd64.tar.gz")
            (mkCleaned "2.40.0") []))
  = [EvExtractTar "/tmp/download" (Returned "/tmp/extract")].
Proof.
  split; [reflexivity|].
  destruct (extension_dispatch sample_oracle linux
              (mkAsset "gh_2.40.0_linux_amd64.tar.gz" "https://api.example/assets/2"
                 "https://dl.example/gh_2.40.0_linux_amd64.tar.gz")
              (mkCleaned "2.40.0") []) as (_ & _ & H & _).
  exact (proj2 (H "/tmp/download" eq_refl) eq_refl).
Defined.





Lemma clean_nonempty s x : Semver.clean s = Some x -> (x =? "")%string = false.
Proof.
  intros H. destruct (clean_Some _ _ H) as (v & Hp & _).
  destruct (parse_body_chars _ _ Hp) as (_ & d & r & -> & _). reflexivity.
Qed.

(** C10: for every input the constructor accepts, the first cache check of
    the earlier revision, which cleans "v" + cleaned version again, and the
    one of the latest revision, which uses the cleaned version as it is,
    make the same calls and return the same installation: cleaning
    "v" + clean(s) gives clean(s), so both ask the tool cache for
    ([gh-cli], clean(s)). *)
Theorem cache_key_equivalence (O : Oracle) (s : string) (h : Trace)
    (r0 : Earlier.RequestedVersion) (r1 : RequestedVersion) :
  Earlier.new_RequestedVersion s = OK r0 ->
  new_RequestedVersion s = OK r1 ->
  Earlier.checking_cache O r0 h
  = (forget_result (fst (checking_cache O r1 h)), snd (checking_cache O r1 h)) /\
  (forall x, Semver.clean s = Some x -> Semver.clean ("v" ++ x) = Some x) /\
  ((static_isStable s || static_isLatest s)%bool = false ->
   exists x, Semver.clean s = Some x /\
             Earlier.tagName r0 = OK ("v" ++ x) /\
             Earlier.cleanedVersion ("v" ++ x) = OK x /\
             get_cleanedVersion r1 = OK (mkCleaned x) /\
             cache_keys (snd (Earlier.checking_cache O r0 h)) = [(toolName, x)] /\
             cache_keys (snd (checking_cache O r1 h)) = [(toolName, x)]).
Proof.
  intros H0 H1.
  split; [|split; [intros x; apply clean_v_idempotent|]].
  - unfold Earlier.new_RequestedVersion, new_RequestedVersion in H0, H1.
    unfold Earlier.checking_cache, checking_cache, Earlier.isStable, Earlier.isLatest,
      isStable, isLatest.
    destruct (static_isStable s || static_isLatest s)%bool eqn:Em.
    + injection H0 as <-. injection H1 as <-. cbn [Earlier.inputVersion inputVersion].
      rewrite <- negb_orb, Em. reflexivity.
    + unfold Earlier.cleanedVersion, cleanedVersion in H0, H1.
      destruct (Semver.clean s) as [x|] eqn:Ex; [|discriminate].
      cbn [rbind] in H0, H1. injection H0 as <-. injection H1 as <-.
      cbn [Earlier.inputVersion inputVersion].
      rewrite <- negb_orb, Em. cbn [negb].
      unfold Earlier.tagName, get_cleanedVersion, Earlier.isStable, Earlier.isLatest,
        isStable, isLatest, Earlier.checkCache, checkCache, Earlier.cleanedVersion.
      cbn [Earlier.inputVersion inputVersion Earlier.semverVersion semverVersion].
      rewrite Em, (clean_nonempty _ _ Ex). unfold_monad.
      rewrite (clean_v_idempotent _ _ Ex). norm_hist. cbn [versionString].
      destruct (tools_find O _ toolName x) as [p|m]; [|reflexivity].
      destruct (p =? "")%string; reflexivity.
  - intros Em. unfold Earlier.new_RequestedVersion, new_RequestedVersion in H0, H1.
    rewrite Em in H0, H1.
    unfold Earlier.cleanedVersion, cleanedVersion in H0, H1.
    destruct (Semver.clean s) as [x|] eqn:Ex; [|discriminate].
    cbn [rbind] in H0, H1. injection H0 as <-. injection H1 as <-.
    exists x. split; [reflexivity|].
    unfold Earlier.checking_cache, checking_cache, Earlier.tagName, get_cleanedVersion,
      Earlier.isStable, Earlier.isLatest, isStable, isLatest,
      Earlier.checkCache, checkCache, Earlier.cleanedVersion.
    cbn [Earlier.inputVersion inputVersion Earlier.semverVersion semverVersion].
    rewrite <- negb_orb, Em, (clean_nonempty _ _ Ex), (clean_v_idempotent _ _ Ex).
    cbn [negb]. unfold_monad. rewrite (clean_v_idempotent _ _ Ex). norm_hist.
    cbn [versionString].
    repeat split.
    + destruct (tools_find O _ toolName x) as [p|m]; [|reflexivity].
      destruct (p =? "")%string; reflexivity.
    + destruct (tools_find O _ toolName x) as [p|m]; [|reflexivity].
      destruct (p =? "")%string; reflexivity.
Qed.

Lemma cache_key_equivalence_witness :
  Earlier.new_RequestedVersion "v1.2.3" = OK (Earlier.mkRequested "v1.2.3" (Some "1.2.3")) /\
  new_RequestedVersion "v1.2.3" = OK (mkRequested "v1.2.3" (Some (mkCleaned "1.2.3"))) /\
  Earlier.checking_cache sample_oracle
    (Earlier.mkRequested "v1.2.3" (Some "1.2.3")) []
  = (forget_result
       (fst (checking_cache sample_oracle
               (mkRequested "v1.2.3" (Some (mkCleaned "1.2.3"))) [])),
     snd (checking_cache sample_oracle
            (mkRequested "v1.2.3" (Some (mkCleaned "1.2.3"))) [])).
Proof.
  split; [reflexivity|]. split; [reflexivity|].
  exact (proj1 (cache_key_equivalence sample_oracle "v1.2.3" [] _ _ eq_refl eq_refl)).
Defined.

(* ================================================================== *)
(** * Facts about cleaned versions and names *)

Module NameFacts.
(** A cleaned version cleans to itself. *)
Lemma clean_fixed s x : clean s = Some x -> clean x = Some x.
Proof.
  intros H. destruct (clean_Some _ _ H) as (v & Hp & Hf & Hl).
  destruct (parse_body_chars _ _ Hp) as [Hc (d & r & E & Hd)].
  unfold clean.
  assert (Ht : trim x = x).
  { apply trim_id. revert Hc; apply all_chars_impl.
    intros c Hb. now destruct (body_char_plain c Hb) as [-> _]. }
  assert (Hs : strip_eq_v x = x).
  { rewrite E. destruct (digit_plain d Hd) as (_ & He & Hv).
    unfold strip_eq_v. simpl. now rewrite He, Hv. }
  now rewrite Ht, Hs, (SemVer_new_body _ _ Hp Hl), Hf.
Qed.

Lemma break_at_app c x y :
  all_chars (fun a => negb (Ascii.eqb a c)) x = true ->
  break_at c (x ++ String c y) = (x, Some y).
Proof.
  induction x as [|a x IH]; simpl.
  - now rewrite Ascii.eqb_refl.
  - rewrite andb_true_iff, negb_true_iff. intros [Ha Hx]. now rewrite Ha, (IH Hx).
Qed.

Lemma body_char_no_underscore c :
  is_body_char c = true -> negb (Ascii.eqb c "_") = true.
Proof.
  destruct c as [[] [] [] [] [] [] [] []]; vm_compute; intros H;
    try discriminate H; reflexivity.
Qed.

Lemma cleaned_chars v :
  cleaned v ->
  all_chars is_body_char (versionString v) = true /\
  (exists d r, versionString v = String d r /\ is_digit d = true) /\
  (String.length (versionString v) <= MAX_LENGTH)%nat.
Proof.
  intros [s Hs]. apply cleanedVersion_OK in Hs.
  destruct (clean_Some _ _ Hs) as (p & Hp & _ & Hl).
  destruct (parse_body_chars _ _ Hp) as [Hc Hd]. auto.
Qed.

End NameFacts.
Import NameFacts.

(* ================================================================== *)
(** * Counting the events of a computation *)

Module BoundFacts.
Lemma count_app p (a b : Trace) : count p (a ++ b)%list = (count p a + count p b)%nat.
Proof. unfold count. now rewrite filter_app, length_app. Qed.

Lemma count_none p t : count p t = 0%nat <-> none p t = true.
Proof.
  unfold count, none. induction t as [|e t IH]; simpl; [tauto|].
  destruct (p e); simpl; [split; discriminate | exact IH].
Qed.

Section Bounds.
Context {A B : Type}.
Variable p : Event -> bool.

Lemma at_most_weaken n n' (m : M A) : at_most p n m -> (n <= n')%nat -> at_most p n' m.
Proof. intros H L h. specialize (H h). lia. Qed.

Lemma at_most_ret (a : A) : at_most p 0 (ret a).
Proof. intros h. apply Nat.le_refl. Qed.

Lemma at_most_throw e : at_most p 0 (@throw A e).
Proof. intros h. apply Nat.le_refl. Qed.

Lemma at_most_lift (r : result A) : at_most p 0 (lift r).
Proof. intros h. apply Nat.le_refl. Qed.

Lemma at_most_call svc (e : answer A -> Event) f : at_most p 1 (call svc e f).
Proof.
  intros h. unfold call, count. destruct (f h); simpl;
    match goal with |- context [p ?x] => destruct (p x) end; simpl; lia.
Qed.

Lemma at_most_call_other svc (e : answer A -> Event) f :
  (forall a, p (e a) = false) -> at_most p 0 (call svc e f).
Proof.
  intros H h. unfold call, count. destruct (f h); simpl; rewrite H; apply Nat.le_refl.
Qed.

Lemma at_most_bind n1 n2 (m : M A) (k : A -> M B) :
  at_most p n1 m -> (forall a, at_most p n2 (k a)) -> at_most p (n1 + n2) (bind m k).
Proof.
  intros H1 H2 h. unfold bind. specialize (H1 h). destruct (m h) as [[a|e] t1]; simpl in *.
  - specialize (H2 a (h ++ t1)%list). destruct (k a (h ++ t1)%list) as [r t2].
    simpl in *. rewrite count_app. lia.
  - lia.
Qed.

Lemma at_most_group n name (m : M A) :
  p (EvStartGroup name) = false -> p EvEndGroup = false ->
  at_most p n m -> at_most p n (group name m).
Proof.
  intros H1 H2 H h. unfold group. specialize (H (h ++ [EvStartGroup name])%list).
  destruct (m (h ++ [EvStartGroup name])%list) as [r t]. simpl in *.
  change (EvStartGroup name :: (t ++ [EvEndGroup])%list)
    with ([EvStartGroup name] ++ (t ++ [EvEndGroup]))%list.
  rewrite !count_app. unfold count at 1 3. simpl. rewrite H1, H2. simpl. lia.
Qed.

Lemma at_most_if n1 n2 (b : bool) (m1 m2 : M A) :
  at_most p n1 m1 -> at_most p n2 m2 ->
  at_most p (Nat.max n1 n2) (if b then m1 else m2).
Proof.
  intros H1 H2. destruct b; [apply (at_most_weaken n1) | apply (at_most_weaken n2)];
    auto; lia.
Qed.

Lemma at_most_on_history n1 n2 (f : Trace -> bool) (m1 m2 : M A) :
  at_most p n1 m1 -> at_most p n2 m2 ->
  at_most p (Nat.max n1 n2) (fun h => if f h then m1 h else m2 h).
Proof.
  intros H1 H2 h. specialize (H1 h). specialize (H2 h). destruct (f h); lia.
Qed.

Lemma at_most_option n1 n2 (o : option B) (k : B -> M A) (m : M A) :
  (forall b, at_most p n1 (k b)) -> at_most p n2 m ->
  at_most p (Nat.max n1 n2) (match o with Some b => k b | None => m end).
Proof.
  intros H1 H2. destruct o; [apply (at_most_weaken n1) | apply (at_most_weaken n2)];
    auto; lia.
Qed.

Lemma at_most_pair {C : Type} n (r : B * C) (k : B -> C -> M A) :
  (forall b c, at_most p n (k b c)) -> at_most p n (let (b, c) := r in k b c).
Proof. intros H. destruct r. apply H. Qed.

End Bounds.

Lemma at_most_emit p e : at_most p 1 (emit e).
Proof. intros h. unfold emit, count. simpl. destruct (p e); simpl; lia. Qed.

Lemma at_most_emit_other p e : p e = false -> at_most p 0 (emit e).
Proof. intros H h. unfold emit, count. simpl. rewrite H. apply Nat.le_refl. Qed.

(** Bounds a computation built from the combinators. *)
Ltac bound :=
  lazymatch goal with
  | |- at_most _ _ (bind _ _) => eapply at_most_bind; [bound | intro; bound]
  | |- at_most _ _ (ret _) => apply at_most_ret
  | |- at_most _ _ (throw _) => apply at_most_throw
  | |- at_most _ _ (lift _) => apply at_most_lift
  | |- at_most _ _ (emit _) =>
      first [apply at_most_emit_other; reflexivity | apply at_most_emit]
  | |- at_most _ _ (call _ _ _) =>
      first [apply at_most_call_other; intro; reflexivity | apply at_most_call]
  | |- at_most _ _ (group _ _) =>
      apply at_most_group; [reflexivity | reflexivity | bound]
  | |- at_most _ _ (if _ then _ else _) => eapply at_most_if; bound
  | |- at_most _ _ (fun h => if _ then _ else _) => eapply at_most_on_history; bound
  | |- at_most _ _ (match _ with Some _ => _ | None => _ end) =>
      eapply at_most_option; [intro; bound | bound]
  | |- at_most _ _ (let (_, _) := _ in _) => eapply at_most_pair; intros; bound
  | |- at_most _ _ (setAndCheckOutput _ _ _) => unfold setAndCheckOutput; bound
  | |- at_most _ _ (findMatchingRelease _ _ _) => unfold findMatchingRelease; bound
  | |- at_most _ _ (locate_bin _ _ _) => unfold locate_bin; bound
  | |- at_most _ _ (install _ _ _ _) => unfold install; bound
  | |- at_most _ _ (checkCache _ _) => unfold checkCache; bound
  | |- at_most _ _ (checking_cache _ _) => unfold checking_cache; bound
  | |- at_most _ _ (installing_release _ _ _) => unfold installing_release; bound
  | |- at_most _ _ (main _ _) => unfold main; bound
  end.

Ltac bounded := eapply at_most_weaken; [bound | vm_compute; lia].

End BoundFacts.
Import BoundFacts.

(* ================================================================== *)
(** * How a computation can end *)

Module OutcomeFacts.
Section Outcomes.
Context {A B : Type}.
Variable E : Error -> Prop.

Lemma ends_ret (Q : A -> Prop) a : Q a -> ends Q E (ret a).
Proof. intros H h. exact H. Qed.

Lemma ends_throw (Q : A -> Prop) e : E e -> ends Q E (throw e).
Proof. intros H h. exact H. Qed.

Lemma ends_lift (Q : A -> Prop) (r : result A) :
  match r with OK a => Q a | Err e => E e end -> ends Q E (lift r).
Proof. intros H h. exact H. Qed.

Lemma ends_call (Q : A -> Prop) svc (e : answer A -> Event) f :
  (forall a, Q a) -> (forall msg, E (External svc msg)) -> ends Q E (call svc e f).
Proof. intros HQ HE h. unfold call. destruct (f h); simpl; auto. Qed.

Lemma ends_bind (Q1 : A -> Prop) (Q : B -> Prop) (m : M A) (k : A -> M B) :
  ends Q1 E m -> (forall a, Q1 a -> ends Q E (k a)) -> ends Q E (bind m k).
Proof.
  intros H1 H2 h. unfold bind. specialize (H1 h).
  destruct (m h) as [[a|e] t1]; simpl in *; [|exact H1].
  specialize (H2 a H1 (h ++ t1)%list). now destruct (k a (h ++ t1)%list).
Qed.

Lemma ends_group (Q : A -> Prop) name (m : M A) : ends Q E m -> ends Q E (group name m).
Proof.
  intros H h. unfold group. specialize (H (h ++ [EvStartGroup name])%list).
  now destruct (m (h ++ [EvStartGroup name])%list).
Qed.

Lemma ends_on_history (Q : A -> Prop) (f : Trace -> bool) (m1 m2 : M A) :
  ends Q E m1 -> ends Q E m2 -> ends Q E (fun h => if f h then m1 h else m2 h).
Proof. intros H1 H2 h. specialize (H1 h). specialize (H2 h). now destruct (f h). Qed.

End Outcomes.

Lemma ends_emit (E : Error -> Prop) e : ends (fun _ => True) E (emit e).
Proof. intros h. exact I. Qed.

(** One step of a computation that ends with an expected failure or goes on. *)
Ltac ends_step :=
  lazymatch goal with
  | |- ends _ _ (bind (emit _) _) =>
      eapply ends_bind; [apply ends_emit | intros _ _]
  | |- ends _ _ (bind (call _ _ _) _) =>
      eapply (ends_bind _ (fun _ => True));
      [apply ends_call; [intro; exact I | intro; reflexivity] | intros ? _]
  | |- ends _ _ (group _ _) => apply ends_group
  | |- ends _ _ (emit _) => apply ends_emit
  | |- ends _ _ (ret _) => apply ends_ret
  | |- ends _ _ (throw _) => apply ends_throw
  | |- ends _ _ (call _ _ _) => apply ends_call; [intro | intro; reflexivity]
  end.

Lemma setAndCheckOutput_ends O plat iv :
  ends (fun _ => True) expected (setAndCheckOutput O plat iv).
Proof.
  unfold setAndCheckOutput. ends_step.
  eapply (ends_bind _ (fun _ => True)).
  - apply ends_on_history; [repeat ends_step; exact I | ends_step; exact I].
  - intros _ _. repeat ends_step.
    destruct (indexOf _ _ <? 0); ends_step; reflexivity.
Qed.

Lemma checkCache_ends O v : ends (fun _ => True) expected (checkCache O v).
Proof.
  unfold checkCache. ends_step. destruct (_ =? _)%string; repeat ends_step; exact I.
Qed.

Lemma constructed_new s r : new_RequestedVersion s = OK r -> constructed r.
Proof.
  intros H. pose proof (new_RequestedVersion_cases s) as C. rewrite H in C.
  unfold constructed. destruct C as (_ & [(_ & -> & _)|[(_ & _ & -> & _)|(_ & _ & _ & _ & x & _ & Hx)]]).
  - now left.
  - left. apply orb_true_r.
  - right. eauto.
Qed.

Lemma constructed_exact r :
  constructed r -> (isStable r || isLatest r)%bool = false ->
  exists v, get_cleanedVersion r = OK v.
Proof.
  intros [H|[v Hv]] Hm; [congruence|]. exists v. unfold get_cleanedVersion.
  now rewrite Hm, Hv.
Qed.

Lemma checking_cache_ends O version :
  constructed version -> ends (fun _ => True) expected (checking_cache O version).
Proof.
  intros C. unfold checking_cache. ends_step.
  destruct (negb (isStable version) && negb (isLatest version))%bool eqn:Em;
    [|ends_step; exact I].
  rewrite <- negb_orb, negb_true_iff in Em.
  destruct (constructed_exact _ C Em) as [v ->].
  eapply (ends_bind _ (fun _ => True)); [now apply ends_lift|].
  intros a _. apply checkCache_ends.
Qed.

Lemma release_of_data_ends d :
  match release_of_data d with
  | OK rel => cleaned (release_version rel)
  | Err e => expected e
  end.
Proof.
  destruct (release_of_data d) as [rel|e] eqn:H.
  - now apply (release_of_data_cleaned d).
  - unfold release_of_data, cleanedVersion in H.
    destruct (Semver.clean (tag_name d)); [discriminate|]. now injection H as <-.
Qed.

Lemma pick_latest_ends data :
  match pick_latest data with
  | OK rel => cleaned (release_version rel)
  | Err e => expected e
  end.
Proof.
  destruct (pick_latest data) as [rel|e] eqn:H.
  - now apply (pick_latest_cleaned data).
  - pose proof (pick_latest_greatest data) as G.
    destruct (valid_releases data);
      [assert (e = NoMatchingRelease) by congruence; now subst
      |destruct G as (r & Hr & _); congruence].
Qed.

Lemma findMatchingRelease_ends O version token :
  constructed version ->
  ends (fun rel => cleaned (release_version rel)) expected
       (findMatchingRelease O version token).
Proof.
  intros C. unfold findMatchingRelease.
  destruct (isStable version) eqn:Es; [|destruct (isLatest version) eqn:El].
  - ends_step. apply ends_lift, release_of_data_ends.
  - ends_step. apply ends_lift, pick_latest_ends.
  - destruct (constructed_exact version C) as [v Hv]; [now rewrite Es, El|].
    unfold tagName. rewrite Hv. cbn [rbind].
    eapply (ends_bind _ (fun _ => True)); [now apply ends_lift|]. intros tag _.
    ends_step. apply ends_lift, release_of_data_ends.
Qed.

Lemma assetExtension_cleaned plat v :
  cleaned v -> assetExtension plat v = OK "zip" \/ assetExtension plat v = OK "tar.gz".
Proof.
  intros Hv. destruct plat; [now right | | now left].
  destruct (assetExtension_macOS v Hv) as (p & _ & _ & ->).
  destruct (before_2_28_0 p); auto.
Qed.

Lemma locate_bin_ends O root base :
  ends (fun _ => True) expected (locate_bin O root base).
Proof.
  unfold locate_bin. ends_step.
  eapply (ends_bind _ (fun _ => True)).
  - destruct (negb _ && _)%bool; repeat ends_step; exact I.
  - intros [d c] _. destruct (negb _); repeat ends_step; [reflexivity | exact I].
Qed.

Lemma install_ends O plat asset v :
  cleaned v -> ends (fun _ => True) expected (install O plat asset v).
Proof.
  intros Hv. unfold install. ends_step.
  eapply (ends_bind _ (fun ext => ext = "zip" \/ ext = "tar.gz")).
  { apply ends_lift. destruct (assetExtension_cleaned plat v Hv) as [-> | ->]; auto. }
  intros ext Hext.
  eapply (ends_bind _ (fun _ => True)).
  { destruct Hext as [-> | ->]; cbn [String.eqb Ascii.eqb Bool.eqb];
      ends_step; exact I. }
  intros root _.
  eapply (ends_bind _ (fun _ => True)); [apply locate_bin_ends|]. intros dir _.
  repeat ends_step. exact I.
Qed.

Lemma installing_release_ends O plat release :
  cleaned (release_version release) ->
  ends (fun _ => True) expected (installing_release O plat release).
Proof.
  intros Hv. unfold installing_release.
  eapply (ends_bind _ (fun _ => True)).
  { apply ends_lift. unfold assetName_of.
    now destruct (assetExtension_cleaned plat _ Hv) as [-> | ->]. }
  intros name _.
  eapply (ends_bind _ (fun _ => True)).
  { apply ends_lift. unfold find_asset. now destruct (List.find _ _). }
  intros asset _. now apply install_ends.
Qed.

Lemma main_ends O plat : ends (fun _ => True) expected (main O plat).
Proof.
  unfold main. repeat ends_step.
  eapply (ends_bind _ constructed).
  { apply ends_lift. pose proof (new_RequestedVersion_cases a) as C.
    destruct (new_RequestedVersion a) as [r|e] eqn:En.
    - now apply (constructed_new a).
    - now destruct C as (_ & _ & _ & ->). }
  intros version C. repeat ends_step.
  eapply (ends_bind _ (fun _ => True)); [now apply checking_cache_ends|].
  intros [iv|] _; [apply setAndCheckOutput_ends|].
  eapply (ends_bind _ (fun f => cleaned (release_version (fst f)))).
  { ends_step. eapply ends_bind; [now apply findMatchingRelease_ends|].
    intros rel Hrel. eapply (ends_bind _ (fun _ => True)); [apply checkCache_ends|].
    intros c _. now ends_step. }
  intros [rel [iv|]] Hrel; [apply setAndCheckOutput_ends|].
  eapply (ends_bind _ (fun _ => True)).
  - ends_step. now apply installing_release_ends.
  - intros iv _. apply setAndCheckOutput_ends.
Qed.

End OutcomeFacts.
Import OutcomeFacts.

(* ================================================================== *)
(** * Sorting, and the releases of the earlier revision *)

Module RevisionFacts.
(** ** The head of a sorted list is the first of the greatest elements *)

Section SortFirst.
Context {A : Type} (cmp : A -> A -> result Z) (P : A -> Prop).

Hypothesis cmp_refl : forall x, P x -> goes_before cmp x x.
Hypothesis cmp_trans : forall x y z, P x -> P y -> P z ->
  goes_before cmp x y -> goes_before cmp y z -> goes_before cmp x z.
Hypothesis cmp_total : forall x y, P x -> P y ->
  exists c, cmp x y = OK c /\ (c <= 0 \/ goes_before cmp y x).

Lemma sort_by_first l :
  Forall P l ->
  exists s, sort_by cmp l = OK s /\
    match s with
    | [] => l = []
    | h :: _ =>
        exists l1 l2, l = (l1 ++ h :: l2)%list /\
          (forall x, In x l1 -> exists c, cmp x h = OK c /\ 0 < c) /\
          (forall y, In y l2 -> goes_before cmp h y)
    end.
Proof.
  induction l as [|x l IH]; intros Pl.
  - exists []. split; reflexivity.
  - apply Forall_cons_iff in Pl as [Px Pl].
    destruct (IH Pl) as (s & Es & Hs).
    destruct (sort_by_head cmp P cmp_refl cmp_trans cmp_total l Pl)
      as (s' & Es' & Hin & Hh).
    assert (s' = s) by congruence. subst s'.
    assert (Ps : Forall P s).
    { rewrite Forall_forall in *. intros y Hy. apply Pl, Hin, Hy. }
    simpl. rewrite Es. simpl. destruct s as [|h t].
    + subst l. exists [x]. split; [reflexivity|]. exists [], [].
      split; [reflexivity|]. split; intros y [].
    + pose proof Ps as Ps'. apply Forall_cons_iff in Ps' as [Ph Pt].
      destruct Hs as (l1 & l2 & El & H1 & H2).
      destruct (cmp_total x h Px Ph) as (c & Ec & Hc). simpl. rewrite Ec. simpl.
      destruct (Z.leb_spec c 0) as [Hle|Hgt].
      * exists (x :: h :: t). split; [reflexivity|]. exists [], l.
        split; [reflexivity|]. split; [intros y []|].
        intros y Hy. apply (cmp_trans x h y); auto.
        -- rewrite Forall_forall in Pl. auto.
        -- now exists c.
        -- apply Hh, Hin, Hy.
      * destruct (insert_by_total cmp P cmp_total x t Px Pt) as (t' & -> & _). simpl.
        exists (h :: t'). split; [reflexivity|]. exists (x :: l1), l2.
        split; [now rewrite El|]. split; [|exact H2].
        intros y [<-|Hy]; [now exists c | now apply H1].
Qed.
End SortFirst.

(** ** Sorting after a change of representation *)

Section SortMap.
Context {A B : Type} (f : A -> B).
Variable cmpA : A -> A -> result Z.
Variable cmpB : B -> B -> result Z.
Hypothesis agree : forall x y, cmpA x y = cmpB (f x) (f y).

Lemma insert_by_map x l :
  insert_by cmpB (f x) (map f l) = rbind (insert_by cmpA x l) (fun s => OK (map f s)).
Proof.
  induction l as [|y l IH]; simpl; [reflexivity|].
  rewrite <- agree. destruct (cmpA x y) as [c|e]; simpl; [|reflexivity].
  destruct (c <=? 0); [reflexivity|]. rewrite IH.
  now destruct (insert_by cmpA x l).
Qed.

Lemma sort_by_map l :
  sort_by cmpB (map f l) = rbind (sort_by cmpA l) (fun s => OK (map f s)).
Proof.
  induction l as [|x l IH]; simpl; [reflexivity|].
  rewrite IH. destruct (sort_by cmpA l) as [s|e]; simpl; [|reflexivity].
  apply insert_by_map.
Qed.
End SortMap.

Lemma upgrade_valid data :
  map upgrade (filter Earlier.has_version data) = valid_releases data.
Proof.
  induction data as [|d data IH]; [reflexivity|].
  cbn [filter valid_releases]. unfold Earlier.has_version at 1, cleanedVersion.
  destruct (clean (tag_name d)) as [x|] eqn:E; [|exact IH].
  rewrite (clean_nonempty _ _ E). cbn [negb map]. unfold upgrade at 1.
  now rewrite E, IH.
Qed.

Lemma newest_first_upgrade l r :
  Earlier.newest_first l r = newest_first (upgrade l) (upgrade r).
Proof.
  unfold Earlier.newest_first, newest_first, upgrade. simpl.
  destruct (clean (tag_name r)) as [a|], (clean (tag_name l)) as [b|];
    try reflexivity.
  - unfold Semver.compare. now destruct (SemVer_new a).
Qed.

Lemma release_of_data_upgrade d rel :
  release_of_data d = OK rel <-> upgrade d = rel /\ cleaned (release_version rel).
Proof.
  unfold release_of_data, upgrade, cleanedVersion.
  destruct (clean (tag_name d)) as [x|] eqn:E; simpl.
  - split.
    + intros [= <-]. split; [reflexivity|]. exists (tag_name d).
      unfold cleanedVersion. now rewrite E.
    + now intros [<- _].
  - split; [discriminate|]. intros [<- [s Hs]]. apply cleanedVersion_OK in Hs.
    apply clean_nonempty in Hs. discriminate.
Qed.

Lemma pick_latest_upgrade data :
  rbind (Earlier.pick_latest data) release_of_data = pick_latest data.
Proof.
  pose proof (pick_latest_cleaned data) as Hc.
  revert Hc. unfold Earlier.pick_latest, pick_latest. rewrite <- upgrade_valid.
  destruct (filter Earlier.has_version data) as [|r0 rest]; [reflexivity|].
  cbn [map]. change (upgrade r0 :: map upgrade rest) with (map upgrade (r0 :: rest)).
  rewrite (sort_by_map upgrade Earlier.newest_first newest_first newest_first_upgrade).
  destruct (sort_by Earlier.newest_first (r0 :: rest)) as [s|e]; [|reflexivity].
  cbn [rbind]. intros Hc.
  assert (E : hd (upgrade r0) (map upgrade s) = upgrade (hd r0 s)) by now destruct s.
  rewrite E in *. specialize (Hc _ eq_refl).
  now apply release_of_data_upgrade.
Qed.

End RevisionFacts.
Import RevisionFacts.

(* ================================================================== *)
(** * Computations that make the same calls *)

Module FetchFacts.
Section Laws.
Context {A B C : Type}.


End Laws.

Section Simulation.
Context {A0 A1 B0 B1 : Type}.



End Simulation.






End FetchFacts.
Import FetchFacts.

(* ================================================================== *)
(** * Facts about the request and the order of versions *)

Module RequestFacts.
Lemma findMatchingRelease_request O s r token h e :
  new_RequestedVersion s = OK r ->
  In e (snd (findMatchingRelease O r token h)) -> request_of s e.
Proof.
  intros Hn. pose proof (new_RequestedVersion_cases s) as C. rewrite Hn in C.
  unfold findMatchingRelease, tagName, get_cleanedVersion.
  destruct C as (_ & [(-> & -> & _)|[(-> & -> & -> & _)
                     |(N1 & N2 & -> & -> & x & Hx & ->)]]); cbn [orb rbind].
  - unfold_monad. destruct (octokit_getLatestRelease O h token) as [d|m];
      [destruct (release_of_data d)|]; intros [<-|[]]; reflexivity.
  - unfold_monad. destruct (octokit_listReleases O h token 100) as [d|m];
      [destruct (pick_latest d)|]; intros [<-|[]]; split; reflexivity.
  - unfold_monad. destruct (octokit_getReleaseByTag O _ token _) as [d|m];
      [destruct (release_of_data d)|]; intros [<-|[]];
      (split; [exact N1 | split; [exact N2 | exists x; split; [exact Hx | reflexivity]]]).
Qed.

End RequestFacts.
Import RequestFacts.

(* ================================================================== *)
(** * More runs of [main] *)

Module RunFacts.
Lemma none_In p t e : none p t = true -> In e t -> p e = false.
Proof.
  unfold none. rewrite forallb_forall. intros H Hin. specialize (H e Hin).
  now apply negb_true_iff.
Qed.

Lemma none_work_install t : none is_work t = true -> none is_install t = true.
Proof.
  unfold none. rewrite !forallb_forall. intros H e He. specialize (H e He).
  unfold is_work in H. now destruct (is_registry e), (is_install e).
Qed.

Lemma install_cacheDir O plat asset v h d a b v' ans :
  In (EvCacheDir d a b v' ans) (snd (install O plat asset v h)) ->
  a = execName plat /\ b = toolName /\ v' = versionString v.
Proof.
  install_cases O plat asset v h; cbn [snd]; intros Hin;
    repeat (cbn [In] in Hin; rewrite ?in_app_iff in Hin);
    repeat match type of Hin with _ \/ _ => destruct Hin as [Hin|Hin] end;
    try discriminate Hin; try contradiction Hin;
    try (injection Hin as <- <- <- <- <-; now repeat split);
    match goal with
    | E : locate_bin ?O ?r ?bs ?h' = (_, ?t) |- _ =>
        destruct (locate_bin_events O r bs h') as (Hw & _);
        rewrite E in Hw; cbn [snd] in Hw;
        apply none_work_install in Hw;
        pose proof (none_In _ _ _ Hw Hin) as F; discriminate F
    end.
Qed.

Lemma installing_release_cacheDir O plat release h d a b v ans :
  In (EvCacheDir d a b v ans) (snd (installing_release O plat release h)) ->
  a = execName plat /\ b = toolName /\ v = versionString (release_version release).
Proof.
  pose proof (installing_release_cases O plat release h) as H.
  destruct (assetName_of plat (osArch O) release) as [name|e];
    [|rewrite H; intros []].
  destruct (find_asset name (release_assets release)) as [asset|e];
    [|rewrite H; intros []].
  rewrite H. apply install_cacheDir.
Qed.

(** A step of [main] that keeps what is known of the events of the
    installing step. *)
Ltac main_step_registering :=
  first
    [ match goal with
      | |- context [installing_release ?O ?plat ?rel ?h] =>
          let F := fresh "Hreg" in
          generalize (fun d a b v ans =>
                        installing_release_cacheDir O plat rel h d a b v ans);
          main_step; intros F
      end
    | main_step ].

Lemma at_most_none {A : Type} p (m : M A) h :
  at_most p 0 m -> none p (snd (m h)) = true.
Proof. intros H. apply count_none. specialize (H h). lia. Qed.

Lemma findMatchingRelease_addPath O version token : 
  at_most is_addPath 0 (findMatchingRelease O version token).
Proof. bounded. Qed.

Lemma installing_release_addPath O plat release :
  at_most is_addPath 0 (installing_release O plat release).
Proof. bounded. Qed.

Lemma setAndCheckOutput_addPath O plat iv h p :
  In (EvAddPath p) (snd (setAndCheckOutput O plat iv h)) ->
  p = path_join O (installed_path iv) "bin".
Proof.
  unfold setAndCheckOutput. unfold_monad.
  repeat run_step; unfold_monad; cbn [snd app]; intros Hin;
    repeat (cbn [In] in Hin; rewrite ?in_app_iff in Hin);
    repeat match type of Hin with _ \/ _ => destruct Hin as [Hin|Hin] end;
    try discriminate Hin; try contradiction Hin; now injection Hin as <-.
Qed.

Ltac main_step_path :=
  first
    [ match goal with
      | |- context [installing_release ?O ?plat ?rel ?h] =>
          let F := fresh "Hquiet" in
          generalize (at_most_none is_addPath _ h (installing_release_addPath O plat rel));
          main_step; intros F
      | |- context [findMatchingRelease ?O ?v ?tok ?h] =>
          let F := fresh "Hquiet" in
          generalize (at_most_none is_addPath _ h (findMatchingRelease_addPath O v tok));
          main_step; intros F
      | |- context [setAndCheckOutput ?O ?plat ?iv ?h] =>
          let F := fresh "Hpath" in
          generalize (fun p => setAndCheckOutput_addPath O plat iv h p);
          main_step; intros F
      end
    | main_step ].

Lemma release_of_data_version d rel :
  release_of_data d = OK rel ->
  Semver.clean (tag_name d) = Some (versionString (release_version rel)).
Proof.
  unfold release_of_data, cleanedVersion.
  destruct (Semver.clean (tag_name d)); [|discriminate]. now intros [= <-].
Qed.

Lemma findMatchingRelease_resolves O r token h rel :
  fst (findMatchingRelease O r token h) = OK rel ->
  exists e, In e (snd (findMatchingRelease O r token h)) /\
            resolves e (versionString (release_version rel)).
Proof.
  unfold findMatchingRelease.
  destruct (isStable r); [|destruct (isLatest r)]; unfold_monad.
  - destruct (octokit_getLatestRelease O h token) as [d|m]; [|discriminate].
    destruct (release_of_data d) as [rel'|e] eqn:E; [|discriminate].
    intros [= <-]. eexists. split; [left; reflexivity|].
    now apply release_of_data_version.
  - destruct (octokit_listReleases O h token 100) as [d|m]; [|discriminate].
    destruct (pick_latest d) as [rel'|e] eqn:E; [|discriminate].
    intros [= <-]. eexists. split; [left; reflexivity|].
    pose proof (pick_latest_greatest d) as G. cbn [resolves].
    destruct (valid_releases d) as [|d0 ds]; [congruence|].
    destruct G as (r0 & E0 & Hin & Hmax).
    assert (r0 = rel') by congruence. subst r0.
    exists rel'. auto.
  - destruct (tagName r) as [tag|e]; [|discriminate].
    destruct (octokit_getReleaseByTag O _ token tag) as [d|m]; [|discriminate].
    destruct (release_of_data d) as [rel'|e] eqn:E; [|discriminate].
    intros [= <-]. eexists. split; [left; reflexivity|].
    now apply release_of_data_version.
Qed.

Ltac main_step_resolving :=
  first
    [ match goal with
      | En : new_RequestedVersion ?s = OK ?v
        |- context [findMatchingRelease ?O ?v ?tok ?h] =>
          let F := fresh "Hres" in let G := fresh "Hreq" in
          generalize (fun e => RequestFacts.findMatchingRelease_request O s v tok h e En);
          generalize (findMatchingRelease_resolves O v tok h);
          main_step; intros F G
      end
    | main_step ].

Lemma none_work_registry t : none is_work t = true -> none is_registry t = true.
Proof.
  unfold none. rewrite !forallb_forall. intros H e He. specialize (H e He).
  unfold is_work in H. now destruct (is_registry e).
Qed.

Lemma open_groups_app a b : open_groups (a ++ b)%list = open_groups a + open_groups b.
Proof.
  induction a as [|e a IH]; [reflexivity|].
  cbn [app open_groups]. destruct e; rewrite ?IH; lia.
Qed.

Lemma open_groups_flat t : none is_group t = true -> open_groups t = 0.
Proof.
  unfold none. induction t as [|e t IH]; [reflexivity|].
  cbn [forallb open_groups]. rewrite andb_true_iff. intros [He Ht].
  destruct e; try discriminate He; auto.
Qed.

Lemma findMatchingRelease_flat O version token h :
  open_groups (snd (findMatchingRelease O version token h)) = 0.
Proof.
  apply open_groups_flat, (at_most_none is_group (findMatchingRelease O version token)).
  bounded.
Qed.

Lemma installing_release_flat O plat release h :
  open_groups (snd (installing_release O plat release h)) = 0.
Proof.
  apply open_groups_flat, (at_most_none is_group (installing_release O plat release)).
  bounded.
Qed.

Lemma setAndCheckOutput_balanced O plat iv h :
  open_groups (snd (setAndCheckOutput O plat iv h)) = 0.
Proof.
  unfold setAndCheckOutput, group.
  match goal with
  | |- context [?m (h ++ [EvStartGroup ?n])%list] =>
      assert (F : at_most is_group 0 m) by bounded;
      pose proof (at_most_none is_group m (h ++ [EvStartGroup n])%list F) as N;
      destruct (m (h ++ [EvStartGroup n])%list) as [r t]
  end.
  cbn [snd] in *. apply open_groups_flat in N.
  cbn [open_groups]. rewrite open_groups_app, N. reflexivity.
Qed.

Ltac main_step_groups :=
  first
    [ match goal with
      | |- context [installing_release ?O ?plat ?rel ?h] =>
          let F := fresh "Hflat" in
          generalize (installing_release_flat O plat rel h);
          main_step; intros F
      | |- context [findMatchingRelease ?O ?v ?tok ?h] =>
          let F := fresh "Hflat" in
          generalize (findMatchingRelease_flat O v tok h);
          main_step; intros F
      | |- context [setAndCheckOutput ?O ?plat ?iv ?h] =>
          let F := fresh "Hbal" in
          generalize (setAndCheckOutput_balanced O plat iv h);
          main_step; intros F
      end
    | main_step ].

End RunFacts.
Import RunFacts.

(* ================================================================== *)
(** * The two revisions of [main] *)

Module WholeFacts.

Section Until.
Context {A0 A1 : Type}.
Variable e : Event.

End Until.





End WholeFacts.
Import WholeFacts.

(* ================================================================== *)
(** * The two revisions of [install] *)

Module InstallFacts.
Lemma assetExtension_earlier plat v :
  cleaned v -> Earlier.assetExtension plat (versionString v) = assetExtension plat v.
Proof.
  intros [s Hs]. apply cleanedVersion_OK in Hs.
  unfold Earlier.assetExtension, assetExtension, Earlier.cleanedVersion.
  now rewrite (clean_fixed _ _ Hs).
Qed.


End InstallFacts.
Import InstallFacts.

(* ================================================================== *)
(** * Further properties of the action *)

(** X1: a version that [cleanedVersion] returned is in canonical form: it
    starts with a digit, holds only digits, letters, [-] and [.] (so no
    leading [v], no white space and no build part after [+]), is at most
    256 characters long, and cleaning it again returns it unchanged. *)
Theorem cleanedVersion_canonical (s : string) (v : ICleanedVersion) :
  cleanedVersion s = OK v ->
  cleanedVersion (versionString v) = OK v /\
  (exists d r, versionString v = String d r /\ is_digit d = true) /\
  all_chars (fun c => (is_digit c || is_letter_or_dash c || Ascii.eqb c ".")%bool)
    (versionString v) = true /\
  (String.length (versionString v) <= 256)%nat.
Proof.
  intros H. assert (Hc : cleaned v) by now exists s.
  destruct (cleaned_chars v Hc) as (Hb & Hd & Hl).
  apply cleanedVersion_OK in H. split; [|split; [exact Hd | split; [exact Hb | exact Hl]]].
  unfold cleanedVersion. rewrite (clean_fixed _ _ H). now destruct v.
Qed.

Lemma cleanedVersion_canonical_witness :
  cleanedVersion " =v1.2.3-rc.1+build.7 " = OK (mkCleaned "1.2.3-rc.1") /\
  cleanedVersion "1.2.3-rc.1" = OK (mkCleaned "1.2.3-rc.1").
Proof.
  split; [reflexivity|].
  exact (proj1 (cleanedVersion_canonical " =v1.2.3-rc.1+build.7 "
                  (mkCleaned "1.2.3-rc.1") eq_refl)).
Defined.

(** X2: for one platform and architecture, two cleaned versions with the
    same asset name are the same version: the name the action looks for
    belongs to one version only. *)
Theorem assetName_determines_version (plat : OsPlat) (arch : string)
    (r1 r2 : IRelease) (name : string) :
  cleaned (release_version r1) -> cleaned (release_version r2) ->
  assetName_of plat arch r1 = OK name ->
  assetName_of plat arch r2 = OK name ->
  release_version r1 = release_version r2.
Proof.
  intros C1 C2 H1 H2. unfold assetName_of, rbind in H1, H2.
  destruct (assetExtension plat (release_version r1)) as [e1|]; [|discriminate].
  destruct (assetExtension plat (release_version r2)) as [e2|]; [|discriminate].
  injection H1 as H1. injection H2 as H2. rewrite <- H2 in H1. clear H2.
  apply (append_inj_l "gh_") in H1.
  assert (B : forall v, cleaned v ->
            forall rest, break_at "_" (versionString v ++ String "_" rest)
                         = (versionString v, Some rest)).
  { intros v Hv rest. apply break_at_app.
    destruct (cleaned_chars v Hv) as (Hb & _). revert Hb. apply all_chars_impl.
    apply body_char_no_underscore. }
  pose proof (B _ C1 (OsPlat_string plat ++ "_" ++ arch ++ "." ++ e1)) as B1.
  pose proof (B _ C2 (OsPlat_string plat ++ "_" ++ arch ++ "." ++ e2)) as B2.
  simpl in H1, B1, B2. rewrite H1, B2 in B1. injection B1 as E _.
  destruct (release_version r1), (release_version r2). simpl in E. now subst.
Qed.

Lemma assetName_determines_version_witness :
  cleaned (mkCleaned "2.40.0") /\
  mkCleaned "2.40.0" = mkCleaned "2.40.0".
Proof.
  assert (C : cleaned (mkCleaned "2.40.0")) by (exists "v2.40.0"; reflexivity).
  split; [exact C|].
  exact (assetName_determines_version linux "amd64"
           (mkRelease (mkCleaned "2.40.0") [])
           (mkRelease (mkCleaned "2.40.0") sample_assets)
           "gh_2.40.0_linux_amd64.tar.gz" C C eq_refl eq_refl).
Defined.

(** X3: a run that fails in [main] reports it with exactly one
    [core.setFailed], as its last event and with the message of the error;
    a run that succeeds reports no failure; on an unsupported platform the
    script stops before [main], with no event at all. *)
Theorem failure_reported_once (O : Oracle) :
  let t := snd (run O) in
  match fst (run O) with
  | OK _ => count is_failed t = 0%nat
  | Err e =>
      match osPlat_of (os_platform O) with
      | Err _ => e = UnsupportedPlatform (os_platform O) /\ t = []
      | OK plat =>
          fst (main O plat []) = Err e /\
          t = (snd (main O plat []) ++ [EvSetFailed (message e)])%list /\
          count is_failed t = 1%nat
      end
  end.
Proof.
  cbv zeta. unfold run.
  destruct (osPlat_of (os_platform O)) as [plat|e] eqn:Ep.
  - assert (B : at_most is_failed 0 (main O plat)) by bounded.
    specialize (B []).
    destruct (main O plat []) as [[[]|e] t]; cbn [fst snd] in *; [lia|].
    split; [reflexivity|]. split; [reflexivity|].
    rewrite count_app. unfold count at 2. cbn. lia.
  - cbn [fst snd]. split; [|reflexivity].
    unfold osPlat_of in Ep.
    repeat match type of Ep with
           | context [if ?b then _ else _] => destruct b; try discriminate Ep
           end.
    now injection Ep as <-.
Qed.

(** X4: a run can only fail in the ways the action is written to report:
    an unsupported platform, a version that does not clean, no valid
    release, no asset of the expected name, no [bin] directory, a failed
    verification, or the failure of an outside call.  The failures kept for
    states that cannot arise (an extension other than [zip] and [tar.gz], a
    tag asked of [stable] or [latest], a comparison of something that is no
    version) never end a run. *)
Theorem run_failures (O : Oracle) (e : Error) :
  fst (run O) = Err e ->
  e = UnsupportedPlatform (os_platform O) \/ expected_failure e = true.
Proof.
  unfold run. destruct (osPlat_of (os_platform O)) as [plat|e'] eqn:Ep.
  - pose proof (main_ends O plat []) as H.
    destruct (main O plat []) as [[[]|e'] t]; cbn [fst] in *; [discriminate|].
    intros [= <-]. now right.
  - cbn [fst]. intros [= <-]. left. unfold osPlat_of in Ep.
    repeat match type of Ep with
           | context [if ?b then _ else _] => destruct b; try discriminate Ep
           end.
    now injection Ep as <-.
Qed.

Lemma run_failures_witness :
  fst (run (sample_oracle_with "nope" "")) = Err (InvalidVersion "nope") /\
  expected_failure (InvalidVersion "nope") = true.
Proof.
  assert (H : fst (run (sample_oracle_with "nope" "")) = Err (InvalidVersion "nope"))
    by (vm_compute; reflexivity).
  split; [exact H|].
  destruct (run_failures _ _ H) as [F|F]; [discriminate F | exact F].
Defined.

(** X5: whatever the outside world answers, one run of [main] asks the tool
    cache at most twice, the registry at most once, downloads and extracts
    at most one archive, lists at most three directories, registers at most
    one directory in the tool cache, extends the path at most once, runs
    the executable at most once and publishes at most one output. *)
Theorem call_counts (O : Oracle) (plat : OsPlat) (h : Trace) :
  let t := snd (main O plat h) in
  (count is_find t <= 2)%nat /\
  (count is_registry t <= 1)%nat /\
  (count is_download t <= 1)%nat /\
  (count is_extract t <= 1)%nat /\
  (count is_readdir t <= 3)%nat /\
  (count is_cacheDir t <= 1)%nat /\
  (count is_addPath t <= 1)%nat /\
  (count is_exec t <= 1)%nat /\
  (count is_publish t <= 1)%nat.
Proof.
  cbv zeta. repeat split;
    match goal with
    | |- (count ?p _ <= ?n)%nat =>
        assert (B : at_most p n (main O plat)) by bounded; apply B
    end.
Qed.

(** X6: when every numeric pre-release identifier of the valid releases
    is at most [MAX_SAFE_INTEGER], so that the package compares their
    versions exactly, [latest] resolves to the first of the releases whose
    tags clean, in the order of the list, that no other one exceeds: every
    valid release before it is strictly older, every one after it is not
    newer. *)
Theorem latest_tie_break (data : list ReleaseData) (r : IRelease) :
  Forall (fun r' => safe (release_version r')) (valid_releases data) ->
  pick_latest data = OK r ->
  exists l1 l2,
    valid_releases data = (l1 ++ r :: l2)%list /\
    (forall x, In x l1 ->
       exists c, Semver.compare (versionString (release_version r))
                                (versionString (release_version x)) = Some c /\
                 0 < c) /\
    (forall y, In y l2 -> version_le (release_version y) (release_version r)).
Proof.
  intros Hsafe. unfold pick_latest. pose proof (safe_releases data Hsafe) as Hc.
  destruct (valid_releases data) as [|r0 rest]; [discriminate|].
  destruct (sort_by_first newest_first
              (fun r => cleaned (release_version r) /\ safe (release_version r))
              newest_first_refl newest_first_trans newest_first_total
              (r0 :: rest) Hc) as (s & Es & Hs).
  rewrite Es. cbn [rbind]. destruct s as [|h s]; [discriminate Hs|].
  cbn [hd]. intros [= <-]. destruct Hs as (l1 & l2 & El & H1 & H2).
  exists l1, l2. split; [exact El|]. split.
  - intros x Hx. destruct (H1 x Hx) as (c & Ec & Hpos). exists c.
    split; [|exact Hpos]. unfold newest_first in Ec.
    destruct (Semver.compare _ _); [now injection Ec as -> | discriminate].
  - intros y Hy. apply newest_first_before, H2, Hy.
Qed.

Lemma latest_tie_break_witness :
  exists l1 l2,
    valid_releases [mkData "v1.0.0" []; mkData "nightly" [];
                    mkData "v2.0.0" [mkAsset "first" "u1" "d1"];
                    mkData "2.0.0+build.5" [mkAsset "second" "u2" "d2"]]
    = (l1 ++ mkRelease (mkCleaned "2.0.0") [mkAsset "first" "u1" "d1"] :: l2)%list /\
    (forall x, In x l1 ->
       exists c, Semver.compare "2.0.0" (versionString (release_version x)) = Some c /\
                 0 < c) /\
    (forall y, In y l2 -> version_le (release_version y) (mkCleaned "2.0.0")).
Proof.
  refine (latest_tie_break
            [mkData "v1.0.0" []; mkData "nightly" [];
             mkData "v2.0.0" [mkAsset "first" "u1" "d1"];
             mkData "2.0.0+build.5" [mkAsset "second" "u2" "d2"]]
            (mkRelease (mkCleaned "2.0.0") [mkAsset "first" "u1" "d1"]) _ eq_refl).
  repeat (apply Forall_cons; [reflexivity|]). apply Forall_nil.
Defined.

(** X7: when every numeric pre-release identifier of the valid releases is
    at most [MAX_SAFE_INTEGER], the version that [latest] resolves to does
    not depend on the order in which the registry lists the releases, nor
    on repetitions: two lists with the same entries resolve to the same
    version. *)
Theorem latest_order_independent (data data' : list ReleaseData) (r : IRelease) :
  Forall (fun r' => safe (release_version r')) (valid_releases data) ->
  (forall d, In d data <-> In d data') ->
  pick_latest data = OK r ->
  exists r', pick_latest data' = OK r' /\ release_version r' = release_version r.
Proof.
  intros Hsafe Hsame Hr.
  assert (Hv : forall x, In x (valid_releases data) <-> In x (valid_releases data')).
  { intros x. rewrite !valid_releases_In. split; intros (d & Hd & H);
      exists d; (split; [now apply Hsame | exact H]). }
  assert (Hsafe' : Forall (fun r' => safe (release_version r'))
                          (valid_releases data')).
  { rewrite Forall_forall in *. intros x Hx. apply Hsafe, Hv, Hx. }
  pose proof (pick_latest_greatest data) as G.
  pose proof (pick_latest_greatest data') as G'.
  pose proof (valid_releases_cleaned data) as C.
  pose proof (valid_releases_cleaned data') as C'.
  pose proof Hsafe as S. pose proof Hsafe' as S'.
  rewrite Forall_forall in C, C', S, S'.
  destruct (valid_releases data) as [|x0 l]; [congruence|].
  destruct G as (x & Ex & Hin & Hmax). assert (x = r) by congruence. subst x.
  specialize (Hmax Hsafe).
  destruct (valid_releases data') as [|y0 l'].
  { apply Hv in Hin. contradiction. }
  destruct G' as (r' & Er' & Hin' & Hmax'). specialize (Hmax' Hsafe').
  exists r'. split; [exact Er'|].
  apply version_le_antisym.
  - now apply C'.
  - now apply C.
  - now apply S'.
  - now apply S.
  - apply Hmax, Hv, Hin'.
  - apply Hmax', Hv, Hin.
Qed.

Lemma latest_order_independent_witness :
  exists r', pick_latest (rev synthetic_releases) = OK r' /\
             release_version r' = mkCleaned "2.0.0".
Proof.
  refine (latest_order_independent synthetic_releases (rev synthetic_releases)
            (mkRelease (mkCleaned "2.0.0") [mkAsset "a" "u1" "d1"]) _ _ eq_refl).
  - repeat (apply Forall_cons; [reflexivity|]). apply Forall_nil.
  - intros d. apply in_rev.
Defined.

(** X8: in every run of [main], the registry is only asked the question
    that belongs to the input: the latest release for [stable], the first
    hundred releases for [latest], and for any other input the release
    tagged "v" followed by the cleaned input. *)
Theorem registry_request (O : Oracle) (plat : OsPlat) (s : string) (e : Event) :
  version_input (snd (main O plat [])) = Some s ->
  In e (snd (main O plat [])) -> is_registry e = true -> request_of s e.
Proof.
  unfold main, checking_cache. unfold_monad.
  repeat main_step_resolving; cbn [version_input]; intros Hv Hin Hr;
    try discriminate Hv; injection Hv as <-; in_cases Hin; subst;
    try discriminate Hr.
  all: try match goal with
           | Hq : forall e, In e ?t -> request_of _ e, Hi : In _ ?t |- _ =>
               exact (Hq _ Hi)
           end.
  all: match goal with
       | Hn : none _ ?t = true, Hi : In _ ?t |- _ =>
           first [ apply none_work_registry in Hn | idtac ];
           pose proof (none_In _ _ _ Hn Hi) as F; congruence
       end.
Qed.

Lemma registry_request_witness :
  request_of "v2.40.0" (EvGetReleaseByTag "v2.40.0" (Returned sample_release)).
Proof.
  refine (registry_request (sample_oracle_with "v2.40.0" "") linux "v2.40.0"
            (EvGetReleaseByTag "v2.40.0" (Returned sample_release))
            eq_refl _ eq_refl).
  vm_compute. do 8 right. left. reflexivity.
Defined.

(** X9: the version that a run publishes is the cleaned input, or the
    version of the release that the registry returned to the request made
    for the input: the tag of the release returned for [stable] or for the
    requested tag, cleaned, or for [latest] the version of one of the valid
    releases of the list returned, which none of them exceeds when all their
    numeric pre-release identifiers are at most [MAX_SAFE_INTEGER].  The
    action does not compare the release returned for a tag with the version
    it asked for. *)
Theorem published_provenance (O : Oracle) (plat : OsPlat) (s n x : string) :
  version_input (snd (main O plat [])) = Some s ->
  In (EvSetOutput n x) (snd (main O plat [])) ->
  Semver.clean s = Some x \/
  exists e, In e (snd (main O plat [])) /\ request_of s e /\ resolves e x.
Proof.
  unfold main, checking_cache. unfold_monad.
  repeat main_step_resolving; cbn [version_input]; intros Hv Hin;
    try discriminate Hv; injection Hv as <-; in_cases Hin.
  all: injection Hin as <- <-.
  all: try match goal with
           | H : installed_version ?iv = _ /\ _ |- _ =>
               let Hv := fresh "Hv" in destruct H as (Hv & _); rewrite Hv in *
           end.
  all: cbn [installed_version installed_path] in *.
  all: first
         [ left; eapply exact_cleaned; eassumption
         | right;
           match goal with
           | Hr : forall rel0, OK ?rel = OK rel0 -> _,
             Hq : forall e, In e ?t -> request_of _ e |- _ =>
               let e := fresh "e" in let Hi := fresh "Hi" in
               let Hx := fresh "Hx" in
               destruct (Hr rel eq_refl) as (e & Hi & Hx);
               exists e; split; [in_solve | split; [now apply Hq | exact Hx]]
           end ].
Qed.

Lemma published_provenance_witness :
  version_input (snd (main sample_oracle linux [])) = Some "stable" /\
  exists e, In e (snd (main sample_oracle linux [])) /\
            request_of "stable" e /\ resolves e "2.40.0".
Proof.
  split; [reflexivity|].
  assert (Hin : In (EvSetOutput "installed-version" "2.40.0")
                   (snd (main sample_oracle linux []))).
  { vm_compute. do 20 right. left. reflexivity. }
  destruct (published_provenance sample_oracle linux "stable" _ _ eq_refl Hin)
    as [F|H]; [discriminate F | exact H].
Defined.

(** X10: in every run of [main], a directory is registered in the tool
    cache only under the name of the executable and the name of the tool,
    and only for a version that the tool cache, asked in this run, said it
    does not hold: the action never registers over an installation it
    found. *)
Theorem registers_only_missing (O : Oracle) (plat : OsPlat)
    (d a b v : string) (ans : answer string) :
  In (EvCacheDir d a b v ans) (snd (main O plat [])) ->
  a = execName plat /\ b = toolName /\
  In (EvFind toolName v (Returned "")) (snd (main O plat [])).
Proof.
  unfold main, checking_cache. unfold_monad.
  repeat main_step_registering; intros Hin; in_cases Hin.
  all: try match goal with
       | Hn : none ?p ?t = true, Hi : In _ ?t |- _ =>
           first [ apply none_work_install in Hn | idtac ];
           pose proof (none_In _ _ _ Hn Hi) as F; discriminate F
       end.
  all: match goal with
       | Hr : forall d a b v ans, In _ ?t -> _, Hi : In _ ?t |- _ =>
           destruct (Hr _ _ _ _ _ Hi) as (-> & -> & ->)
       end.
  all: split; [reflexivity|]; split; [reflexivity|].
  all: match goal with
       | H : (?p =? "")%string = true
         |- In (EvFind _ (versionString (release_version _)) _) _ =>
           apply String.eqb_eq in H; subst p
       end.
  all: in_solve.
Qed.

Lemma registers_only_missing_witness :
  In (EvCacheDir "/tmp/extract/gh_2.40.0_linux_amd64" "gh" "gh-cli" "2.40.0"
        (Returned "/opt/hostedtoolcache/gh-cli/2.40.0"))
     (snd (main sample_oracle linux [])) /\
  In (EvFind "gh-cli" "2.40.0" (Returned "")) (snd (main sample_oracle linux [])).
Proof.
  assert (Hin : In (EvCacheDir "/tmp/extract/gh_2.40.0_linux_amd64" "gh" "gh-cli"
                      "2.40.0" (Returned "/opt/hostedtoolcache/gh-cli/2.40.0"))
                   (snd (main sample_oracle linux []))).
  { vm_compute. do 15 right. left. reflexivity. }
  split; [exact Hin|].
  exact (proj2 (proj2 (registers_only_missing sample_oracle linux _ _ _ _ _ Hin))).
Defined.

(** X11: in every run of [main], the directory added to the path is the
    entry [bin] of an installation directory that the tool cache returned
    in this run: the non-empty answer of a cache check, or the answer to
    the registration of the freshly extracted directory. *)
Theorem path_is_installation_bin (O : Oracle) (plat : OsPlat) (p : string) :
  In (EvAddPath p) (snd (main O plat [])) ->
  exists q, p = path_join O q "bin" /\
    ((exists v, (q =? "")%string = false /\
                In (EvFind toolName v (Returned q)) (snd (main O plat []))) \/
     (exists d v, In (EvCacheDir d (execName plat) toolName v (Returned q))
                     (snd (main O plat [])))).
Proof.
  unfold main, checking_cache. unfold_monad.
  repeat main_step_path; intros Hin.
  all: pose proof Hin as Hin'; in_cases Hin'.
  all: try match goal with
       | Hn : none is_addPath ?t = true, Hi : In (EvAddPath _) ?t |- _ =>
           pose proof (none_In _ _ _ Hn Hi) as F; discriminate F
       end.
  all: match goal with
       | Hp : forall p, In (EvAddPath p) _ -> p = path_join ?O (installed_path ?iv) _
         |- _ =>
           exists (installed_path iv); split;
           [ first [ now injection Hin' as <- | apply Hp; in_solve ] |]
       end.
  all: cbn [installed_path installed_version] in *.
  all: first
         [ left;
           match goal with
           | H : (?q =? "")%string = false |- _ =>
               eexists; split; [exact H | in_solve]
           end
         | right;
           match goal with
           | H : _ /\ exists dir, In (EvCacheDir dir _ _ ?v (Returned _)) _ |- _ =>
               let dir := fresh "dir" in let Hd := fresh "Hd" in
               destruct H as (_ & dir & Hd); exists dir, v; in_solve
           end ].
Qed.

Lemma path_is_installation_bin_witness :
  In (EvAddPath "/opt/hostedtoolcache/gh-cli/2.40.0/bin")
     (snd (main sample_oracle linux [])) /\
  exists q, "/opt/hostedtoolcache/gh-cli/2.40.0/bin" = path_join sample_oracle q "bin".
Proof.
  assert (Hin : In (EvAddPath "/opt/hostedtoolcache/gh-cli/2.40.0/bin")
                   (snd (main sample_oracle linux []))).
  { vm_compute. do 18 right. left. reflexivity. }
  split; [exact Hin|].
  destruct (path_is_installation_bin sample_oracle linux _ Hin) as (q & Hq & _).
  exists q. exact Hq.
Defined.

(** X12: the listing that [setAndCheckOutput] makes for the debug log is
    part of the step: when it throws, the step fails with that error before
    the path is extended, the executable is run or an output is published.
    Without debugging no directory is listed and nothing is logged; with
    debugging the installation directory is listed once. *)
Theorem debug_listing (O : Oracle) (plat : OsPlat) (iv : IInstalledVersion)
    (h : Trace) :
  let t := snd (setAndCheckOutput O plat iv h) in
  let debugging := core_isDebug O (h ++ [EvStartGroup "Checking installation"])%list in
  (forall dir m,
     In (EvReaddir dir (Thrown m)) t ->
     fst (setAndCheckOutput O plat iv h) = Err (External SvcFileSystem m) /\
     none is_addPath t = true /\ none is_exec t = true /\
     none is_publish t = true) /\
  (debugging = false -> none is_readdir t = true /\ none is_debug t = true) /\
  (debugging = true ->
   exists contents, filter is_readdir t = [EvReaddir (installed_path iv) contents]).
Proof.
  cbv zeta. unfold setAndCheckOutput. unfold_monad.
  destruct (core_isDebug O _); unfold_monad.
  - destruct (fs_readdirSync O _ _) as [contents|m] eqn:Er; norm_hist.
    + destruct (getExecOutput O _ _ _) as [out|m];
        [destruct (indexOf out _ <? 0)|]; unfold_monad; cbn [fst snd app];
        (split; [intros dir m' Hin;
                 repeat (destruct Hin as [Hin|Hin]; [discriminate Hin|]);
                 contradiction
                |split; [discriminate | intros _; eexists; reflexivity]]).
    + cbn [fst snd app].
      split; [|split; [discriminate | intros _; eexists; reflexivity]].
      intros dir m' Hin.
      repeat (destruct Hin as [Hin|Hin]; [try discriminate Hin|]);
        [|contradiction].
      injection Hin as <- <-. repeat split.
  - norm_hist.
    destruct (getExecOutput O _ _ _) as [out|m];
      [destruct (indexOf out _ <? 0)|]; unfold_monad; cbn [fst snd app];
      (split; [intros dir m' Hin;
               repeat (destruct Hin as [Hin|Hin]; [discriminate Hin|]);
               contradiction
              |split; [intros _; split; reflexivity | discriminate]]).
Qed.

(** X13: every group that [main] opens is closed again, whether the run
    succeeds or fails, with one exception: when the input [version] cannot
    be read or does not clean, or the token cannot be read, the run stops
    inside the group 'Validate input', which is then the only group opened
    and is never closed. *)
Theorem groups_closed (O : Oracle) (plat : OsPlat) :
  let t := snd (main O plat []) in
  (In EvEndGroup t /\ open_groups t = 0) \/
  (~ In EvEndGroup t /\ open_groups t = 1 /\
   ((exists m, fst (main O plat []) = Err (External SvcInput m)) \/
    (exists s, In (EvGetInput "version" (Returned s)) t /\
               fst (main O plat []) = Err (InvalidVersion s)))).
Proof.
  cbv zeta. unfold main, checking_cache. unfold_monad.
  repeat main_step_groups.
  all: repeat match goal with
         | H : open_groups (_ ++ _)%list = _ |- _ =>
             rewrite open_groups_app in H; cbn [open_groups] in H
         end.
  all: first
         [ left; split;
           [ in_solve
           | repeat (cbn [open_groups]; rewrite ?open_groups_app); lia ]
         | right; split; [intros Hin; now in_cases Hin|];
           split; [reflexivity|];
           first
             [ left; eexists; reflexivity
             | right; destruct Hnew as (_ & _ & _ & ->);
               eexists; split; [in_solve | reflexivity] ] ].
Qed.

(** X14: the earlier revision, which filters and sorts the registry entries
    themselves and cleans their tags at every comparison, resolves [latest]
    to the entry that the latest revision resolves it to, and fails when it
    fails. *)
Theorem pick_latest_revisions (data : list ReleaseData) :
  rbind (Earlier.pick_latest data) release_of_data = pick_latest data.
Proof. apply pick_latest_upgrade. Qed.

(** X15: on a version that cleans, the three revisions of [assetExtension]
    compare as follows: the earlier one, given the raw or the cleaned
    string, answers as the latest one; the first one, which knows one
    extension per platform, answers as the latest one except on macOS from
    version 2.28.0 on. *)
Theorem assetExtension_revisions (plat : OsPlat) (s : string) (v : ICleanedVersion) :
  cleanedVersion s = OK v ->
  Earlier.assetExtension plat s = assetExtension plat v /\
  Earlier.assetExtension plat (versionString v) = assetExtension plat v /\
  (assetExtension plat v = OK (First.assetExtension plat) <->
   plat <> macOS \/
   exists p, SemVer_new (versionString v) = Some p /\ precedes p v2_28_0).
Proof.
  intros Hs. assert (Hv : cleaned v) by now exists s.
  split; [|split; [now apply assetExtension_earlier|]].
  - apply cleanedVersion_OK in Hs.
    unfold Earlier.assetExtension, assetExtension, Earlier.cleanedVersion.
    now rewrite Hs.
  - destruct plat.
    + split; [left; discriminate | reflexivity].
    + destruct (assetExtension_macOS v Hv) as (p & Ep & Pp & ->).
      unfold First.assetExtension. cbn [OsPlat_eqb].
      split.
      * intros H. right. exists p. split; [exact Ep|].
        apply before_2_28_0_precedes.
        destruct (before_2_28_0 p); [reflexivity | discriminate H].
      * intros [H|(p' & Ep' & H)]; [contradiction|].
        assert (p' = p) by congruence. subst p'.
        apply before_2_28_0_precedes in H. now rewrite H.
    + split; [left; discriminate | reflexivity].
Qed.

Lemma assetExtension_revisions_witness :
  Earlier.assetExtension macOS "v2.40.0" = OK "zip" /\
  assetExtension macOS (mkCleaned "2.40.0") = OK "zip" /\
  First.assetExtension macOS = "tar.gz".
Proof.
  split; [|split; reflexivity].
  rewrite (proj1 (assetExtension_revisions macOS "v2.40.0" (mkCleaned "2.40.0")
                    eq_refl)).
  reflexivity.
Defined.






(** X19: in the latest revision the asset name is "gh_" + version + "_"
    + osPlat + "_" + osArch + "." + extension, with the extension of the
    resolved version ([assetExtension] is called there); the
    installing step fails with [AssetNotFound] exactly when no asset of the
    release has this name, and otherwise installs the first asset that has
    it. *)
Theorem asset_lookup (O : Oracle) (plat : OsPlat) (release : IRelease)
    (h : Trace) (ext : string) :
  assetExtension plat (release_version release) = OK ext ->
  let name := "gh_" ++ versionString (release_version release) ++ "_"
              ++ OsPlat_string plat ++ "_" ++ osArch O ++ "." ++ ext in
  assetName_of plat (osArch O) release = OK name /\
  ((exists n, fst (installing_release O plat release h) = Err (AssetNotFound n)) <->
   forall a, In a (release_assets release) -> asset_name a <> name) /\
  (forall n, fst (installing_release O plat release h) = Err (AssetNotFound n) ->
             n = name /\ snd (installing_release O plat release h) = []) /\
  (forall a, List.find (fun a => (asset_name a =? name)%string)
               (release_assets release) = Some a ->
             In a (release_assets release) /\ asset_name a = name /\
             installing_release O plat release h
             = install O plat a (release_version release) h).
Proof.
  intros Hext name.
  assert (Hname : assetName_of plat (osArch O) release = OK name)
    by (unfold assetName_of; now rewrite Hext).
  pose proof (installing_release_cases O plat release h) as Hc. rewrite Hname in Hc.
  split; [exact Hname|].
  destruct (find_asset name (release_assets release)) as [a|e] eqn:Ef.
  - assert (Hfind := proj1 (find_asset_OK _ _ _) Ef).
    assert (Hne : forall n, fst (installing_release O plat release h)
                            <> Err (AssetNotFound n)).
    { intros n Hn. rewrite Hc in Hn. apply install_errors in Hn.
      destruct Hn as [Hn|[Hn|(svc & m & Hn)]]; discriminate. }
    split; [|split].
    + split.
      * intros [n Hn]. now apply Hne in Hn.
      * intros Hall. exfalso. destruct (proj2 (find_asset_missing name _) Hall) as [e He].
        congruence.
    + intros n Hn. now apply Hne in Hn.
    + intros a' Ha'. assert (a' = a) by congruence. subst a'.
      apply find_some in Hfind as [Hin Hn]. apply String.eqb_eq in Hn. auto.
  - assert (He : e = AssetNotFound name).
    { unfold find_asset in Ef. destruct (List.find _ _); [discriminate|].
      now injection Ef as <-. }
    subst e. rewrite Hc. cbn [fst snd]. split; [|split].
    + split.
      * intros _. apply find_asset_missing. eauto.
      * intros _. now exists name.
    + intros n [= <-]. auto.
    + intros a Ha. apply find_asset_OK in Ha. congruence.
Qed.

Lemma asset_lookup_witness :
  assetExtension linux (mkCleaned "2.40.0") = OK "tar.gz" /\
  assetName_of linux (osArch sample_oracle)
    (mkRelease (mkCleaned "2.40.0") sample_assets)
  = OK "gh_2.40.0_linux_amd64.tar.gz".
Proof.
  split; [reflexivity|].
  exact (proj1 (asset_lookup sample_oracle linux
                  (mkRelease (mkCleaned "2.40.0") sample_assets) [] "tar.gz"
                  eq_refl)).
Defined.

(* ================================================================== *)
(** * The sample runner at work *)

Example clean_examples :
  Semver.clean "v2.0.0" = Some "2.0.0" /\
  Semver.clean "not-a-version" = None /\
  Semver.clean "  =v1.2.3-rc.1+build.5 " = Some "1.2.3-rc.1" /\
  Semver.clean "1.02.3" = None /\
  Semver.clean "1.2" = None.
Proof. repeat split. Qed.

Example compare_examples :
  Semver.compare "2.0.0-rc1" "2.0.0" = Some (-1) /\
  Semver.compare "2.27.9" "2.28.0" = Some (-1) /\
  Semver.compare "1.0.0-alpha.1" "1.0.0-alpha.beta" = Some (-1) /\
  Semver.compare "1.0.0-2" "1.0.0-11" = Some (-1) /\
  Semver.compare "1.0.0" "1.0.0+build" = Some 0 /\
  Semver.compare "1.0" "1.0.0" = None.
Proof. repeat split. Qed.

(** A nested archive: the root lists only the asset's base name, which
    lists [bin]. *)
Example locate_nested :
  locate_bin sample_oracle "/tmp/extract" "gh_2.40.0_linux_amd64" []
  = (OK "/tmp/extract/gh_2.40.0_linux_amd64",
     [EvReaddir "/tmp/extract" (Returned ["gh_2.40.0_linux_amd64"]);
      EvReaddir "/tmp/extract/gh_2.40.0_linux_amd64"
        (Returned ["LICENSE"; "bin"; "share"])]).
Proof. reflexivity. Qed.

(** A flat archive: the root lists [bin], and nothing else is listed. *)
Example locate_flat :
  locate_bin sample_oracle "/tmp/flat" "gh_2.40.0_linux_amd64" []
  = (OK "/tmp/flat", [EvReaddir "/tmp/flat" (Returned ["LICENSE"; "bin"; "share"])]).
Proof. reflexivity. Qed.

(** Neither: the root lists the base name of another asset. *)
Example locate_neither :
  fst (locate_bin sample_oracle "/tmp/extract" "gh_2.41.0_linux_amd64" [])
  = Err NoExecutableFound.
Proof. reflexivity. Qed.

(** Asked for [stable] on linux/x64 with an empty cache, the action resolves
    the latest stable release, picks [gh_2.40.0_linux_amd64.tar.gz],
    installs it and publishes 2.40.0. *)
Example run_stable :
  run sample_oracle
  = (OK tt,
     [EvStartGroup "Validate input";
      EvGetInput "version" (Returned "stable");
      EvGetInput "github-token" (Returned ""); EvEndGroup;
      EvStartGroup "Checking cache"; EvEndGroup;
      EvStartGroup "Fetching release";
      EvGetLatestRelease (Returned sample_release);
      EvFind "gh-cli" "2.40.0" (Returned ""); EvEndGroup;
      EvStartGroup "Installing release";
      EvDownloadTool "https://dl.example/gh_2.40.0_linux_amd64.tar.gz"
        (Returned "/tmp/download");
      EvExtractTar "/tmp/download" (Returned "/tmp/extract");
      EvReaddir "/tmp/extract" (Returned ["gh_2.40.0_linux_amd64"]);
      EvReaddir "/tmp/extract/gh_2.40.0_linux_amd64"
        (Returned ["LICENSE"; "bin"; "share"]);
      EvCacheDir "/tmp/extract/gh_2.40.0_linux_amd64" "gh" "gh-cli" "2.40.0"
        (Returned "/opt/hostedtoolcache/gh-cli/2.40.0");
      EvEndGroup; EvStartGroup "Checking installation";
      EvAddPath "/opt/hostedtoolcache/gh-cli/2.40.0/bin";
      EvExec "gh" ["version"] (Returned "gh version 2.40.0 (2023-12-07)");
      EvSetOutput "installed-version" "2.40.0"; EvEndGroup]).
Proof. vm_compute. reflexivity. Qed.

(** Asked for v2.40.0 with that version in the cache, the action neither
    asks the registry nor installs. *)
Example run_cached :
  run (sample_oracle_with "v2.40.0" "/opt/hostedtoolcache/gh-cli/2.40.0")
  = (OK tt,
     [EvStartGroup "Validate input";
      EvGetInput "version" (Returned "v2.40.0");
      EvGetInput "github-token" (Returned ""); EvEndGroup;
      EvStartGroup "Checking cache";
      EvFind "gh-cli" "2.40.0" (Returned "/opt/hostedtoolcache/gh-cli/2.40.0");
      EvInfo "Found cached version."; EvEndGroup;
      EvStartGroup "Checking installation";
      EvAddPath "/opt/hostedtoolcache/gh-cli/2.40.0/bin";
      EvExec "gh" ["version"] (Returned "gh version 2.40.0 (2023-12-07)");
      EvSetOutput "installed-version" "2.40.0"; EvEndGroup]).
Proof. vm_compute. reflexivity. Qed.

(** An input that is no version stops the run at once. *)
Example run_invalid :
  run (sample_oracle_with "nope" "")
  = (Err (InvalidVersion "nope"),
     [EvStartGroup "Validate input"; EvGetInput "version" (Returned "nope");
      EvSetFailed "Invalid version: nope"]).
Proof. vm_compute. reflexivity. Qed.
